(** * BleachLua: the variable handle, marshalling, iteration and binding layer

    A shallow embedding of the C++ sources (LuaVar.h / LuaVar.cpp,
    StackHelpers.h, TableIterator.h / TableIterator.cpp, LuaFunction.h /
    LuaFunction.cpp) over a model of the embedded Lua 5.3 runtime.

    - A C++ member function that mutates [*this] takes the object and returns
      the updated object; the runtime, the RefCount heap and the diagnostic
      stream are threaded through the monad [M].
    - [LUA_ASSERT] is [assert]: it aborts when the build has NDEBUG unset
      ([checked] below) and is a no-op otherwise.  [LUA_ERROR] writes to
      [std::cerr] in every build.
    - The Lua C API is modelled after the Lua 5.3 reference manual and
      lapi.c / lauxlib.c.  Values carry no metatables in this model; what the
      runtime computes outside of it (numeric coercion of strings, number
      formatting, running script code) is the interface [LuaRuntime]. *)

From Stdlib Require Import ZArith String Ascii Lia.
From Stdlib Require Import Floats.SpecFloat.
From Stdlib Require Import DecimalString.
From stdpp Require Import base option list gmap strings.
Local Open Scope Z_scope.

(* ================================================================= *)
(** ** Lua values *)

(** [lua_Number] is an IEEE 754 binary64 value. *)
Definition lua_Number := spec_float.

Inductive TValue : Type :=
| LNil
| LBoolean (b : bool)
| LLightUserData (p : Z)
| LInteger (i : Z)
| LFloat (n : lua_Number)
| LString (s : string)
| LTable (t : Z)
| LFunction (f : Z) (isC : bool)
| LUserData (u : positive).

#[global] Instance spec_float_eq_dec : EqDecision spec_float.
Proof. solve_decision. Defined.
#[global] Instance TValue_eq_dec : EqDecision TValue.
Proof. solve_decision. Defined.

Definition LUA_TNONE : Z := -1.
Definition LUA_TNIL : Z := 0.
Definition LUA_TBOOLEAN : Z := 1.
Definition LUA_TLIGHTUSERDATA : Z := 2.
Definition LUA_TNUMBER : Z := 3.
Definition LUA_TSTRING : Z := 4.
Definition LUA_TTABLE : Z := 5.
Definition LUA_TFUNCTION : Z := 6.
Definition LUA_TUSERDATA : Z := 7.

Definition LUA_REFNIL : Z := -1.
Definition LUA_NOREF : Z := -2.
Definition LUA_REGISTRYINDEX : Z := -1001000.
Definition lua_upvalueindex (i : Z) : Z := LUA_REGISTRYINDEX - i.

Definition LUA_OK : Z := 0.
Definition LUA_MININTEGER : Z := - 2 ^ 63.
Definition LUA_MAXINTEGER : Z := 2 ^ 63 - 1.

Inductive CompareOp := LUA_OPEQ | LUA_OPLT | LUA_OPLE.

Definition ttype (v : TValue) : Z :=
  match v with
  | LNil => LUA_TNIL
  | LBoolean _ => LUA_TBOOLEAN
  | LLightUserData _ => LUA_TLIGHTUSERDATA
  | LInteger _ | LFloat _ => LUA_TNUMBER
  | LString _ => LUA_TSTRING
  | LTable _ => LUA_TTABLE
  | LFunction _ _ => LUA_TFUNCTION
  | LUserData _ => LUA_TUSERDATA
  end.

Definition lua_typename (tp : Z) : string :=
  if tp =? LUA_TNONE then "no value"
  else if tp =? LUA_TNIL then "nil"
  else if tp =? LUA_TBOOLEAN then "boolean"
  else if tp =? LUA_TLIGHTUSERDATA then "userdata"
  else if tp =? LUA_TNUMBER then "number"
  else if tp =? LUA_TSTRING then "string"
  else if tp =? LUA_TTABLE then "table"
  else if tp =? LUA_TFUNCTION then "function"
  else if tp =? LUA_TUSERDATA then "userdata"
  else "thread".

(** Two's complement wrap-around of a [bits]-wide integer. *)
Definition wrap_signed (bits : Z) (z : Z) : Z :=
  (z + 2 ^ (bits - 1)) mod 2 ^ bits - 2 ^ (bits - 1).
Definition wrap_unsigned (bits : Z) (z : Z) : Z := z mod 2 ^ bits.

(** [(lua_Number) i] *)
Definition cast_num (i : Z) : lua_Number := binary_normalize 53 1024 i 0 false.

(** luaV_tointeger, mode 0: a float converts when it has an exact integer
    value that fits [lua_Integer]. *)
Definition float_to_integer (n : lua_Number) : option Z :=
  match n with
  | S754_zero _ => Some 0
  | S754_finite s m e =>
      let mag :=
        if 0 <=? e then Some (Z.pos m * 2 ^ e)
        else if (Z.pos m) mod 2 ^ (- e) =? 0 then Some (Z.pos m / 2 ^ (- e))
        else None in
      match mag with
      | Some a =>
          let v := if s then - a else a in
          if (LUA_MININTEGER <=? v) && (v <=? LUA_MAXINTEGER) then Some v else None
      | None => None
      end
  | _ => None
  end.

(** Table keys: a float key with an exact integer value is the integer key. *)
Definition key_norm (k : TValue) : TValue :=
  match k with
  | LFloat n => match float_to_integer n with Some i => LInteger i | None => k end
  | _ => k
  end.

Definition Table := list (TValue * TValue).

Fixpoint luaH_get (t : Table) (k : TValue) : TValue :=
  match t with
  | [] => LNil
  | (k', v) :: rest => if decide (k' = key_norm k) then v else luaH_get rest k
  end.

(** luaH_next: [None] is "invalid key to 'next'", [Some None] the end of the
    traversal. *)
Fixpoint luaH_next (t : Table) (k : TValue) : option (option (TValue * TValue)) :=
  match k with
  | LNil => Some (head t)
  | _ =>
      match t with
      | [] => None
      | (k', _) :: rest =>
          if decide (k' = key_norm k) then Some (head rest) else luaH_next rest k
      end
  end.

(* ================================================================= *)
(** ** The runtime state *)

Record lua_State := mkState {
  (** the operand stack of the running call frame, top first: index -1 is
      the head, index 1 the last element *)
  stack : list TValue;
  (** the registry entries luaL_ref handed out, by reference *)
  registry : gmap positive TValue;
  (** the table heap *)
  tables : gmap Z Table;
  (** full userdata blocks: address to the pointer-sized payload copied in *)
  blocks : gmap positive Z;
  (** upvalues of the running C closure *)
  upvalues : list TValue;
}.

Definition set_stack (s : list TValue) (L : lua_State) : lua_State :=
  mkState s (registry L) (tables L) (blocks L) (upvalues L).
Definition set_registry (r : gmap positive TValue) (L : lua_State) : lua_State :=
  mkState (stack L) r (tables L) (blocks L) (upvalues L).
Definition set_tables (t : gmap Z Table) (L : lua_State) : lua_State :=
  mkState (stack L) (registry L) t (blocks L) (upvalues L).
Definition set_blocks (b : gmap positive Z) (L : lua_State) : lua_State :=
  mkState (stack L) (registry L) (tables L) b (upvalues L).

(** What the runtime computes outside of this model. *)
Class LuaRuntime := {
  (** luaO_str2num: the numeric value of a string, when it spells one *)
  luaO_str2num : string -> option TValue;
  (** luaO_tostring on a number *)
  luaO_tostring : TValue -> string;
  (** lua_pcall nargs nresults msgh: the status and the state it leaves *)
  luaD_pcall : Z -> Z -> Z -> lua_State -> Z * lua_State;
  (** the text luaL_traceback pushes *)
  luaL_traceback : lua_State -> string;
}.

(** index2addr: the value at an index of the running frame.  A positive
    index above the top is acceptable and reads as "none"; a negative index
    below the frame is not. *)
Inductive Slot := SlotValue (v : TValue) | SlotNone | SlotInvalid.

Definition index2addr (L : lua_State) (idx : Z) : Slot :=
  if 0 <? idx then
    match nth_error (rev (stack L)) (Z.to_nat (idx - 1)) with
    | Some v => SlotValue v
    | None => SlotNone
    end
  else if LUA_REGISTRYINDEX <? idx then
    if idx =? 0 then SlotInvalid
    else match nth_error (stack L) (Z.to_nat (- idx - 1)) with
         | Some v => SlotValue v
         | None => SlotInvalid
         end
  else if idx =? LUA_REGISTRYINDEX then SlotInvalid
  else
    match nth_error (upvalues L) (Z.to_nat (LUA_REGISTRYINDEX - idx - 1)) with
    | Some v => SlotValue v
    | None => SlotNone
    end.

(** [drop_exact n l] removes the [n] topmost slots, when there are that many. *)
Fixpoint drop_exact (n : nat) (l : list TValue) : option (list TValue) :=
  match n with
  | O => Some l
  | S n' => match l with
            | [] => None
            | _ :: l' => drop_exact n' l'
            end
  end.

(** Overwrites the slot at depth [n] below the top. *)
Fixpoint set_slot (n : nat) (v : TValue) (l : list TValue) : list TValue :=
  match l with
  | [] => []
  | x :: l' => match n with
               | O => v :: l'
               | S n' => x :: set_slot n' v l'
               end
  end.

(* ================================================================= *)
(** ** Native side: handles, marshalled values, the world *)

(** class LuaVar *)
Record LuaVar := mkVar {
  m_pState : option Z;      (* LuaState*, None is nullptr *)
  m_pRefCount : option Z;   (* _Internal::RefCount*, None is nullptr *)
  m_reference : Z;
}.

#[global] Instance LuaVar_eq_dec : EqDecision LuaVar.
Proof. solve_decision. Defined.

Inductive IntType :=
| TInt (bits : Z) (signed : bool)   (* char ... long long, except lua_Unsigned *)
| TLuaUnsigned.                     (* lua_Unsigned = unsigned long long *)

Inductive FloatType := TFloat32 | TFloat64.

(** The C++ types the marshalling layer is specialised for. *)
Inductive CType :=
| CBool
| CInteger (t : IntType)
| CNumber (t : FloatType)
| CString          (* const char* *)
| CNullptr         (* nullptr_t *)
| CFunction        (* LuaCFunction *)
| CUserData        (* void* *)
| CLuaVar.

Inductive NativeValue :=
| NBool (b : bool)
| NInt (t : IntType) (i : Z)
| NNumber (t : FloatType) (n : spec_float)
| NString (s : option string)      (* None is a null const char* *)
| NNullptr
| NFunction (p : Z)                (* 0 is nullptr *)
| NPointer (p : Z)                 (* 0 is nullptr *)
| NVar (v : LuaVar).

Record World := mkWorld {
  (** the lua_State owned by the LuaState object *)
  lua : lua_State;
  (** address of the one live LuaState object *)
  state_obj : Z;
  (** LuaVar::s_pDefaultLuaState *)
  s_pDefaultLuaState : option Z;
  (** the heap of RefCount objects: address to m_refCount (a size_t) *)
  heap : gmap Z Z;
  (** LuaVar objects at known addresses *)
  vars : gmap Z LuaVar;
  (** what LUA_ERROR wrote, oldest first *)
  cerr : list string;
  (** NDEBUG is not defined: assert aborts, BLEACHLUA_DEBUG_MODE is 1 *)
  checked : bool;
  (** native functions the trampolines invoked, oldest first *)
  invoked : list (Z * list NativeValue);
}.

Definition set_lua (L : lua_State) (w : World) : World :=
  mkWorld L (state_obj w) (s_pDefaultLuaState w) (heap w) (vars w) (cerr w) (checked w) (invoked w).
Definition set_heap (h : gmap Z Z) (w : World) : World :=
  mkWorld (lua w) (state_obj w) (s_pDefaultLuaState w) h (vars w) (cerr w) (checked w) (invoked w).
Definition set_vars (v : gmap Z LuaVar) (w : World) : World :=
  mkWorld (lua w) (state_obj w) (s_pDefaultLuaState w) (heap w) v (cerr w) (checked w) (invoked w).
Definition set_cerr (e : list string) (w : World) : World :=
  mkWorld (lua w) (state_obj w) (s_pDefaultLuaState w) (heap w) (vars w) e (checked w) (invoked w).
Definition set_invoked (i : list (Z * list NativeValue)) (w : World) : World :=
  mkWorld (lua w) (state_obj w) (s_pDefaultLuaState w) (heap w) (vars w) (cerr w) (checked w) i.

(** Native functions are pure functions of their arguments; the receiver of
    a member function is the first argument. *)
Class NativeCode := {
  native_apply : Z -> list NativeValue -> NativeValue;
}.

(* ================================================================= *)
(** ** The monad: state plus abnormal termination *)

Inductive Fault :=
| AssertionFailed
| NullDereference
| DanglingPointer
| InvalidIndex
| LuaPanic (msg : string).

Inductive Outcome (A : Type) :=
| Done (a : A) (w : World)
| Crash (f : Fault).
Arguments Done {A} a w.
Arguments Crash {A} f.

Definition M (A : Type) := World -> Outcome A.

Definition ret {A} (a : A) : M A := fun w => Done a w.
Definition bind {A B} (m : M A) (k : A -> M B) : M B :=
  fun w => match m w with
           | Done a w' => k a w'
           | Crash f => Crash f
           end.
Definition crash {A} (f : Fault) : M A := fun _ => Crash f.

Notation "'do' x <- m ; k" := (bind m (fun x => k))
  (at level 10, x name, m at level 100, k at level 200).
Notation "'run' m ; k" := (bind m (fun _ => k))
  (at level 10, m at level 100, k at level 200).

Definition getL : M lua_State := fun w => Done (lua w) w.
Definition putL (L : lua_State) : M unit := fun w => Done tt (set_lua L w).

(** LUA_ERROR *)
Definition LUA_ERROR (msg : string) : M unit :=
  fun w => Done tt (set_cerr (cerr w ++ [msg]) w).

(** LUA_ASSERT *)
Definition LUA_ASSERT (c : bool) : M unit :=
  fun w => if negb c && checked w then Crash AssertionFailed else Done tt w.

(** #if BLEACHLUA_DEBUG_MODE *)
Definition BLEACHLUA_DEBUG_MODE : M bool := fun w => Done (checked w) w.

(** [pState->GetState()]: the pointer must be the live LuaState object. *)
Definition GetState (pState : option Z) : M unit :=
  fun w => match pState with
           | None => Crash NullDereference
           | Some p => if p =? state_obj w then Done tt w else Crash DanglingPointer
           end.

(* ================================================================= *)
(** ** The Lua C API *)

Definition lua_gettop : M Z :=
  do L <- getL; ret (Z.of_nat (length (stack L))).

Definition lua_settop (idx : Z) : M unit :=
  do L <- getL;
  if 0 <=? idx then
    let n := Z.to_nat idx in
    let len := length (stack L) in
    putL (set_stack (replicate (n - len) LNil ++ drop (len - n) (stack L)) L)
  else
    match drop_exact (Z.to_nat (- idx - 1)) (stack L) with
    | Some s => putL (set_stack s L)
    | None => crash InvalidIndex
    end.

Definition lua_pop (n : Z) : M unit := lua_settop (- n - 1).

Definition push (v : TValue) : M unit :=
  do L <- getL; putL (set_stack (v :: stack L) L).

Definition lua_pushnil : M unit := push LNil.
Definition lua_pushboolean (b : bool) : M unit := push (LBoolean b).
Definition lua_pushinteger (i : Z) : M unit := push (LInteger i).
Definition lua_pushnumber (n : lua_Number) : M unit := push (LFloat n).
Definition lua_pushlightuserdata (p : Z) : M unit := push (LLightUserData p).
Definition lua_pushcfunction (f : Z) : M unit := push (LFunction f true).
(** lua_pushstring pushes nil for a null pointer. *)
Definition lua_pushstring (s : option string) : M unit :=
  match s with
  | Some s => push (LString s)
  | None => push LNil
  end.

(** The value at an acceptable index; "none" is [None]. *)
Definition value_at (idx : Z) : M (option TValue) :=
  do L <- getL;
  match index2addr L idx with
  | SlotValue v => ret (Some v)
  | SlotNone => ret None
  | SlotInvalid => crash InvalidIndex
  end.

Definition lua_type (idx : Z) : M Z :=
  do o <- value_at idx;
  ret (match o with Some v => ttype v | None => LUA_TNONE end).

Definition lua_isfunction (idx : Z) : M bool := do t <- lua_type idx; ret (t =? LUA_TFUNCTION).
Definition lua_istable (idx : Z) : M bool := do t <- lua_type idx; ret (t =? LUA_TTABLE).
Definition lua_islightuserdata (idx : Z) : M bool := do t <- lua_type idx; ret (t =? LUA_TLIGHTUSERDATA).
Definition lua_isnil (idx : Z) : M bool := do t <- lua_type idx; ret (t =? LUA_TNIL).
Definition lua_isboolean (idx : Z) : M bool := do t <- lua_type idx; ret (t =? LUA_TBOOLEAN).

Definition lua_iscfunction (idx : Z) : M bool :=
  do o <- value_at idx;
  ret (match o with Some (LFunction _ true) => true | _ => false end).
Definition lua_isinteger (idx : Z) : M bool :=
  do o <- value_at idx;
  ret (match o with Some (LInteger _) => true | _ => false end).
(** lua_isuserdata: a full or a light userdata *)
Definition lua_isuserdata (idx : Z) : M bool :=
  do o <- value_at idx;
  ret (match o with Some (LUserData _) | Some (LLightUserData _) => true | _ => false end).
(** lua_isstring: a string or a number *)
Definition lua_isstring (idx : Z) : M bool :=
  do t <- lua_type idx; ret ((t =? LUA_TSTRING) || (t =? LUA_TNUMBER)).

Definition lua_toboolean (idx : Z) : M bool :=
  do o <- value_at idx;
  ret (match o with Some LNil | Some (LBoolean false) | None => false | _ => true end).

Definition lua_touserdata (idx : Z) : M Z :=
  do o <- value_at idx;
  ret (match o with
       | Some (LUserData u) => Z.pos u
       | Some (LLightUserData p) => p
       | _ => 0
       end).

Definition lua_tocfunction (idx : Z) : M Z :=
  do o <- value_at idx;
  ret (match o with Some (LFunction f true) => f | _ => 0 end).

Definition lua_pushvalue (idx : Z) : M unit :=
  do o <- value_at idx;
  push (match o with Some v => v | None => LNil end).

(** lua_remove on a valid stack index *)
Definition lua_remove (idx : Z) : M unit :=
  do L <- getL;
  let len := length (stack L) in
  let pos := if 0 <? idx then (len - Z.to_nat idx)%nat else Z.to_nat (- idx - 1) in
  if ((0 <? idx) && (idx <=? Z.of_nat len)) || ((idx <? 0) && (- idx <=? Z.of_nat len))
  then putL (set_stack (delete pos (stack L)) L)
  else crash InvalidIndex.

(** lua_rawgeti (L, LUA_REGISTRYINDEX, n) *)
Definition lua_rawgeti_registry (n : Z) : M unit :=
  do L <- getL;
  push (match n with
        | Z.pos k => default LNil (registry L !! k)
        | _ => LNil
        end).

(** luaL_ref (L, LUA_REGISTRYINDEX): pops the top; nil has the fixed
    reference LUA_REFNIL, any other value gets a reference that is not in
    use. *)
Definition luaL_ref : M Z :=
  do L <- getL;
  match stack L with
  | [] => crash InvalidIndex
  | LNil :: s => run putL (set_stack s L); ret LUA_REFNIL
  | v :: s =>
      let k := fresh (dom (registry L)) in
      run putL (set_registry (<[k := v]> (registry L)) (set_stack s L));
      ret (Z.pos k)
  end.

(** luaL_unref (L, LUA_REGISTRYINDEX, ref): does nothing for LUA_NOREF and
    LUA_REFNIL. *)
Definition luaL_unref (ref : Z) : M unit :=
  do L <- getL;
  match ref with
  | Z.pos k => putL (set_registry (delete k (registry L)) L)
  | _ => ret tt
  end.

Definition lua_createtable (narr nrec : Z) : M unit :=
  do L <- getL;
  let t := fresh (dom (tables L)) in
  putL (set_tables (<[t := []]> (tables L)) (set_stack (LTable t :: stack L) L)).

(** lua_newuserdata: pushes a new block and returns its address *)
Definition lua_newuserdata (size : Z) : M positive :=
  do L <- getL;
  let u := fresh (dom (blocks L)) in
  run putL (set_blocks (<[u := 0]> (blocks L)) (set_stack (LUserData u :: stack L) L));
  ret u.

(** memcpy of a pointer-sized payload into the block *)
Definition memcpy_block (u : positive) (payload : Z) : M unit :=
  do L <- getL;
  match blocks L !! u with
  | Some _ => putL (set_blocks (<[u := payload]> (blocks L)) L)
  | None => crash DanglingPointer
  end.

(** lua_gettable: replaces the key on top by t[key]; without metatables a
    value that is not a table cannot be indexed. *)
Definition lua_gettable (idx : Z) : M unit :=
  do o <- value_at idx;
  do L <- getL;
  match o, stack L with
  | Some (LTable t), k :: s =>
      match tables L !! t with
      | Some tbl => putL (set_stack (luaH_get tbl k :: s) L)
      | None => crash DanglingPointer
      end
  | Some v, _ :: _ =>
      crash (LuaPanic ("attempt to index a " +:+ lua_typename (ttype v) +:+ " value"))
  | _, _ => crash InvalidIndex
  end.

(** lua_rawget: the value at [idx] must be a table *)
Definition lua_rawget (idx : Z) : M unit :=
  do o <- value_at idx;
  do L <- getL;
  match o, stack L with
  | Some (LTable t), k :: s =>
      match tables L !! t with
      | Some tbl => putL (set_stack (luaH_get tbl k :: s) L)
      | None => crash DanglingPointer
      end
  | _, _ => crash InvalidIndex
  end.

(** lua_next: pops a key and pushes the next pair, or nothing at the end *)
Definition lua_next (idx : Z) : M Z :=
  do o <- value_at idx;
  do L <- getL;
  match o, stack L with
  | Some (LTable t), k :: s =>
      match tables L !! t with
      | Some tbl =>
          match luaH_next tbl k with
          | Some (Some (k', v')) => run putL (set_stack (v' :: k' :: s) L); ret 1
          | Some None => run putL (set_stack s L); ret 0
          | None => crash (LuaPanic "invalid key to 'next'")
          end
      | None => crash DanglingPointer
      end
  | _, _ => crash InvalidIndex
  end.

(** luaV_equalobj without metamethods: numbers by value, strings by
    content, everything else by identity. *)
Definition luaV_equalobj (a b : TValue) : bool :=
  match a, b with
  | LInteger i, LFloat n =>
      match float_to_integer n with Some j => i =? j | None => false end
  | LFloat n, LInteger j =>
      match float_to_integer n with Some i => i =? j | None => false end
  | LFloat n, LFloat m => SFeqb n m
  | _, _ => bool_decide (a = b)
  end.

(** luaV_lessthan and luaV_lessequal without metamethods: numbers and
    strings are ordered, anything else raises an error ([None]). *)
Definition luaV_lessthan (a b : TValue) : option bool :=
  match a, b with
  | LInteger i, LInteger j => Some (i <? j)
  | LInteger i, LFloat n => Some (SFltb (cast_num i) n)
  | LFloat n, LInteger j => Some (SFltb n (cast_num j))
  | LFloat n, LFloat m => Some (SFltb n m)
  | LString s, LString t => Some (String.ltb s t)
  | _, _ => None
  end.

Definition luaV_lessequal (a b : TValue) : option bool :=
  match a, b with
  | LInteger i, LInteger j => Some (i <=? j)
  | LInteger i, LFloat n => Some (SFleb (cast_num i) n)
  | LFloat n, LInteger j => Some (SFleb n (cast_num j))
  | LFloat n, LFloat m => Some (SFleb n m)
  | LString s, LString t => Some (String.leb s t)
  | _, _ => None
  end.

(** The value-comparison primitive on two values, first operand first. *)
Definition compare_values (op : CompareOp) (a b : TValue) : option bool :=
  match op with
  | LUA_OPEQ => Some (luaV_equalobj a b)
  | LUA_OPLT => luaV_lessthan a b
  | LUA_OPLE => luaV_lessequal a b
  end.

(** lua_compare (L, index1, index2, op): 1 when the value at [index1]
    satisfies [op] compared with the value at [index2]; 0 when an index is
    not valid.  An order error is not caught here: the runtime panics. *)
Definition lua_compare (index1 index2 : Z) (op : CompareOp) : M Z :=
  do o1 <- value_at index1;
  do o2 <- value_at index2;
  match o1, o2 with
  | Some a, Some b =>
      match compare_values op a b with
      | Some r => ret (if r then 1 else 0)
      | None =>
          crash (LuaPanic ("attempt to compare " +:+ lua_typename (ttype a) +:+
                           " with " +:+ lua_typename (ttype b)))
      end
  | _, _ => ret 0
  end.

(** Overwrites the value at a valid index. *)
Definition set_index (L : lua_State) (idx : Z) (v : TValue) : lua_State :=
  if 0 <? idx then set_stack (set_slot (length (stack L) - Z.to_nat idx) v (stack L)) L
  else if LUA_REGISTRYINDEX <? idx then set_stack (set_slot (Z.to_nat (- idx - 1)) v (stack L)) L
  else mkState (stack L) (registry L) (tables L) (blocks L)
               (<[Z.to_nat (LUA_REGISTRYINDEX - idx - 1) := v]> (upvalues L)).

Section Coercions.
Context `{LuaRuntime}.

(** luaV_tointeger (mode 0) with the string coercion of cvt2num *)
Definition tointeger (v : TValue) : option Z :=
  match v with
  | LInteger i => Some i
  | LFloat n => float_to_integer n
  | LString s =>
      match luaO_str2num s with
      | Some (LInteger i) => Some i
      | Some (LFloat n) => float_to_integer n
      | _ => None
      end
  | _ => None
  end.

(** luaV_tonumber_ *)
Definition tonumber (v : TValue) : option lua_Number :=
  match v with
  | LFloat n => Some n
  | LInteger i => Some (cast_num i)
  | LString s =>
      match luaO_str2num s with
      | Some (LInteger i) => Some (cast_num i)
      | Some (LFloat n) => Some n
      | _ => None
      end
  | _ => None
  end.

(** lua_tointegerx (L, idx, &isnum): the integer (0 on failure) and isnum *)
Definition lua_tointegerx (idx : Z) : M (Z * bool) :=
  do o <- value_at idx;
  ret (match o with
       | Some v => match tointeger v with Some i => (i, true) | None => (0, false) end
       | None => (0, false)
       end).

Definition lua_tonumberx (idx : Z) : M (lua_Number * bool) :=
  do o <- value_at idx;
  ret (match o with
       | Some v => match tonumber v with Some n => (n, true) | None => (S754_zero false, false) end
       | None => (S754_zero false, false)
       end).

Definition lua_tonumber (idx : Z) : M lua_Number :=
  do r <- lua_tonumberx idx; ret (fst r).

Definition lua_isnumber (idx : Z) : M bool :=
  do r <- lua_tonumberx idx; ret (snd r).

(** lua_tolstring (L, idx, NULL): a number at [idx] is converted in place;
    anything that is neither a string nor a number gives a null pointer. *)
Definition lua_tostring (idx : Z) : M (option string) :=
  do o <- value_at idx;
  match o with
  | Some (LString s) => ret (Some s)
  | Some (LInteger i) =>
      let s := luaO_tostring (LInteger i) in
      do L <- getL; run putL (set_index L idx (LString s)); ret (Some s)
  | Some (LFloat n) =>
      let s := luaO_tostring (LFloat n) in
      do L <- getL; run putL (set_index L idx (LString s)); ret (Some s)
  | _ => ret None
  end.

Definition lua_pcall (nargs nresults msgh : Z) : M Z :=
  do L <- getL;
  let r := luaD_pcall nargs nresults msgh L in
  run putL (snd r); ret (fst r).

End Coercions.

(* ================================================================= *)
(** ** _Internal::RefCount *)

(** new RefCount: the count starts at one *)
Definition RefCount_new : M Z :=
  fun w => let p := fresh (dom (heap w)) in
           Done p (set_heap (<[p := 1]> (heap w)) w).

(** delete pRefCount *)
Definition RefCount_delete (p : Z) : M unit :=
  fun w => match heap w !! p with
           | Some _ => Done tt (set_heap (delete p (heap w)) w)
           | None => Crash DanglingPointer
           end.

Definition read_count (p : Z) : M Z :=
  fun w => match heap w !! p with
           | Some c => Done c w
           | None => Crash DanglingPointer
           end.

Definition write_count (p : Z) (c : Z) : M unit :=
  fun w => Done tt (set_heap (<[p := c]> (heap w)) w).

(** [->] on a pointer to a RefCount *)
Definition deref (p : option Z) : M Z :=
  match p with
  | Some a => ret a
  | None => crash NullDereference
  end.

Definition Increment (p : Z) : M unit :=
  do c <- read_count p; write_count p (wrap_unsigned 64 (c + 1)).

Definition Decrement (p : Z) : M bool :=
  do c <- read_count p;
  do dbg <- BLEACHLUA_DEBUG_MODE;
  if dbg then
    if 0 <? c then run write_count p (c - 1); ret (c - 1 =? 0)
    else run LUA_ERROR "Attempting to decrement ref count, but it's already 0."; ret (c =? 0)
  else
    let c' := wrap_unsigned 64 (c - 1) in
    run write_count p c'; ret (c' =? 0).

(* ================================================================= *)
(** ** LuaVar: construction, release, copy and move *)

Definition is_null {A} (p : option A) : bool :=
  match p with Some _ => false | None => true end.

(** explicit LuaVar (LuaState* pState) *)
Definition LuaVar_ctor (pState : option Z) : LuaVar := mkVar pState None LUA_REFNIL.

(** LuaVar () *)
Definition LuaVar_default : M LuaVar :=
  fun w => Done (LuaVar_ctor (s_pDefaultLuaState w)) w.

Definition IsNil (v : LuaVar) : bool := m_reference v =? LUA_REFNIL.

Definition IsValid (v : LuaVar) : bool :=
  negb (is_null (m_pState v)) && negb (m_reference v =? LUA_REFNIL).

Definition ClearRef (v : LuaVar) : M LuaVar :=
  if negb (m_reference v =? LUA_REFNIL) then
    run LUA_ASSERT (negb (is_null (m_pRefCount v)));
    do p <- deref (m_pRefCount v);
    do last <- Decrement p;
    run (if last then
           run GetState (m_pState v);
           run luaL_unref (m_reference v);
           RefCount_delete p
         else ret tt);
    ret (mkVar (m_pState v) None LUA_REFNIL)
  else ret v.

(** ~LuaVar () *)
Definition LuaVar_dtor (v : LuaVar) : M unit :=
  do _ <- ClearRef v; ret tt.

Definition CreateRegisteryEntryFromStack (v : LuaVar) : M LuaVar :=
  run LUA_ASSERT (is_null (m_pRefCount v));
  run LUA_ASSERT (m_reference v =? LUA_REFNIL);
  run GetState (m_pState v);
  do r <- luaL_ref;
  if negb (r =? LUA_REFNIL) then
    do p <- RefCount_new; ret (mkVar (m_pState v) (Some p) r)
  else ret (mkVar (m_pState v) (m_pRefCount v) r).

(** The local is returned by value; the move into the caller's object
    leaves the same three fields there and a nil local behind. *)
Definition CreateFromStack (pState : option Z) : M LuaVar :=
  CreateRegisteryEntryFromStack (LuaVar_ctor pState).

Definition PushValueToStack (v : LuaVar) (allowNil : bool) : M bool :=
  if IsValid v then
    run GetState (m_pState v); run lua_rawgeti_registry (m_reference v); ret true
  else if allowNil then
    run GetState (m_pState v); run lua_pushnil; ret true
  else ret false.

(** Copy: the new value of [*this] *)
Definition Copy (this right : LuaVar) : M LuaVar :=
  do _ <- ClearRef this;
  run (match m_pRefCount right with
       | Some p => Increment p
       | None => ret tt
       end);
  ret (mkVar (m_pState right) (m_pRefCount right) (m_reference right)).

(** Move: the new values of [*this] and of [right] *)
Definition Move (this right : LuaVar) : M (LuaVar * LuaVar) :=
  do _ <- ClearRef this;
  ret (mkVar (m_pState right) (m_pRefCount right) (m_reference right),
       mkVar None None LUA_REFNIL).

(** LuaVar (const LuaVar& right) : LuaVar () *)
Definition LuaVar_copy_ctor (right : LuaVar) : M LuaVar :=
  do this <- LuaVar_default; Copy this right.

(** The assignment operators compare addresses, so they act on LuaVar
    objects in memory. *)
Definition load (a : Z) : M LuaVar :=
  fun w => match vars w !! a with
           | Some v => Done v w
           | None => Crash DanglingPointer
           end.

Definition store (a : Z) (v : LuaVar) : M unit :=
  fun w => Done tt (set_vars (<[a := v]> (vars w)) w).

(** LuaVar& operator= (const LuaVar& right) *)
Definition assign_copy (this right : Z) : M unit :=
  if decide (right = this) then ret tt
  else
    do t <- load this;
    do r <- load right;
    do t' <- Copy t r;
    store this t'.

(** LuaVar& operator= (LuaVar&& right) *)
Definition assign_move (this right : Z) : M unit :=
  if decide (right = this) then ret tt
  else
    do t <- load this;
    do r <- load right;
    do tr <- Move t r;
    run store this (fst tr);
    store right (snd tr).

(** Move-assignment from a temporary, which is never [*this]: the moved-from
    temporary is nil and its destructor does nothing. *)
Definition assign_temporary (this tmp : LuaVar) : M LuaVar :=
  do tr <- Move this tmp;
  run LuaVar_dtor (snd tr);
  ret (fst tr).

(* ================================================================= *)
(** ** StackHelpers: the marshalling layer *)

(** The four function templates, specialised per native type.  [pState] is
    the LuaState* argument. *)
Record Marshal (A : Type) := mkMarshal {
  Push : option Z -> A -> M unit;
  Is : option Z -> Z -> M bool;
  Get : option Z -> Z -> M A;
  GetDefault : M A;
}.
Arguments Push {A} _ _ _.
Arguments Is {A} _ _ _.
Arguments Get {A} _ _ _.
Arguments GetDefault {A} _.

Definition assert_state (pState : option Z) : M unit :=
  LUA_ASSERT (negb (is_null pState)).

(** static_cast to an integral type *)
Definition cast_int (t : IntType) (z : Z) : Z :=
  match t with
  | TInt bits true => wrap_signed bits z
  | TInt bits false => wrap_unsigned bits z
  | TLuaUnsigned => wrap_unsigned 64 z
  end.

(** static_cast of a lua_Number to a floating-point type *)
Definition cast_float (t : FloatType) (n : lua_Number) : spec_float :=
  match t, n with
  | TFloat32, S754_finite s m e =>
      binary_normalize 24 128 (if s then Z.neg m else Z.pos m) e s
  | _, _ => n
  end.

(** [num - std::floor (num) == 0] *)
Definition float_is_integral (n : lua_Number) : bool :=
  match n with
  | S754_zero _ => true
  | S754_finite _ m e => (0 <=? e) || ((Z.pos m) mod 2 ^ (- e) =? 0)
  | _ => false
  end.

Definition for_bool : Marshal bool := {|
  Push p val := run assert_state p; run GetState p; lua_pushboolean val;
  Is p idx := run assert_state p; run GetState p; lua_isboolean idx;
  Get p idx := run assert_state p; run GetState p; lua_toboolean idx;
  GetDefault := ret false;
|}.

Definition for_nullptr : Marshal unit := {|
  Push p _ := run assert_state p; run GetState p; lua_pushnil;
  Is p idx := run assert_state p; run GetState p; lua_isnil idx;
  Get p idx := run assert_state p; ret tt;
  GetDefault := ret tt;
|}.

Definition for_cfunction : Marshal Z := {|
  Push p val := run assert_state p; run GetState p; lua_pushcfunction val;
  Is p idx := run assert_state p; run GetState p; lua_iscfunction idx;
  Get p idx := run assert_state p; run GetState p; lua_tocfunction idx;
  GetDefault := ret 0;
|}.

(** void*: pushed as light userdata, read back from either kind *)
Definition for_userdata : Marshal Z := {|
  Push p val := run assert_state p; run GetState p; lua_pushlightuserdata val;
  Is p idx :=
    run assert_state p; run GetState p;
    do l <- lua_islightuserdata idx;
    if l then ret true else lua_isuserdata idx;
  Get p idx := run assert_state p; run GetState p; lua_touserdata idx;
  GetDefault := ret 0;
|}.

(** LuaVar.  [Push] takes the handle by value: a copy is made for the call
    and destroyed after it. *)
Definition for_LuaVar : Marshal LuaVar := {|
  Push _ val :=
    do c <- LuaVar_copy_ctor val;
    do _ <- PushValueToStack c true;
    LuaVar_dtor c;
  Is _ _ := ret true;
  Get p idx := run GetState p; run lua_pushvalue idx; CreateFromStack p;
  GetDefault := LuaVar_default;
|}.

Section Marshalling.
Context `{LuaRuntime}.

Definition integer_conversion_failed (kind : string) : M unit :=
  do t <- lua_type (-1);
  LUA_ERROR ("Failed to convert value to " +:+ kind +:+ ".  Type is " +:+ lua_typename t).

Definition unsigned_too_large (fn : string) : string :=
  "You've passed in a value to " +:+ fn +:+ " that's greater than the max size allowed by a signed 64-bit int.  Lua doesn't support unsigned 64-bit ints, so you must convert this to a signed int first.  It will be converted back to an unsigned int when passed into C++.".

(** The integral types (BLEACHLUA_CORE_VERSION is 53). *)
Definition for_integer (t : IntType) : Marshal Z := {|
  Push p val := run assert_state p; run GetState p; lua_pushinteger (wrap_signed 64 val);
  Is p idx :=
    match t with
    | TInt _ _ => run assert_state p; run GetState p; lua_isinteger idx
    | TLuaUnsigned =>
        run GetState p;
        do i <- lua_isinteger idx;
        if i then ret true
        else
          do dbg <- BLEACHLUA_DEBUG_MODE;
          run (if dbg then
                 do isnum <- lua_isnumber idx;
                 if isnum then
                   do num <- lua_tonumber idx;
                   if float_is_integral num then LUA_ERROR (unsigned_too_large "Is()")
                   else ret tt
                 else ret tt
               else ret tt);
          ret false
    end;
  Get p idx :=
    run GetState p;
    do r <- lua_tointegerx idx;
    if negb (snd r) then
      match t with
      | TInt _ _ => run integer_conversion_failed "integer"; ret 0
      | TLuaUnsigned =>
          do dbg <- BLEACHLUA_DEBUG_MODE;
          run (if dbg then
                 do isnum <- lua_isnumber idx;
                 if isnum then
                   do num <- lua_tonumber idx;
                   if float_is_integral num then LUA_ERROR (unsigned_too_large "Get()")
                   else ret tt
                 else integer_conversion_failed "uint64_t"
               else ret tt);
          ret 0
      end
    else ret (cast_int t (fst r));
  GetDefault := ret 0;
|}.

Definition for_number (t : FloatType) : Marshal spec_float := {|
  Push p val := run assert_state p; run GetState p; lua_pushnumber val;
  Is p idx := run assert_state p; run GetState p; lua_isnumber idx;
  Get p idx :=
    run assert_state p; run GetState p;
    do n <- lua_tonumber idx; ret (cast_float t n);
  GetDefault := ret (S754_zero false);
|}.

(** const char*: [None] is the null pointer *)
Definition for_string : Marshal (option string) := {|
  Push p val := run assert_state p; run GetState p; lua_pushstring val;
  Is p idx := run assert_state p; run GetState p; lua_isstring idx;
  Get p idx := run assert_state p; run GetState p; lua_tostring idx;
  GetDefault := ret None;
|}.

(** The specialisation chosen for a type of a parameter pack. *)
Definition Get_as (t : CType) (p : option Z) (idx : Z) : M NativeValue :=
  match t with
  | CBool => do b <- Get for_bool p idx; ret (NBool b)
  | CInteger it => do i <- Get (for_integer it) p idx; ret (NInt it i)
  | CNumber ft => do n <- Get (for_number ft) p idx; ret (NNumber ft n)
  | CString => do s <- Get for_string p idx; ret (NString s)
  | CNullptr => run Get for_nullptr p idx; ret NNullptr
  | CFunction => do f <- Get for_cfunction p idx; ret (NFunction f)
  | CUserData => do u <- Get for_userdata p idx; ret (NPointer u)
  | CLuaVar => do v <- Get for_LuaVar p idx; ret (NVar v)
  end.

Definition GetDefault_as (t : CType) : M NativeValue :=
  match t with
  | CBool => do b <- GetDefault for_bool; ret (NBool b)
  | CInteger it => do i <- GetDefault (for_integer it); ret (NInt it i)
  | CNumber ft => do n <- GetDefault (for_number ft); ret (NNumber ft n)
  | CString => do s <- GetDefault for_string; ret (NString s)
  | CNullptr => run GetDefault for_nullptr; ret NNullptr
  | CFunction => do f <- GetDefault for_cfunction; ret (NFunction f)
  | CUserData => do u <- GetDefault for_userdata; ret (NPointer u)
  | CLuaVar => do v <- GetDefault for_LuaVar; ret (NVar v)
  end.

Definition Push_as (p : option Z) (val : NativeValue) : M unit :=
  match val with
  | NBool b => Push for_bool p b
  | NInt it i => Push (for_integer it) p i
  | NNumber ft n => Push (for_number ft) p n
  | NString s => Push for_string p s
  | NNullptr => Push for_nullptr p tt
  | NFunction f => Push for_cfunction p f
  | NPointer u => Push for_userdata p u
  | NVar v => Push for_LuaVar p v
  end.

End Marshalling.

(* ================================================================= *)
(** ** LuaVar: reading, writing and testing the value *)

(** DoLuaAction: [func] runs with the value on top of the stack; [zero] is
    the value-initialised result returned when nothing was pushed. *)
Definition DoLuaAction {A} (func : M A) (zero : M A) (allowNil : bool) (v : LuaVar) : M A :=
  run assert_state (m_pState v);
  do pushed <- PushValueToStack v allowNil;
  if negb pushed then zero
  else
    do r <- func;
    run GetState (m_pState v);
    run lua_pop 1;
    ret r.

Definition IsFunction (v : LuaVar) : M bool :=
  DoLuaAction (run GetState (m_pState v); lua_isfunction (-1)) (ret false) false v.

Definition IsCFunction (v : LuaVar) : M bool :=
  DoLuaAction (run GetState (m_pState v); lua_iscfunction (-1)) (ret false) false v.

Definition IsTable (v : LuaVar) : M bool :=
  DoLuaAction (run GetState (m_pState v); lua_istable (-1)) (ret false) false v.

Definition GetTypeName (v : LuaVar) : M (option string) :=
  DoLuaAction (run GetState (m_pState v);
               do t <- lua_type (-1); ret (Some (lua_typename t)))
              (ret None) true v.

(** luastl::string result = GetTypeName () *)
Definition GetTypeNameStr (v : LuaVar) : M string :=
  do s <- GetTypeName v;
  match s with
  | Some s => ret s
  | None => crash NullDereference
  end.

(** GetValue<Type>: [Type{}] is the same value as GetDefault<Type> () for
    every marshalled type. *)
Definition GetValue {A} (T : Marshal A) (v : LuaVar) : M A :=
  run assert_state (m_pState v);
  run LUA_ASSERT (negb (m_reference v =? LUA_REFNIL));
  DoLuaAction (Get T (m_pState v) (-1)) (GetDefault T) false v.

(** SetValue<Type>: the updated handle *)
Definition SetValue {A} (T : Marshal A) (value : A) (v : LuaVar) : M LuaVar :=
  run assert_state (m_pState v);
  run Push T (m_pState v) value;
  CreateRegisteryEntryFromStack v.

(** SetValue<nullptr_t> *)
Definition SetNil (v : LuaVar) : M LuaVar := ClearRef v.

Definition SetBool (val : bool) (v : LuaVar) : M LuaVar := SetValue for_bool val v.
Definition SetLightUserData (pVal : Z) (v : LuaVar) : M LuaVar := SetValue for_userdata pVal v.
Definition GetBool (v : LuaVar) : M bool := GetValue for_bool v.
Definition GetLightUserData (v : LuaVar) : M Z := GetValue for_userdata v.
Definition GetUserData (v : LuaVar) : M Z := GetValue for_userdata v.

(** IsType<Type> *)
Definition IsType {A} (T : Marshal A) (v : LuaVar) : M bool :=
  if IsNil v then ret false
  else DoLuaAction (Is T (m_pState v) (-1)) (ret false) false v.

(** GetTableValue<Type> *)
Definition GetTableValue {A} (T : Marshal A) (key : string) (v : LuaVar) : M A :=
  run assert_state (m_pState v);
  do isT <- IsTable v;
  if negb isT then
    do tn <- GetTypeNameStr v;
    run LUA_ERROR ("Trying to get a table value from a var that isn't a table.  Type is " +:+ tn);
    GetDefault T
  else
    do _ <- PushValueToStack v true;
    run GetState (m_pState v);
    run lua_pushstring (Some key);
    run lua_gettable (-2);
    do ok <- Is T (m_pState v) (-1);
    if negb ok then
      run LUA_ERROR ("Trying to get key " +:+ key +:+ " but it's not of the appropriate type.");
      run lua_pop 2;
      GetDefault T
    else
      do result <- Get T (m_pState v) (-1);
      run lua_pop 2;
      ret result.

Definition GetTableVar (key : string) (v : LuaVar) : M LuaVar :=
  GetTableValue for_LuaVar key v.

Definition CreateNewTable (nativeArraySize hashSize : Z) (v : LuaVar) : M LuaVar :=
  run assert_state (m_pState v);
  do v' <- ClearRef v;
  run GetState (m_pState v');
  run lua_createtable nativeArraySize hashSize;
  CreateRegisteryEntryFromStack v'.

Definition WrapObjectPtr (pPtr : Z) (v : LuaVar) : M LuaVar :=
  run assert_state (m_pState v);
  run LUA_ASSERT (negb (pPtr =? 0));
  do v' <- ClearRef v;
  run GetState (m_pState v');
  do pUserData <- lua_newuserdata 8;
  run memcpy_block pUserData pPtr;
  CreateRegisteryEntryFromStack v'.

Section TypedAccessors.
Context `{LuaRuntime}.

Definition SetInteger (val : Z) (v : LuaVar) : M LuaVar :=
  SetValue (for_integer (TInt 64 true)) (wrap_signed 64 val) v.
Definition SetNumber (val : spec_float) (v : LuaVar) : M LuaVar :=
  SetValue (for_number TFloat64) val v.
Definition SetString (val : option string) (v : LuaVar) : M LuaVar :=
  SetValue for_string val v.

Definition GetInteger (t : IntType) (v : LuaVar) : M Z :=
  do i <- GetValue (for_integer (TInt 64 true)) v; ret (cast_int t i).
Definition GetNumber (t : FloatType) (v : LuaVar) : M spec_float :=
  do n <- GetValue (for_number TFloat64) v; ret (cast_float t n).
Definition GetString (v : LuaVar) : M (option string) :=
  GetValue for_string v.

End TypedAccessors.

(* ================================================================= *)
(** ** LuaVar: comparison *)

Definition CompareHelper (this right : LuaVar) (op : CompareOp) : M bool :=
  run assert_state (m_pState this);
  do _ <- PushValueToStack this true;
  do _ <- PushValueToStack right true;
  run GetState (m_pState this);
  do result <- lua_compare (-1) (-2) op;
  run lua_pop 2;
  ret (result =? 1).

Definition op_eq (this right : LuaVar) : M bool := CompareHelper this right LUA_OPEQ.
Definition op_ne (this right : LuaVar) : M bool :=
  do r <- CompareHelper this right LUA_OPEQ; ret (negb r).
Definition op_lt (this right : LuaVar) : M bool := CompareHelper this right LUA_OPLT.
Definition op_le (this right : LuaVar) : M bool := CompareHelper this right LUA_OPLE.
Definition op_gt (this right : LuaVar) : M bool :=
  do r <- CompareHelper this right LUA_OPLE; ret (negb r).
Definition op_ge (this right : LuaVar) : M bool :=
  do r <- CompareHelper this right LUA_OPLT; ret (negb r).

(* ================================================================= *)
(** ** LuaVar::Lookup *)

(** A pointer to the characters of a string, read as a C string: the
    characters in front of the first NUL.  This is what lua_pushstring
    copies from std::string::c_str (), and what a stream writes for the
    pointer lua_tostring returns. *)
Fixpoint c_str (s : string) : string :=
  match s with
  | EmptyString => EmptyString
  | String a s' => if Ascii.eqb a Ascii.zero then EmptyString else String a (c_str s')
  end.

(** std::string::find_first_of (c, pos); [None] is npos *)
Fixpoint find_first_of (c : ascii) (s : string) (pos : nat) : option nat :=
  match s with
  | EmptyString => None
  | String a s' =>
      match pos with
      | O => if Ascii.eqb a c then Some O else option_map S (find_first_of c s' O)
      | S p => option_map S (find_first_of c s' p)
      end
  end.

(** std::string::substr (pos, count) for pos within the string; a count of
    [None] is npos - pos, which reaches the end of the string *)
Definition substr (s : string) (pos : nat) (count : option nat) : string :=
  match count with
  | Some n => String.substring pos n s
  | None => String.substring pos (String.length s) s
  end.

(** The while loop of Lookup: the pieces emplaced so far and [start]. *)
Fixpoint split_loop (fuel : nat) (path : string) (start : nat) (end_ : option nat)
    (splitPath : list string) : list string * nat :=
  match end_, fuel with
  | Some e, S fuel' =>
      split_loop fuel' path (e + 1)%nat (find_first_of "." path (e + 1)%nat)
                 (splitPath ++ [substr path start (Some (e - start)%nat)])
  | _, _ => (splitPath, start)
  end.

(** The path split as Lookup does it: the loop, then the final piece when it
    is not empty.  Every round of the loop moves [start] past one more
    character, so the length of the path bounds the rounds. *)
Definition split_path (path : string) : list string :=
  let r := split_loop (S (String.length path)) path 0 (find_first_of "." path 0) [] in
  let finalPiece := substr path (snd r) None in
  if decide (finalPiece = "") then fst r else fst r ++ [finalPiece].

Definition not_a_table_in_path (path element tn : string) : string :=
  "Attempting to call Lookup() when one of the elements isn't a table.  Full path is "
  +:+ path +:+ " and element is " +:+ element +:+ ".  Type is " +:+ tn.

(** The for loop of Lookup over splitPath[0 .. size-2], then the final
    GetTableVar; [curr] is destroyed when the function returns.  GetTableVar
    takes each piece as [c_str ()]; the diagnostic is built from the
    pieces themselves. *)
Fixpoint Lookup_walk (path : string) (elements : list string) (final : string)
    (curr : LuaVar) : M LuaVar :=
  match elements with
  | [] =>
      do r <- GetTableVar (c_str final) curr;
      run LuaVar_dtor curr;
      ret r
  | e :: rest =>
      do tmp <- GetTableVar (c_str e) curr;
      do curr' <- assign_temporary curr tmp;
      do isT <- IsTable curr';
      if negb isT then
        do tn <- GetTypeNameStr curr';
        run LUA_ERROR (not_a_table_in_path path e tn);
        do r <- LuaVar_default;
        run LuaVar_dtor curr';
        ret r
      else Lookup_walk path rest final curr'
  end.

Definition Lookup (path : string) (this : LuaVar) : M LuaVar :=
  do isT <- IsTable this;
  if negb isT then
    do tn <- GetTypeNameStr this;
    run LUA_ERROR ("Attempting to call Lookup() on var that isn't a table.  Type is " +:+ tn);
    LuaVar_default
  else
    let splitPath := split_path path in
    match splitPath with
    | [] => run LUA_ERROR ("Empty path in Lookup(): " +:+ path); LuaVar_default
    | [only] => GetTableVar (c_str only) this
    | _ =>
        do curr <- LuaVar_copy_ctor this;
        Lookup_walk path (removelast splitPath) (List.last splitPath "") curr
    end.

(** The splitting the specification describes: split on '.', every empty
    segment dropped. *)
Fixpoint split_on (c : ascii) (s : string) : list string :=
  match s with
  | EmptyString => [EmptyString]
  | String a s' =>
      match split_on c s' with
      | seg :: segs =>
          if Ascii.eqb a c then EmptyString :: seg :: segs else String a seg :: segs
      | [] => []
      end
  end.

Definition nonempty_segments (path : string) : list string :=
  filter (fun s => s <> EmptyString) (split_on "." path).

(** What the code keeps: every segment in front of a '.', and the last
    segment unless it is empty. *)
Definition kept_segments (path : string) : list string :=
  let parts := split_on "." path in
  if decide (List.last parts EmptyString = EmptyString) then removelast parts else parts.

(** A string that holds no NUL. *)
Definition no_NUL (s : string) : Prop := ~ In Ascii.zero (list_ascii_of_string s).

(* ================================================================= *)
(** ** TableIterator *)

Record KeyValuePair := mkPair {
  m_key : LuaVar;
  m_value : LuaVar;
}.

Record TableIterator := mkIter {
  it_pState : option Z;          (* m_pState *)
  m_keyValue : KeyValuePair;
  m_isAtEnd : bool;
}.

(** TableIterator () *)
Definition TableIterator_default : M TableIterator :=
  do k <- LuaVar_default;
  do v <- LuaVar_default;
  ret (mkIter None (mkPair k v) true).

(** KeyValuePair::Clear *)
Definition KeyValuePair_Clear (p : KeyValuePair) : M KeyValuePair :=
  do k <- ClearRef (m_key p);
  do v <- ClearRef (m_value p);
  ret (mkPair k v).

Definition TableIterator_IsValid (it : TableIterator) : bool := negb (m_isAtEnd it).

(** operator!= (left, right): the right operand is ignored *)
Definition TableIterator_ne (left right : TableIterator) : bool := TableIterator_IsValid left.

Definition SetToEnd (it : TableIterator) : M TableIterator :=
  do kv <- KeyValuePair_Clear (m_keyValue it);
  run GetState (it_pState it);
  run lua_pop 1;
  ret (mkIter (it_pState it) kv true).

(** TableIterator::operator++ *)
Definition TableIterator_next (it : TableIterator) : M TableIterator :=
  run assert_state (it_pState it);
  run GetState (it_pState it);
  do more <- lua_next (-2);
  if more =? 0 then SetToEnd it
  else
    run lua_pushvalue (-2);
    do k <- CreateFromStack (it_pState it);
    do key <- assign_temporary (m_key (m_keyValue it)) k;
    do v <- CreateFromStack (it_pState it);
    do value <- assign_temporary (m_value (m_keyValue it)) v;
    ret (mkIter (it_pState it) (mkPair key value) (m_isAtEnd it)).

(** TableIterator::~TableIterator, then the members' destructors in reverse
    order of declaration. *)
Definition TableIterator_dtor (it : TableIterator) : M unit :=
  run (if negb (m_isAtEnd it) then run GetState (it_pState it); lua_pop 2 else ret tt);
  run LuaVar_dtor (m_value (m_keyValue it));
  LuaVar_dtor (m_key (m_keyValue it)).

(** LuaVar::InternalBegin.  The key and value handles are moved into the
    pair and the pair into the iterator; the moved-from locals are nil. *)
Definition InternalBegin (this : LuaVar) : M TableIterator :=
  if negb (IsValid this) then
    run LUA_ERROR "Trying to get an iterator for an invalid variable.";
    TableIterator_default
  else
    do _ <- PushValueToStack this true;
    run GetState (m_pState this);
    do isT <- lua_istable (-1);
    if negb isT then
      run LUA_ERROR "Trying to get an iterator for a variable that isn't a table.";
      run lua_pop 1;
      TableIterator_default
    else
      run lua_pushnil;
      do result <- lua_next (-2);
      if result =? 0 then
        run lua_pop 1;
        TableIterator_default
      else
        run lua_pushvalue (-2);
        do key <- CreateFromStack (m_pState this);
        do value <- CreateFromStack (m_pState this);
        ret (mkIter (m_pState this) (mkPair key value) false).

(** The loop of a range-based for that leaves after [n] more pairs: the
    iterator is advanced while it is valid, then destroyed. *)
Fixpoint advance (n : nat) (it : TableIterator) : M TableIterator :=
  match n with
  | O => ret it
  | S n' =>
      if TableIterator_IsValid it then
        do it' <- TableIterator_next it; advance n' it'
      else ret it
  end.

(* ================================================================= *)
(** ** LuaFunction *)

(** The address of BaseLuaFunction::OnLuaException *)
Definition OnLuaException : Z := 4096.

Definition GetExceptionHandlerStackOffset (numArgs : Z) : Z := - (numArgs + 2).

(** m_functionVar.GetLuaState ()->GetState () *)
Definition CheckFunctionVar (m_functionVar : LuaVar) : M bool :=
  do f <- IsFunction m_functionVar;
  if negb f then run LUA_ERROR "Attempting to call invalid Lua function."; ret false
  else ret true.

Section Callable.
Context `{LuaRuntime}.

Fixpoint PushArguments (pState : option Z) (args : list NativeValue) : M unit :=
  match args with
  | [] => ret tt
  | arg :: remainingArgs => run Push_as pState arg; PushArguments pState remainingArgs
  end.

(** LUA_ERROR (lua_tostring (pState, -1)): the stream is given a pointer
    to char, so it writes the characters in front of the first NUL. *)
Definition report_top : M unit :=
  do msg <- lua_tostring (-1);
  LUA_ERROR (c_str (default "" msg)).

(** RetType LuaFunction<RetType>::operator() (Args... args), one argument
    or more.  The StackResetter restores the top on both ways out. *)
Definition LuaFunction_call {A} (R : Marshal A) (m_functionVar : LuaVar)
    (args : list NativeValue) : M A :=
  do ok <- CheckFunctionVar m_functionVar;
  if negb ok then GetDefault R
  else
    run GetState (m_pState m_functionVar);
    do oldTop <- lua_gettop;
    run lua_pushcfunction OnLuaException;
    do _ <- PushValueToStack m_functionVar true;
    run PushArguments (m_pState m_functionVar) args;
    let n := Z.of_nat (length args) in
    do result <- lua_pcall n 1 (GetExceptionHandlerStackOffset n);
    if negb (result =? LUA_OK) then
      run report_top;
      do d <- GetDefault R;
      run lua_settop oldTop;
      ret d
    else
      do r <- Get R (m_pState m_functionVar) (-1);
      run lua_settop oldTop;
      ret r.

(** RetType LuaFunction<RetType>::operator() () *)
Definition LuaFunction_call0 {A} (R : Marshal A) (m_functionVar : LuaVar) : M A :=
  do ok <- CheckFunctionVar m_functionVar;
  if negb ok then Get R (m_pState m_functionVar) (-1)
  else
    run GetState (m_pState m_functionVar);
    do oldTop <- lua_gettop;
    run lua_pushcfunction OnLuaException;
    do _ <- PushValueToStack m_functionVar true;
    do result <- lua_pcall 0 1 (-2);
    if negb (result =? LUA_OK) then
      run report_top;
      do d <- GetDefault R;
      run lua_settop oldTop;
      ret d
    else
      do r <- Get R (m_pState m_functionVar) (-1);
      run lua_settop oldTop;
      ret r.

(** void LuaFunction<void>::operator() (Args... args) *)
Definition LuaFunction_void_call (m_functionVar : LuaVar) (args : list NativeValue) : M unit :=
  do ok <- CheckFunctionVar m_functionVar;
  if negb ok then ret tt
  else
    run GetState (m_pState m_functionVar);
    do oldTop <- lua_gettop;
    run lua_pushcfunction OnLuaException;
    do _ <- PushValueToStack m_functionVar true;
    run PushArguments (m_pState m_functionVar) args;
    let n := Z.of_nat (length args) in
    do result <- lua_pcall n 0 (GetExceptionHandlerStackOffset n);
    run (if negb (result =? LUA_OK) then report_top else ret tt);
    lua_settop oldTop.

(** void LuaFunction<void>::operator() () *)
Definition LuaFunction_void_call0 (m_functionVar : LuaVar) : M unit :=
  do ok <- CheckFunctionVar m_functionVar;
  if negb ok then ret tt
  else
    run GetState (m_pState m_functionVar);
    run lua_pushcfunction OnLuaException;
    do _ <- PushValueToStack m_functionVar true;
    do result <- lua_pcall 0 0 (-2);
    run (if negb (result =? LUA_OK) then run report_top; lua_pop 1 else ret tt);
    lua_pop 1.

End Callable.

(* ================================================================= *)
(** ** Native function binding: the trampolines *)

(** The signature of a bound native function: [None] is a void return. *)
Record Signature := mkSig {
  sig_ret : option CType;
  sig_args : list CType;
}.

(** GetCppStateFromCState: the LuaState* stored in the extra space *)
Definition GetCppStateFromCState : M (option Z) :=
  fun w => Done (Some (state_obj w)) w.

(** *pFunc for the buffer lua_touserdata returned *)
Definition read_block (pFuncBuffer : Z) : M Z :=
  do L <- getL;
  match pFuncBuffer with
  | Z.pos u =>
      match blocks L !! u with
      | Some payload => ret payload
      | None => crash DanglingPointer
      end
  | _ => crash NullDereference
  end.

(** The destructors of the LuaVar parameters when the native call returns *)
Fixpoint destroy_arguments (args : list NativeValue) : M unit :=
  match args with
  | [] => ret tt
  | NVar v :: rest => run LuaVar_dtor v; destroy_arguments rest
  | _ :: rest => destroy_arguments rest
  end.

Section Binding.
Context `{LuaRuntime} `{NativeCode}.

(** luastl::apply (pFunc, tuple) *)
Definition luastl_apply (pFunc : Z) (args : list NativeValue) : M NativeValue :=
  fun w => Done (native_apply pFunc args)
                (set_invoked (invoked w ++ [(pFunc, args)]) w).

(** #if BLEACHLUA_DEBUG_MODE: traceback = Debug::GetTraceback (...) *)
Definition debug_traceback : M unit :=
  do dbg <- BLEACHLUA_DEBUG_MODE;
  if dbg then
    do pState <- GetCppStateFromCState;
    run assert_state pState;
    run GetState pState;
    do L <- getL;
    run push (LString (luaL_traceback L));
    do top <- lua_gettop;
    if 0 <? top then do _ <- Get for_string pState (-1); lua_pop 1
    else ret tt
  else ret tt.

(** ProcessArg <kTupleIndex, kParamIndex, TupleType, Arg, Args...>: the
    values stored at tuple positions kTupleIndex, kTupleIndex + 1, ... *)
Fixpoint ProcessArg (pState : option Z) (kTupleIndex kParamIndex : Z) (Args : list CType)
    (numArgs : Z) : M (list NativeValue) :=
  match Args with
  | [] => ret []
  | Arg :: Args' =>
      do v <- (if kTupleIndex <? numArgs then Get_as Arg pState kParamIndex
               else GetDefault_as Arg);
      do vs <- ProcessArg pState (kTupleIndex + 1) (kParamIndex + 1) Args' numArgs;
      ret (v :: vs)
  end.

Definition BuildArguments (pState : option Z) (Args : list CType) : M (list NativeValue) :=
  run GetState pState;
  do top <- lua_gettop;
  do tupleArgs <- ProcessArg pState 0 1 Args top;
  run lua_settop 0;
  ret tupleArgs.

Definition BuildArgumentsWithObj (pState : option Z) (pObj : Z) (Args : list CType)
    : M (list NativeValue) :=
  run GetState pState;
  do top <- lua_gettop;
  do rest <- ProcessArg pState 1 1 Args (top + 1);
  run lua_settop 0;
  ret (NPointer pObj :: rest).

Definition push_result (pCppState : option Z) (sig : Signature) (val : NativeValue) : M Z :=
  match sig_ret sig with
  | None => ret 0
  | Some _ =>
      run Push_as pCppState val;
      run destroy_arguments [val];
      ret 1
  end.

(** Call (pState, pFunc) for a free or static function *)
Definition Call (sig : Signature) (pFunc : Z) : M Z :=
  do pCppState <- GetCppStateFromCState;
  do args <- BuildArguments pCppState (sig_args sig);
  do val <- luastl_apply pFunc args;
  run destroy_arguments args;
  push_result pCppState sig val.

(** Call (pState, pObj, pFunc) for a member function *)
Definition Call_member (sig : Signature) (pObj : Z) (pFunc : Z) : M Z :=
  do pCppState <- GetCppStateFromCState;
  do args <- BuildArgumentsWithObj pCppState pObj (sig_args sig);
  do val <- luastl_apply pFunc args;
  run destroy_arguments args;
  push_result pCppState sig val.

(** CallBoundFunction<Func>: the function pointer is upvalue 1 *)
Definition CallBoundFunction (sig : Signature) : M Z :=
  run debug_traceback;
  do pFunc <- lua_touserdata (lua_upvalueindex 1);
  Call sig pFunc.

(** CallBoundMemberFunction<Obj, Func>: the receiver is resolved from the
    __object field of the first argument *)
Definition CallBoundMemberFunction (sig : Signature) : M Z :=
  run debug_traceback;
  do type <- lua_type 1;
  if negb (type =? LUA_TTABLE) then
    run LUA_ERROR ("No table was passed into bound function.  Type is " +:+ lua_typename type);
    ret 0
  else
    run lua_pushvalue 1;
    run lua_pushstring (Some "__object");
    run lua_rawget (-2);
    do isud <- lua_isuserdata (-1);
    if negb isud then
      do t <- lua_type (-1);
      run LUA_ERROR ("Couldn't find userdata __object on parameter passed in.  Type is "
                     +:+ lua_typename t);
      ret 0
    else
      do pObj <- lua_touserdata (-1);
      run lua_pop 2;
      run lua_remove 1;
      do pFuncBuffer <- lua_touserdata (lua_upvalueindex 1);
      do pFunc <- read_block pFuncBuffer;
      Call_member sig pObj pFunc.

End Binding.

(* ================================================================= *)
(** ** Concrete runtimes and worlds for the examples *)

(** A runtime in which the numeric strings are the decimal integer
    literals and no script function can be run: a protected call fails with
    LUA_ERRRUN and leaves a message in place of the function and its
    arguments. *)
Definition decimal_runtime : LuaRuntime := {|
  luaO_str2num s :=
    match NilZero.int_of_string s with
    | Some d => Some (LInteger (Z.of_int d))
    | None => None
    end;
  luaO_tostring v :=
    match v with
    | LInteger i => NilZero.string_of_int (Z.to_int i)
    | _ => "0.0"
    end;
  luaD_pcall nargs nresults msgh L :=
    (2, set_stack (LString "attempt to call a value" :: drop (Z.to_nat (nargs + 1)) (stack L)) L);
  luaL_traceback _ := "stack traceback:";
|}.

(** Native functions for the examples: 1 is FastSquare (int), 2 is a member
    function that returns nothing. *)
Definition example_natives : NativeCode := {|
  native_apply pFunc args :=
    match pFunc, args with
    | 1, [NInt t i] => NInt t (cast_int t (i * i))
    | _, _ => NNullptr
    end;
|}.

Definition int32 : IntType := TInt 32 true.

Definition the_state : Z := 64.

(** An empty interpreter; [chk] selects the checked build. *)
Definition fresh_world (chk : bool) : World :=
  mkWorld (mkState [] ∅ ∅ ∅ []) the_state (Some the_state) ∅ ∅ [] chk [].

(** One handle at registry slot 1 holding the integer 7, the only reference
    to it (RefCount object at address 10). *)
Definition one_handle_world (chk : bool) : World :=
  mkWorld (mkState [] {[ 1%positive := LInteger 7 ]} ∅ ∅ [])
          the_state (Some the_state) {[ 10 := 1 ]} ∅ [] chk [].

Definition handle_1 : LuaVar := mkVar (Some the_state) (Some 10) 1.

(** Two handles holding the integers 1 and 2. *)
Definition two_numbers_world (chk : bool) : World :=
  mkWorld (mkState [] {[ 1%positive := LInteger 1; 2%positive := LInteger 2 ]} ∅ ∅ [])
          the_state (Some the_state) {[ 10 := 1; 11 := 1 ]} ∅ [] chk [].

Definition handle_a : LuaVar := mkVar (Some the_state) (Some 10) 1.
Definition handle_b : LuaVar := mkVar (Some the_state) (Some 11) 2.

(** The table {a = {b = 42, [""] = {b = 5}}, [""] = 7} behind a handle at
    slot 1; the operand stack holds one unrelated value. *)
Definition nested_tables : gmap Z Table :=
  {[ 0 := [(LString "a", LTable 1); (LString "", LInteger 7)];
     1 := [(LString "b", LInteger 42); (LString "", LTable 2)];
     2 := [(LString "b", LInteger 5)] ]}.

Definition lookup_world (chk : bool) : World :=
  mkWorld (mkState [LBoolean true] {[ 1%positive := LTable 0 ]} nested_tables ∅ [])
          the_state (Some the_state) {[ 10 := 1 ]} ∅ [] chk [].

Definition nil_handle : LuaVar := LuaVar_ctor (Some the_state).

(** A path of one piece with a NUL in it, and a table with the keys "a"
    and that piece behind a handle at slot 1. *)
Definition a_NUL_b : string := String "a" (String Ascii.zero "b").

Definition NUL_key_tables : gmap Z Table :=
  {[ 0 := [(LString "a", LInteger 1); (LString a_NUL_b, LInteger 2)] ]}.

Definition NUL_key_world (chk : bool) : World :=
  mkWorld (mkState [] {[ 1%positive := LTable 0 ]} NUL_key_tables ∅ [])
          the_state (Some the_state) {[ 10 := 1 ]} ∅ [] chk [].

(** The table {a = 1, b = 2, c = 3} behind a handle at slot 1. *)
Definition abc_world (chk : bool) : World :=
  mkWorld (mkState [LBoolean true] {[ 1%positive := LTable 0 ]}
             {[ 0 := [(LString "a", LInteger 1); (LString "b", LInteger 2);
                      (LString "c", LInteger 3)] ]} ∅ [])
          the_state (Some the_state) {[ 10 := 1 ]} ∅ [] chk [].


(** A call frame of a member function bound with a dynamically resolved
    instance: the arguments are a receiver table whose __object field is
    [obj] and the integer 5; upvalue 1 is the block that holds the member
    function pointer (native function 2).  Block 3 is a wrapped object. *)
Definition receiver_world (obj : TValue) (chk : bool) : World :=
  mkWorld (mkState [LInteger 5; LTable 0] ∅
             {[ 0 := [(LString "__object", obj)] ]}
             {[ 1%positive := 2; 3%positive := 777 ]} [LUserData 1])
          the_state (Some the_state) ∅ ∅ [] chk [].

(* ================================================================= *)
(** ** Notions used in the statements *)

(** The world with one more value on the operand stack. *)
Definition pushed (v : TValue) (w : World) : World :=
  set_lua (set_stack (v :: stack (lua w)) (lua w)) w.

(** The value a handle refers to: what PushValueToStack pushes for it. *)
Definition value_of (w : World) (h : LuaVar) : TValue :=
  match m_reference h with
  | Z.pos k => default LNil (registry (lua w) !! k)
  | _ => LNil
  end.

(** A handle that holds the registry reference [k] to a value other than
    nil, with a RefCount object at [p] that counts [c] owners. *)
Definition live (w : World) (h : LuaVar) (k : positive) (p : Z) (c : Z) (v : TValue) : Prop :=
  h = mkVar (Some (state_obj w)) (Some p) (Z.pos k) /\
  registry (lua w) !! k = Some v /\
  heap w !! p = Some c /\ 0 < c < 2 ^ 64 - 1.

(** lua_toboolean: everything but nil and false is true. *)
Definition truthy (v : TValue) : bool :=
  match v with
  | LNil | LBoolean false => false
  | _ => true
  end.

(** What an operation on handles leaves alone. *)
Definition frame (w w' : World) : Prop :=
  tables (lua w') = tables (lua w) /\ blocks (lua w') = blocks (lua w) /\
  upvalues (lua w') = upvalues (lua w) /\ state_obj w' = state_obj w /\
  s_pDefaultLuaState w' = s_pDefaultLuaState w /\ vars w' = vars w /\
  checked w' = checked w /\ invoked w' = invoked w.

(** A handle ClearRef can release: it is nil, or it points to the live
    state and to an allocated RefCount object whose count is positive. *)
Definition handle_ok (w : World) (h : LuaVar) : Prop :=
  m_reference h = LUA_REFNIL \/
  exists p c, m_pState h = Some (state_obj w) /\ m_pRefCount h = Some p /\
              heap w !! p = Some c /\ 0 < c < 2 ^ 64.

(** Two handles that do not share a RefCount object. *)
Definition independent (h1 h2 : LuaVar) : Prop :=
  m_reference h1 = LUA_REFNIL \/ m_reference h2 = LUA_REFNIL \/
  m_pRefCount h1 <> m_pRefCount h2.

(** The effect of CreateFromStack when [x] was on top: the handle [h] refers
    to [x] through a reference and a RefCount object that were not in use,
    and nothing that was in the registry or the heap changed. *)
Definition created (w w' : World) (h : LuaVar) (x : TValue) : Prop :=
  m_pState h = Some (state_obj w) /\ value_of w' h = x /\
  (forall q c, heap w !! q = Some c -> heap w' !! q = Some c) /\
  (forall j v, registry (lua w) !! j = Some v -> registry (lua w') !! j = Some v) /\
  ((x = LNil /\ m_reference h = LUA_REFNIL /\ m_pRefCount h = None) \/
   (x <> LNil /\ exists j q,
       m_reference h = Z.pos j /\ m_pRefCount h = Some q /\
       heap w !! q = None /\ heap w' !! q = Some 1 /\
       registry (lua w) !! j = None /\ registry (lua w') !! j = Some x)).

(** The effect of ClearRef on [h]: only its RefCount object and its
    registry slot can have changed. *)
Definition released (w w' : World) (h : LuaVar) : Prop :=
  stack (lua w') = stack (lua w) /\ frame w w' /\ cerr w' = cerr w /\
  (forall q, m_pRefCount h <> Some q -> heap w' !! q = heap w !! q) /\
  (forall j, m_reference h <> Z.pos j ->
             registry (lua w') !! j = registry (lua w) !! j) /\
  (m_reference h = LUA_REFNIL -> w' = w).

(** A handle that holds the value [v]: a nil handle holds nil, any other
    handle holds what its registry slot has, with a RefCount object that
    counts its owners. *)
Definition holds (w : World) (h : LuaVar) (v : TValue) : Prop :=
  m_pState h = Some (state_obj w) /\
  match m_reference h with
  | Z.pos k =>
      registry (lua w) !! k = Some v /\
      exists p c, m_pRefCount h = Some p /\ heap w !! p = Some c /\ 0 < c < 2 ^ 64 - 1
  | _ => m_reference h = LUA_REFNIL /\ v = LNil
  end.

(** A value that is not a table, or is a table of the state. *)
Definition allocated (tabs : gmap Z Table) (v : TValue) : bool :=
  match v with
  | LTable t => match tabs !! t with Some _ => true | None => false end
  | _ => true
  end.

(** Every table a table of the state refers to is itself in the state. *)
Definition tables_closed (tabs : gmap Z Table) : Prop :=
  map_Forall (fun _ tbl => forallb (fun kv => allocated tabs (snd kv)) tbl = true) tabs.

(** The value the keys [segs] lead to from [v], each key indexing the
    table the previous one gave; [None] when a value that has to be
    indexed is not a table. *)
Fixpoint walk (tabs : gmap Z Table) (v : TValue) (segs : list string) : option TValue :=
  match segs with
  | [] => Some v
  | s :: rest =>
      match v with
      | LTable t =>
          match tabs !! t with
          | Some tbl => walk tabs (luaH_get tbl (LString s)) rest
          | None => None
          end
      | _ => None
      end
  end.

(** The same for the segments of a path, of which there must be one. *)
Definition resolve (tabs : gmap Z Table) (v : TValue) (segs : list string) : option TValue :=
  match segs with
  | [] => None
  | _ => walk tabs v segs
  end.

(** The value at the stack index [i + 1] of the running frame, counted from
    the bottom. *)
Definition slot (w : World) (i : nat) : option TValue :=
  nth_error (rev (stack (lua w))) i.

(** Nothing is taken out of the heap or of the registry. *)
Definition grows (w w' : World) : Prop :=
  (forall q c, heap w !! q = Some c -> heap w' !! q = Some c) /\
  (forall j x, registry (lua w) !! j = Some x -> registry (lua w') !! j = Some x).

(** A handle made on the way from [w] to [w']: it is nil, or its RefCount
    object was not allocated in [w] and counts one owner in [w']. *)
Definition fresh_handle (w w' : World) (h : LuaVar) : Prop :=
  m_reference h = LUA_REFNIL \/
  exists q, m_pState h = Some (state_obj w) /\ m_pRefCount h = Some q /\
            heap w !! q = None /\ heap w' !! q = Some 1.

(** No two handles among the values share a RefCount object. *)
Fixpoint separate (vs : list NativeValue) : Prop :=
  match vs with
  | [] => True
  | NVar h :: rest => (forall h', In (NVar h') rest -> independent h h') /\ separate rest
  | _ :: rest => separate rest
  end.

(** The pointer CallBoundMemberFunction takes for the instance: the first
    argument is a table of the state whose __object field, read without
    metamethods, is a full or a light userdata, and the pointer is what
    lua_touserdata returns for that field: the pointer a light userdata
    stores, the address of the block of a full userdata.  What the block
    holds is not read. *)
Definition receiver (w : World) : option Z :=
  match slot w 0 with
  | Some (LTable t) =>
      match tables (lua w) !! t with
      | Some tbl =>
          match luaH_get tbl (LString "__object") with
          | LUserData u => Some (Z.pos u)
          | LLightUserData p => Some p
          | _ => None
          end
      | None => None
      end
  | _ => None
  end.

Section Marshalled.
Context `{LuaRuntime}.

(** The native value of type [t] that stands for the Lua value [v]. *)
Definition marshalled (t : CType) (v : TValue) (w : World) (nv : NativeValue) : Prop :=
  match t with
  | CBool => nv = NBool (truthy v)
  | CInteger it =>
      nv = NInt it (match tointeger v with Some i => cast_int it i | None => 0 end)
  | CNumber ft =>
      nv = NNumber ft (cast_float ft (match tonumber v with
                                      | Some n => n
                                      | None => S754_zero false
                                      end))
  | CString =>
      nv = NString (match v with
                    | LString s => Some s
                    | LInteger _ | LFloat _ => Some (luaO_tostring v)
                    | _ => None
                    end)
  | CNullptr => nv = NNullptr
  | CFunction => nv = NFunction (match v with LFunction f true => f | _ => 0 end)
  | CUserData =>
      nv = NPointer (match v with
                     | LUserData u => Z.pos u
                     | LLightUserData p => p
                     | _ => 0
                     end)
  | CLuaVar => exists h, nv = NVar h /\ holds w h v
  end.

End Marshalled.

(** The value a parameter of type [t] gets when no argument was passed for
    it; [dflt] is the default LuaState. *)
Definition default_value (t : CType) (dflt : option Z) : NativeValue :=
  match t with
  | CBool => NBool false
  | CInteger it => NInt it 0
  | CNumber ft => NNumber ft (S754_zero false)
  | CString => NString None
  | CNullptr => NNullptr
  | CFunction => NFunction 0
  | CUserData => NPointer 0
  | CLuaVar => NVar (LuaVar_ctor dflt)
  end.

(** The value on top of the stack; nil when the stack is empty. *)
Definition top_value (L : lua_State) : TValue := default LNil (head (stack L)).


Section ArgumentNotions.
Context `{LuaRuntime}.





End ArgumentNotions.


(** The outcome of a call on a handle that held slot [k] and the RefCount
    object at [p] in [w]: the call returned, the slot and the count are what
    they were, and the handle no longer refers to either. *)
Definition leaks (w : World) (k : positive) (p : Z) (o : Outcome LuaVar) : Prop :=
  exists h' w', o = Done h' w' /\
    registry (lua w') !! k = registry (lua w) !! k /\ heap w' !! p = heap w !! p /\
    m_reference h' <> Z.pos k /\ m_pRefCount h' <> Some p.

(** The keys of a table are stored in normal form. *)
Definition keys_normal (tbl : Table) : Prop :=
  Forall (fun kv => key_norm (fst kv) = fst kv) tbl.

(** The state of an iteration over table [t] that began with [stk0] on the
    operand stack. *)
Definition iterating (stk0 : list TValue) (t : Z) (tbl : Table) (w : World)
    (it : TableIterator) : Prop :=
  if m_isAtEnd it then
    stack (lua w) = stk0 /\
    m_reference (m_key (m_keyValue it)) = LUA_REFNIL /\
    m_reference (m_value (m_keyValue it)) = LUA_REFNIL
  else
    it_pState it = Some (state_obj w) /\ tables (lua w) !! t = Some tbl /\
    (exists kcur, stack (lua w) = kcur :: LTable t :: stk0 /\ In kcur (map fst tbl)) /\
    handle_ok w (m_key (m_keyValue it)) /\ handle_ok w (m_value (m_keyValue it)) /\
    independent (m_key (m_keyValue it)) (m_value (m_keyValue it)).

(* ================================================================= *)
(** ** Tactics *)

(** Unfolds the monad, the C API and the handle operations, and computes
    what is closed; maps and symbolic integers stay folded. *)
Ltac exec :=
  cbv beta iota zeta delta
    [ bind ret crash getL putL push LUA_ERROR LUA_ASSERT BLEACHLUA_DEBUG_MODE GetState
      assert_state is_null negb andb orb fst snd
      lua set_lua set_stack set_registry set_tables set_blocks set_heap set_vars
      set_cerr set_invoked
      stack registry tables blocks upvalues state_obj s_pDefaultLuaState heap vars
      cerr checked invoked m_pState m_pRefCount m_reference
      lua_gettop lua_settop lua_pop drop_exact set_slot
      lua_pushnil lua_pushboolean lua_pushinteger lua_pushnumber lua_pushlightuserdata
      lua_pushcfunction lua_pushstring value_at index2addr lua_type
      lua_isfunction lua_istable lua_islightuserdata lua_isnil lua_isboolean
      lua_iscfunction lua_isinteger lua_isuserdata lua_isstring lua_toboolean
      lua_touserdata lua_tocfunction lua_pushvalue lua_rawgeti_registry luaL_ref
      luaL_unref lua_createtable lua_newuserdata memcpy_block lua_gettable lua_rawget
      lua_next lua_remove lua_compare
      RefCount_new RefCount_delete read_count write_count deref Increment Decrement
      LuaVar_ctor LuaVar_default IsNil IsValid ClearRef LuaVar_dtor
      CreateRegisteryEntryFromStack CreateFromStack PushValueToStack Copy Move
      LuaVar_copy_ctor assign_temporary
      Push Is Get GetDefault for_bool for_LuaVar for_userdata for_nullptr for_cfunction
      DoLuaAction IsFunction IsCFunction IsTable GetTypeName GetTypeNameStr GetValue
      SetValue SetNil SetBool SetLightUserData GetBool GetLightUserData GetUserData
      GetTableValue GetTableVar CompareHelper
      for_integer for_number for_string lua_tointegerx lua_tonumberx lua_tonumber
      lua_isnumber lua_tostring lua_pcall integer_conversion_failed set_index
      SetInteger SetNumber SetString GetInteger GetNumber GetString
      it_pState m_keyValue m_isAtEnd m_key m_value
      LUA_REFNIL LUA_REGISTRYINDEX lua_upvalueindex
      nth_error default from_option id option_map ].

(** The same for the monad and the C API alone: the operations on handles
    stay folded, to be rewritten with their specifications. *)
Ltac exec_api :=
  cbv beta iota zeta delta
    [ bind ret crash getL putL push LUA_ERROR LUA_ASSERT BLEACHLUA_DEBUG_MODE GetState
      assert_state is_null negb andb orb fst snd
      lua set_lua set_stack set_registry set_tables set_blocks set_heap set_vars
      set_cerr set_invoked
      stack registry tables blocks upvalues state_obj s_pDefaultLuaState heap vars
      cerr checked invoked m_pState m_pRefCount m_reference
      lua_gettop lua_settop lua_pop drop_exact set_slot
      lua_pushnil lua_pushboolean lua_pushinteger lua_pushnumber lua_pushlightuserdata
      lua_pushcfunction lua_pushstring value_at index2addr lua_type
      lua_isfunction lua_istable lua_islightuserdata lua_isnil lua_isboolean
      lua_iscfunction lua_isinteger lua_isuserdata lua_isstring lua_toboolean
      lua_touserdata lua_tocfunction lua_pushvalue lua_rawgeti_registry
      lua_createtable lua_newuserdata memcpy_block lua_gettable lua_rawget
      lua_next lua_remove lua_compare
      LuaVar_ctor LuaVar_default IsNil IsValid PushValueToStack
      Push Is Get GetDefault for_LuaVar GetTableValue GetTableVar
      it_pState m_keyValue m_isAtEnd m_key m_value TableIterator_default
      LUA_REFNIL LUA_REGISTRYINDEX lua_upvalueindex
      nth_error default from_option id option_map ].

(** Succeeds on a term without variables. *)
Ltac has_var t := match t with context [?x] => is_var x end.
Ltac closed_term t := tryif has_var t then fail else idtac.

(** Computes the integer comparisons and conversions whose operands are
    closed; a conversion to a large unary number, which only a branch that
    is not taken can ask for, is left alone. *)
Ltac close_arith :=
  repeat match goal with
  | |- context [Z.eqb ?a ?b] =>
      closed_term a; closed_term b;
      let r := eval vm_compute in (Z.eqb a b) in change (Z.eqb a b) with r
  | |- context [Z.ltb ?a ?b] =>
      closed_term a; closed_term b;
      let r := eval vm_compute in (Z.ltb a b) in change (Z.ltb a b) with r
  | |- context [Z.leb ?a ?b] =>
      closed_term a; closed_term b;
      let r := eval vm_compute in (Z.leb a b) in change (Z.leb a b) with r
  | |- context [Z.to_nat ?a] =>
      closed_term a;
      let small := eval vm_compute in (Z.ltb a 4096) in
      match small with
      | true => let r := eval vm_compute in (Z.to_nat a) in change (Z.to_nat a) with r
      end
  | |- context [Z.eqb (Z.pos ?k) (Z.neg ?j)] =>
      change (Z.eqb (Z.pos k) (Z.neg j)) with false
  end.

(** Folds the list functions [exec] has unfolded on a list that is not a
    constructor. *)
Ltac refold_nth :=
  let t := eval cbv beta delta [nth_error] in (@nth_error TValue) in
  change t with (@nth_error TValue).
Ltac refold_set_slot :=
  let t := eval cbv beta delta [set_slot] in set_slot in
  change t with set_slot.

Ltac step := exec; rewrite ?Z.eqb_refl; close_arith.
Ltac steps := repeat (progress step).
Ltac step_api := exec_api; rewrite ?Z.eqb_refl; close_arith.

Ltac open_world w :=
  destruct w as [[?stk ?reg ?tabs ?blk ?upv] ?so ?dflt ?hp ?vs ?ce ?chk ?inv];
  cbn [lua stack registry tables blocks upvalues state_obj s_pDefaultLuaState heap
       vars cerr checked invoked] in *.

Ltac world_fields :=
  cbn [lua stack registry tables blocks upvalues state_obj s_pDefaultLuaState heap
       vars cerr checked invoked] in *.

(** Replaces the world [w'] an operation on handles returned by its
    components, using what the operation left alone. *)
Ltac settle w' Hs F Hc :=
  open_world w';
  destruct F as (? & ? & ? & ? & ? & ? & ? & ?);
  world_fields; subst.

(** Runs the CreateFromStack the goal has reached; [spec] is the lemma
    that says what it returns. *)
Ltac use_create spec :=
  match goal with
  | |- context [CreateFromStack (Some ?so) ?W] =>
      let h := fresh "h" in let w' := fresh "w" in let E := fresh "E" in
      let Hs := fresh "Hs" in let F := fresh "F" in let Hc := fresh "Hc" in
      let Cr := fresh "Cr" in
      destruct (spec W _ _ eq_refl) as (h & w' & E & Hs & F & Hc & Cr);
      world_fields; rewrite E; clear E; settle w' Hs F Hc
  end.

(** Uses the specification of an operation that releases a handle. *)
Ltac settle_released w' R :=
  let R' := fresh in
  pose proof R as R';
  destruct R' as (? & (? & ? & ? & ? & ? & ? & ? & ?) & ? & _ & _ & _);
  open_world w'; world_fields; subst.

(** Runs a Get on the stack slot [Hslot] speaks of. *)
Ltac run_get Hpos Hidx Hslot :=
  repeat (progress (step; refold_nth; rewrite ?Hpos, ?Hidx, ?Hslot)).

(** Splits what the specification of a Get says about the world it
    returns. *)
Ltac done_get :=
  cbn [lua stack registry tables blocks upvalues state_obj s_pDefaultLuaState heap
       vars cerr checked invoked];
  refine (conj _ (conj _ (conj _ (conj _ (conj _ (conj _ _))))));
  [ try reflexivity | try (intros; reflexivity) | try (repeat split; fail)
  | try (split; cbn; intros; assumption) | try (intros; reflexivity)
  | try (intros ? ?; discriminate) | ].


(* ================================================================= *)
(** ** Writing table fields *)

(** luaH_set and luaH_newkey on a key in normal form.  Storing nil takes the
    entry out of what luaH_get and luaH_next see; an existing key keeps its
    place; a new key goes to the end of the traversal order, which the
    runtime leaves unspecified. *)
Fixpoint luaH_set (t : Table) (k v : TValue) : Table :=
  match t with
  | [] => match v with LNil => [] | _ => [(k, v)] end
  | (k', v') :: rest =>
      if decide (k' = k) then
        match v with LNil => rest | _ => (k', v) :: rest end
      else (k', v') :: luaH_set rest k v
  end.

Definition is_nan (n : lua_Number) : bool :=
  match n with S754_nan => true | _ => false end.

(** lua_settable: t[k] = v for the value [v] on top and the key [k] below
    it, both popped.  Without metatables a value that is not a table cannot
    be indexed; a nil or NaN key raises an error. *)
Definition lua_settable (idx : Z) : M unit :=
  do o <- value_at idx;
  do L <- getL;
  match o, stack L with
  | Some (LTable t), v :: k :: s =>
      match tables L !! t with
      | Some tbl =>
          match k with
          | LNil => crash (LuaPanic "table index is nil")
          | _ =>
              if match k with LFloat n => is_nan n | _ => false end
              then crash (LuaPanic "table index is NaN")
              else putL (set_tables (<[t := luaH_set tbl (key_norm k) v]> (tables L))
                                    (set_stack s L))
          end
      | None => crash DanglingPointer
      end
  | Some x, _ :: _ :: _ =>
      crash (LuaPanic ("attempt to index a " +:+ lua_typename (ttype x) +:+ " value"))
  | _, _ => crash InvalidIndex
  end.

(** SetTableValue<Type> *)
Definition SetTableValue {A} (T : Marshal A) (key : string) (value : A) (v : LuaVar) : M unit :=
  run assert_state (m_pState v);
  do isT <- IsTable v;
  if negb isT then
    do tn <- GetTypeNameStr v;
    LUA_ERROR ("Trying to set a table value on a var that isn't a table.  Type is " +:+ tn)
  else
    do _ <- PushValueToStack v true;
    run GetState (m_pState v);
    run lua_pushstring (Some key);
    run Push T (m_pState v) value;
    run lua_settable (-3);
    lua_pop 1.

(** SetTableValue<LuaVar> called with an lvalue: the by-value parameter is a
    copy, destroyed when the call returns. *)
Definition SetTableVar (key : string) (val : LuaVar) (v : LuaVar) : M unit :=
  do value <- LuaVar_copy_ctor val;
  run SetTableValue for_LuaVar key value v;
  LuaVar_dtor value.

(** LuaVar (LuaVar&& right) : LuaVar (): the new object and what is left of
    [right] *)
Definition LuaVar_move_ctor (right : LuaVar) : M (LuaVar * LuaVar) :=
  do this <- LuaVar_default; Move this right.

(** SetTableVar (key, LuaVar&& val): the parameter is move-constructed from
    [val]; the result is what is left of [val]. *)
Definition SetTableVar_move (key : string) (val : LuaVar) (v : LuaVar) : M LuaVar :=
  do tr <- LuaVar_move_ctor val;
  run SetTableValue for_LuaVar key (fst tr) v;
  run LuaVar_dtor (fst tr);
  ret (snd tr).

Definition SetTableNil (key : string) (v : LuaVar) : M unit :=
  SetTableValue for_nullptr key tt v.
Definition SetTableBool (key : string) (val : bool) (v : LuaVar) : M unit :=
  SetTableValue for_bool key val v.
Definition SetTableLightUserData (key : string) (pVal : Z) (v : LuaVar) : M unit :=
  SetTableValue for_userdata key pVal v.

Definition GetTableBool (key : string) (v : LuaVar) : M bool :=
  GetTableValue for_bool key v.
Definition GetTableLightUserData (key : string) (v : LuaVar) : M Z :=
  GetTableValue for_userdata key v.
Definition GetTableUserData (key : string) (v : LuaVar) : M Z :=
  GetTableValue for_userdata key v.

(** LuaVar::SetNewTable *)
Definition SetNewTable (key : string) (nativeArraySize hashSize : Z) (v : LuaVar) : M LuaVar :=
  run assert_state (m_pState v);
  do table <- CreateNewTable nativeArraySize hashSize (LuaVar_ctor (m_pState v));
  run SetTableVar key table v;
  ret table.

(** LuaVar::SetNewTableNoReturn: the returned handle is a local *)
Definition SetNewTableNoReturn (key : string) (nativeArraySize hashSize : Z) (v : LuaVar)
    : M unit :=
  do newTable <- SetNewTable key nativeArraySize hashSize v;
  LuaVar_dtor newTable.

(** LuaVar::GetOrCreateNewTable; the local [table] is destroyed on the ways
    out that do not return it. *)
Definition GetOrCreateNewTable (key : string) (nativeArraySize hashSize : Z) (v : LuaVar)
    : M LuaVar :=
  do table <- GetTableVar key v;
  do isT <- IsTable table;
  if isT then ret table
  else if IsNil table then
    do r <- SetNewTable key nativeArraySize hashSize v;
    run LuaVar_dtor table;
    ret r
  else
    do tn <- GetTypeNameStr table;
    run LUA_ERROR ("Found something at key " +:+ key +:+ " but it wasn't a table.  Type is "
                   +:+ tn);
    do r <- LuaVar_default;
    run LuaVar_dtor table;
    ret r.

Section TypedTableAccessors.
Context `{LuaRuntime}.

Definition SetTableInteger (key : string) (val : Z) (v : LuaVar) : M unit :=
  SetTableValue (for_integer (TInt 64 true)) key (wrap_signed 64 val) v.
Definition SetTableNumber (key : string) (val : spec_float) (v : LuaVar) : M unit :=
  SetTableValue (for_number TFloat64) key val v.
Definition SetTableString (key : string) (val : option string) (v : LuaVar) : M unit :=
  SetTableValue for_string key val v.

Definition GetTableInteger (t : IntType) (key : string) (v : LuaVar) : M Z :=
  do i <- GetTableValue (for_integer (TInt 64 true)) key v; ret (cast_int t i).
Definition GetTableNumber (t : FloatType) (key : string) (v : LuaVar) : M spec_float :=
  do n <- GetTableValue (for_number TFloat64) key v; ret (cast_float t n).
Definition GetTableString (key : string) (v : LuaVar) : M (option string) :=
  GetTableValue for_string key v.

(** IsInteger ... IsUserData *)
Definition IsInteger (v : LuaVar) : M bool := IsType (for_integer (TInt 64 true)) v.
Definition IsNumber (v : LuaVar) : M bool := IsType (for_number TFloat64) v.
Definition IsString (v : LuaVar) : M bool := IsType for_string v.
Definition IsBool (v : LuaVar) : M bool := IsType for_bool v.
Definition IsLightUserData (v : LuaVar) : M bool := IsType for_userdata v.
Definition IsUserData (v : LuaVar) : M bool := IsType for_userdata v.

(** SetTableValue with the type deduced from the argument *)
Definition SetTableValue_as (key : string) (val : NativeValue) (v : LuaVar) : M unit :=
  match val with
  | NBool b => SetTableValue for_bool key b v
  | NInt it i => SetTableValue (for_integer it) key i v
  | NNumber ft n => SetTableValue (for_number ft) key n v
  | NString s => SetTableValue for_string key s v
  | NNullptr => SetTableValue for_nullptr key tt v
  | NFunction f => SetTableValue for_cfunction key f v
  | NPointer u => SetTableValue for_userdata key u v
  | NVar h => SetTableVar key h v
  end.

(** FillTable (key1, value1, key2, value2, ...) through FillTableHelper *)
Fixpoint FillTable (args : list (string * NativeValue)) (v : LuaVar) : M unit :=
  match args with
  | [] => ret tt
  | (keyType, valueType) :: rest =>
      run SetTableValue_as keyType valueType v;
      FillTable rest v
  end.

(** GetVarAt (index) for a string, integral or LuaVar index *)
Definition GetVarAt (index : NativeValue) (v : LuaVar) : M LuaVar :=
  DoLuaAction (run Push_as (m_pState v) index;
               run GetState (m_pState v);
               run lua_gettable (-2);
               CreateFromStack (m_pState v))
              LuaVar_default false v.

(** GetAt<RetType> (index); the local [var] is destroyed on return *)
Definition GetAt {A} (T : Marshal A) (index : NativeValue) (v : LuaVar) : M A :=
  do var <- GetVarAt index v;
  do r <- GetValue T var;
  run LuaVar_dtor var;
  ret r.

(** StackHelpers::GetFromStack<Type> *)
Definition GetFromStack {A} (T : Marshal A) (pState : option Z) (showErrorOnUnderrun : bool)
    : M A :=
  run assert_state pState;
  run GetState pState;
  do top <- lua_gettop;
  if 0 <? top then
    do value <- Get T pState (-1);
    run lua_pop 1;
    ret value
  else
    do dbg <- BLEACHLUA_DEBUG_MODE;
    run (if dbg && showErrorOnUnderrun
         then LUA_ERROR "Lua stack underrun: Trying to pop value from empty stack."
         else ret tt);
    GetDefault T.

Definition GetFromStack_as (t : CType) (pState : option Z) (showErrorOnUnderrun : bool)
    : M NativeValue :=
  match t with
  | CBool => do b <- GetFromStack for_bool pState showErrorOnUnderrun; ret (NBool b)
  | CInteger it =>
      do i <- GetFromStack (for_integer it) pState showErrorOnUnderrun; ret (NInt it i)
  | CNumber ft =>
      do n <- GetFromStack (for_number ft) pState showErrorOnUnderrun; ret (NNumber ft n)
  | CString => do s <- GetFromStack for_string pState showErrorOnUnderrun; ret (NString s)
  | CNullptr => run GetFromStack for_nullptr pState showErrorOnUnderrun; ret NNullptr
  | CFunction => do f <- GetFromStack for_cfunction pState showErrorOnUnderrun; ret (NFunction f)
  | CUserData => do u <- GetFromStack for_userdata pState showErrorOnUnderrun; ret (NPointer u)
  | CLuaVar => do v <- GetFromStack for_LuaVar pState showErrorOnUnderrun; ret (NVar v)
  end.

End TypedTableAccessors.

(* ================================================================= *)
(** ** Iteration: moving an iterator, the range-based for loop *)

(** LuaVar::InternalEnd *)
Definition InternalEnd (this : LuaVar) : M TableIterator := TableIterator_default.

(** TableIterator::Move: the new values of [*this] and of [right].  The
    pair is move-assigned member by member. *)
Definition TableIterator_Move (this right : TableIterator) : M (TableIterator * TableIterator) :=
  do k <- Move (m_key (m_keyValue this)) (m_key (m_keyValue right));
  do v <- Move (m_value (m_keyValue this)) (m_value (m_keyValue right));
  ret (mkIter (it_pState right) (mkPair (fst k) (fst v)) (m_isAtEnd right),
       mkIter None (mkPair (snd k) (snd v)) true).

(** TableIterator (TableIterator&& right): the handles of the pair are
    default-constructed, the other two members are not initialised and are
    written by Move before anything reads them. *)
Definition TableIterator_move_ctor (right : TableIterator) : M (TableIterator * TableIterator) :=
  do k <- LuaVar_default;
  do v <- LuaVar_default;
  TableIterator_Move (mkIter None (mkPair k v) true) right.

(** The loop of [for (auto& element : *this) ++count;] once begin () and
    end () are made: [None] when the fuel is used up before the iterator
    reaches the end. *)
Fixpoint count_elements (fuel : nat) (it end_ : TableIterator) (count : Z)
    : M (option (TableIterator * Z)) :=
  match fuel with
  | O => ret None
  | S fuel' =>
      if TableIterator_ne it end_ then
        let count' := wrap_unsigned 64 (count + 1) in
        do it' <- TableIterator_next it;
        count_elements fuel' it' end_ count'
      else ret (Some (it, count))
  end.

(** LuaVar::GetNumElements; the two iterators are destroyed when the loop
    is left, [end] first. *)
Definition GetNumElements (fuel : nat) (this : LuaVar) : M (option Z) :=
  do isT <- IsTable this;
  if negb isT then
    do tn <- GetTypeNameStr this;
    run LUA_ERROR ("Trying to get the number of elements of a non-table.  Type is " +:+ tn);
    ret (Some 0)
  else
    do begin_ <- InternalBegin this;
    do end_ <- InternalEnd this;
    do r <- count_elements fuel begin_ end_ 0;
    match r with
    | None => ret None
    | Some (it, count) =>
        run TableIterator_dtor end_;
        run TableIterator_dtor it;
        ret (Some count)
    end.

(* ================================================================= *)
(** ** Binding: the trampoline of an object and member function pair *)

Section BindingPair.
Context `{LuaRuntime} `{NativeCode}.

(** CallBoundMemberFunctionObjPair<Obj, Func>: the object is upvalue 1, the
    buffer that holds the member function pointer upvalue 2 *)
Definition CallBoundMemberFunctionObjPair (sig : Signature) : M Z :=
  run debug_traceback;
  do pObj <- lua_touserdata (lua_upvalueindex 1);
  do pFuncBuffer <- lua_touserdata (lua_upvalueindex 2);
  do pFunc <- read_block pFuncBuffer;
  Call_member sig pObj pFunc.

End BindingPair.

(* ================================================================= *)
(** ** Further notions used in the statements *)

(** A handle of the live state that is nil with no RefCount object, or owns
    a reference counted by an allocated RefCount object. *)
Definition owner (w : World) (h : LuaVar) : Prop :=
  m_pState h = Some (state_obj w) /\
  ((m_reference h = LUA_REFNIL /\ m_pRefCount h = None) \/
   exists k p c, m_reference h = Z.pos k /\ m_pRefCount h = Some p /\
                 heap w !! p = Some c /\ 0 < c < 2 ^ 64).

(** The widths of the C++ integral types. *)
Definition int_width (t : IntType) : Prop :=
  match t with
  | TInt bits _ => 0 < bits <= 64
  | TLuaUnsigned => True
  end.

Definition underrun : string := "Lua stack underrun: Trying to pop value from empty stack.".

(* ================================================================= *)
(** ** Further tactics *)

(** [steps], with the coercions and the type tags computed as well. *)
Ltac run_live :=
  repeat (progress (step;
                    cbv beta iota delta [tointeger tonumber ttype LUA_TNONE LUA_TNIL
                      LUA_TBOOLEAN LUA_TLIGHTUSERDATA LUA_TNUMBER LUA_TSTRING LUA_TTABLE
                      LUA_TFUNCTION LUA_TUSERDATA];
                    rewrite ?lookup_insert_eq)).

(** The monad and the C API alone: the marshalling layer and the
    operations on handles stay folded. *)
Ltac exec_core :=
  cbv beta iota zeta delta
    [ bind ret crash getL putL push LUA_ERROR LUA_ASSERT BLEACHLUA_DEBUG_MODE GetState
      assert_state is_null negb andb orb fst snd
      lua set_lua set_stack set_registry set_tables set_blocks set_heap set_vars
      set_cerr set_invoked
      stack registry tables blocks upvalues state_obj s_pDefaultLuaState heap vars
      cerr checked invoked m_pState m_pRefCount m_reference
      lua_gettop lua_settop lua_pop drop_exact set_slot
      lua_pushnil lua_pushboolean lua_pushinteger lua_pushnumber lua_pushlightuserdata
      lua_pushcfunction lua_pushstring value_at index2addr lua_type
      lua_isfunction lua_istable lua_islightuserdata lua_isnil lua_isboolean
      lua_iscfunction lua_isinteger lua_isuserdata lua_isstring lua_toboolean
      lua_touserdata lua_tocfunction lua_pushvalue lua_rawgeti_registry
      lua_createtable lua_newuserdata memcpy_block lua_gettable lua_rawget
      lua_next lua_remove lua_compare lua_settable
      LuaVar_ctor LuaVar_default IsNil IsValid PushValueToStack
      it_pState m_keyValue m_isAtEnd m_key m_value TableIterator_default
      LUA_REFNIL LUA_REGISTRYINDEX lua_upvalueindex
      nth_error default from_option id option_map ].

Ltac step_core := exec_core; rewrite ?Z.eqb_refl; close_arith.

(* ================================================================= *)
(** ** Notions for the table operations *)

(** The world in which table [t] has the contents [tbl]. *)
Definition with_table (t : Z) (tbl : Table) (w : World) : World :=
  set_lua (set_tables (<[t := tbl]> (tables (lua w))) (lua w)) w.

(** The world after one more diagnostic. *)
Definition reported (msg : string) (w : World) : World := set_cerr (cerr w ++ [msg]) w.

(** What Push leaves on the stack for a native value that is not a handle. *)
Definition pushed_value (nv : NativeValue) : TValue :=
  match nv with
  | NBool b => LBoolean b
  | NInt _ i => LInteger (wrap_signed 64 i)
  | NNumber _ n => LFloat n
  | NString (Some s) => LString s
  | NString None => LNil
  | NNullptr => LNil
  | NFunction f => LFunction f true
  | NPointer p => LLightUserData p
  | NVar _ => LNil
  end.

(** A native value that is not a handle. *)
Definition plain (nv : NativeValue) : Prop :=
  match nv with NVar _ => False | _ => True end.


(** The contents of a table after the pairs [args] are stored from left to
    right. *)
Definition filled (tbl : Table) (args : list (string * NativeValue)) : Table :=
  fold_left (fun tb kv => luaH_set tb (LString (fst kv)) (pushed_value (snd kv))) args tbl.

(** The index types GetVarAt accepts besides a handle: an integer or a
    string. *)
Definition is_index (nv : NativeValue) : Prop :=
  match nv with NInt _ _ | NString _ => True | _ => False end.

Definition wrong_type (key : string) : string :=
  "Trying to get key " +:+ key +:+ " but it's not of the appropriate type.".

(** The table {a = 1, b = 2, c = 3} behind the handle at slot 1 and the
    integer 7 behind a handle at slot 2. *)
Definition abc_and_seven_world (chk : bool) : World :=
  mkWorld (mkState [] {[ 1%positive := LTable 0; 2%positive := LInteger 7 ]}
             {[ 0 := [(LString "a", LInteger 1); (LString "b", LInteger 2);
                      (LString "c", LInteger 3)] ]} ∅ [])
          the_state (Some the_state) {[ 10 := 1; 11 := 1 ]} ∅ [] chk [].

Definition handle_7 : LuaVar := mkVar (Some the_state) (Some 11) 2.

Definition abc : Table :=
  [(LString "a", LInteger 1); (LString "b", LInteger 2); (LString "c", LInteger 3)].

(* ================================================================= *)
(** ** Notions for the iteration over a table *)

(** The iterator end () makes: no state, two nil handles of the default
    state, at the end. *)
Definition end_iterator (w : World) : TableIterator :=
  mkIter None (mkPair (LuaVar_ctor (s_pDefaultLuaState w)) (LuaVar_ctor (s_pDefaultLuaState w)))
         true.

(** What Move leaves of the iterator moved from. *)
Definition moved_from : TableIterator :=
  mkIter None (mkPair (mkVar None None LUA_REFNIL) (mkVar None None LUA_REFNIL)) true.

(** The world with another operand stack, registry and heap of RefCount
    objects. *)
Definition holding (w : World) (stk : list TValue) (reg : gmap positive TValue)
    (hp : gmap Z Z) : World :=
  set_heap hp (set_lua (set_registry reg (set_stack stk (lua w))) w).

(** The map [m] is [m0] and two more entries, [x] at [a] and [y] at [b]. *)
Definition two_slots `{Countable K} {V} (m0 m : gmap K V) (a b : K) (x y : V) : Prop :=
  a <> b /\ m !! a = Some x /\ m !! b = Some y /\ delete b (delete a m) = m0.

(** An iterator on an entry: its key behind registry slot [jk] and RefCount
    object [qk], its value behind [jv] and [qv]. *)
Definition visiting_iterator (so : Z) (jk jv : positive) (qk qv : Z) : TableIterator :=
  mkIter (Some so)
         (mkPair (mkVar (Some so) (Some qk) (Z.pos jk)) (mkVar (Some so) (Some qv) (Z.pos jv)))
         false.

(** An iterator that ran off the last entry. *)
Definition finished_iterator (so : Z) : TableIterator :=
  mkIter (Some so) (mkPair (mkVar (Some so) None LUA_REFNIL) (mkVar (Some so) None LUA_REFNIL))
         true.

(** A Lua table holds no nil key and no nil value. *)
Definition no_nil (tbl : Table) : Prop :=
  Forall (fun kv => fst kv <> LNil /\ snd kv <> LNil) tbl.

Ltac lookups :=
  repeat first [ rewrite lookup_insert | rewrite lookup_delete | case_decide ];
  try congruence.

Ltac flat_world_in E :=
  cbv beta iota delta [holding set_heap set_lua set_registry set_stack set_tables set_blocks
    lua stack registry tables blocks upvalues state_obj s_pDefaultLuaState heap vars cerr
    checked invoked] in E.

(* ================================================================= *)
(** ** Notions for the calls in both directions *)

(** A call frame of a bound free function: the pointer of native function
    1 is upvalue 1, the argument is the integer 5. *)
Definition free_call_world (chk : bool) : World :=
  mkWorld (mkState [LInteger 5] ∅ ∅ ∅ [LLightUserData 1])
          the_state (Some the_state) ∅ ∅ [] chk [].

(** A call frame of a bound object and member function pair: the object
    pointer is upvalue 1, the block that holds the pointer of native
    function 2 is upvalue 2. *)
Definition pair_call_world (chk : bool) : World :=
  mkWorld (mkState [LInteger 5] ∅ ∅ {[ 1%positive := 2 ]}
             [LLightUserData 777; LUserData 1])
          the_state (Some the_state) ∅ ∅ [] chk [].

(** The Lua state lua_pcall is entered with: the arguments above the
    function above the handler. *)
Definition call_frame (w : World) (fv : TValue) (args : list NativeValue) : lua_State :=
  set_stack (rev (map pushed_value args) ++ fv :: LFunction OnLuaException true
               :: stack (lua w)) (lua w).

(** The string on top of the stack, read as a C string. *)
Definition top_string (L : lua_State) : string :=
  match stack L with LString s :: _ => c_str s | _ => "" end.

Definition not_callable : string := "Attempting to call invalid Lua function.".

(** A handle at slot 1 on a script function; the operand stack holds one
    unrelated value. *)
Definition callback_world (chk : bool) : World :=
  mkWorld (mkState [LBoolean true] {[ 1%positive := LFunction 9 false ]} ∅ ∅ [])
          the_state (Some the_state) {[ 10 := 1 ]} ∅ [] chk [].

Section PcallContract.
Context `{LuaRuntime}.

(** What lua_pcall leaves on the stack: with LUA_OK, [nresults] results in
    place of the function and its arguments; with any other status, one
    error value, the string the message handler made. *)
Definition pcall_leaves (nargs nresults msgh : Z) (L : lua_State) : Prop :=
  let r := luaD_pcall nargs nresults msgh L in
  let below := drop (Z.to_nat nargs + 1) (stack L) in
  if fst r =? LUA_OK then
    exists results, length results = Z.to_nat nresults /\ stack (snd r) = results ++ below
  else exists msg, stack (snd r) = LString msg :: below.

(** A marshalling whose Get reads the value on top of the stack and changes
    nothing, and whose default is [d]. *)
Definition reads_the_top {A} (R : Marshal A) (read : TValue -> A) (d : A) : Prop :=
  (forall W x rest, stack (lua W) = x :: rest ->
     Get R (Some (state_obj W)) (-1) W = Done (read x) W) /\
  (forall W, GetDefault R W = Done d W).


(** The world after a call of status [fst r] that left the state [snd r]:
    the operand stack is the one before the call, and the message is
    reported when the status is not LUA_OK. *)
Definition after_call (w : World) (r : Z * lua_State) : World :=
  set_cerr (cerr w ++ (if fst r =? LUA_OK then [] else [top_string (snd r)]))
           (set_lua (set_stack (stack (lua w)) (snd r)) w).

End PcallContract.

(** A runtime in which every function returns true for each result asked
    for. *)
Definition agreeing_runtime : LuaRuntime := {|
  luaO_str2num := @luaO_str2num decimal_runtime;
  luaO_tostring := @luaO_tostring decimal_runtime;
  luaD_pcall nargs nresults msgh L :=
    (LUA_OK, set_stack (replicate (Z.to_nat nresults) (LBoolean true)
                          ++ drop (Z.to_nat (nargs + 1)) (stack L)) L);
  luaL_traceback := @luaL_traceback decimal_runtime;
|}.
(* ================================================================= *)
(** * Properties *)

(** ** Running the code on a symbolic world *)

Lemma bind_Done {A B} (m : M A) (k : A -> M B) (w w' : World) (a : A) :
  m w = Done a w' -> bind m k w = k a w'.
Proof. intros E. unfold bind. rewrite E. reflexivity. Qed.

Lemma bind_Crash {A B} (m : M A) (k : A -> M B) (w : World) (f : Fault) :
  m w = Crash f -> bind m k w = Crash f.
Proof. intros E. unfold bind. rewrite E. reflexivity. Qed.

Lemma fresh_lookup_None `{Countable K} `{Infinite K} {V} (m : gmap K V) :
  m !! fresh (dom m) = None.
Proof. apply not_elem_of_dom. apply is_fresh. Qed.

Lemma lookup_fresh_ne `{Countable K} `{Infinite K} {V} (m : gmap K V) (j : K) (v : V) :
  m !! j = Some v -> fresh (dom m) <> j.
Proof. intros Hj E. subst j. rewrite fresh_lookup_None in Hj. discriminate. Qed.

Lemma IsTable_live w k rc v :
  registry (lua w) !! k = Some v ->
  IsTable (mkVar (Some (state_obj w)) rc (Z.pos k)) w = Done (ttype v =? LUA_TTABLE) w.
Proof.
  open_world w. intros Hk. repeat (progress (step; rewrite ?Hk)). reflexivity.
Qed.

Lemma IsFunction_live w k rc v :
  registry (lua w) !! k = Some v ->
  IsFunction (mkVar (Some (state_obj w)) rc (Z.pos k)) w = Done (ttype v =? LUA_TFUNCTION) w.
Proof.
  open_world w. intros Hk. repeat (progress (step; rewrite ?Hk)). reflexivity.
Qed.

Lemma IsTable_nil w s rc : IsTable (mkVar (Some s) rc LUA_REFNIL) w = Done false w.
Proof. open_world w. steps. reflexivity. Qed.

Lemma IsFunction_nil w s rc : IsFunction (mkVar (Some s) rc LUA_REFNIL) w = Done false w.
Proof. open_world w. steps. reflexivity. Qed.

Lemma GetTypeNameStr_live w k rc v :
  registry (lua w) !! k = Some v ->
  GetTypeNameStr (mkVar (Some (state_obj w)) rc (Z.pos k)) w
  = Done (lua_typename (ttype v)) w.
Proof.
  open_world w. intros Hk. repeat (progress (step; rewrite ?Hk)). reflexivity.
Qed.

Lemma GetTypeNameStr_nil w rc :
  GetTypeNameStr (mkVar (Some (state_obj w)) rc LUA_REFNIL) w = Done "nil" w.
Proof. open_world w. steps. reflexivity. Qed.

(* ================================================================= *)
(** ** Self-assignment *)

(** C10: for every handle object [a], the copy assignment [a = a] and the
    move assignment [a = move (a)] return at once: the world, and with it
    the handle's state pointer, registry slot, RefCount object and count, is
    left as it was, and nothing is released. *)
Theorem self_assignment_is_a_no_op (a : Z) (w : World) :
  assign_copy a a w = Done tt w /\ assign_move a a w = Done tt w.
Proof.
  unfold assign_copy, assign_move.
  destruct (decide (a = a)) as [_ | Hne]; [ | congruence ].
  split; reflexivity.
Qed.

(** Between two distinct objects the copy assignment releases what the
    left one held and shares what the right one holds. *)
Example copy_assignment_between_objects :
  exists w',
    assign_copy 1 2 (set_vars {[ 1 := handle_a; 2 := handle_b ]} (two_numbers_world true))
    = Done tt w' /\
    vars w' !! 1 = Some handle_b /\ heap w' !! 11 = Some 2 /\ heap w' !! 10 = None /\
    registry (lua w') !! 1%positive = None.
Proof. eexists. split; [ vm_compute; reflexivity | repeat split; reflexivity ]. Qed.

(* ================================================================= *)
(** ** Setting a value on a handle that already holds one *)

Section Setters.
Context `{LuaRuntime}.

(** SetValue pushes the value and calls CreateRegisteryEntryFromStack on
    the handle as it is. *)
Lemma SetValue_on_a_live_handle {A} (T : Marshal A) (val : A) (w : World)
    (k : positive) (p c : Z) (v x : TValue) :
  checked w = false ->
  registry (lua w) !! k = Some v -> heap w !! p = Some c ->
  Push T (Some (state_obj w)) val w = Done tt (pushed x w) ->
  exists h' w',
    SetValue T val (mkVar (Some (state_obj w)) (Some p) (Z.pos k)) w = Done h' w' /\
    stack (lua w') = stack (lua w) /\
    registry (lua w') !! k = Some v /\ heap w' !! p = Some c /\
    ((x = LNil /\ h' = mkVar (Some (state_obj w)) (Some p) LUA_REFNIL /\ w' = w) \/
     (x <> LNil /\ exists j q,
        h' = mkVar (Some (state_obj w)) (Some q) (Z.pos j) /\ j <> k /\ q <> p /\
        registry (lua w') !! j = Some x /\ heap w' !! q = Some 1)).
Proof.
  intros Hchk Hk Hp HPush.
  unfold SetValue, bind, assert_state, LUA_ASSERT. cbn [m_pState is_null negb andb].
  rewrite HPush. clear HPush. unfold pushed. open_world w. subst chk.
  destruct (decide (x = LNil)) as [-> | Hx].
  - eexists; eexists. split; [ steps; reflexivity | ].
    split; [ reflexivity | ]. split; [ exact Hk | ]. split; [ exact Hp | ].
    left. auto.
  - exists (mkVar (Some so) (Some (fresh (dom hp))) (Z.pos (fresh (dom reg)))).
    eexists. split; [ destruct x; try congruence; steps; reflexivity | ].
    cbn. split; [ reflexivity | ].
    split; [ rewrite lookup_insert_ne; [ exact Hk | eapply lookup_fresh_ne; exact Hk ] | ].
    split; [ rewrite lookup_insert_ne; [ exact Hp | eapply lookup_fresh_ne; exact Hp ] | ].
    right. split; [ exact Hx | ]. eexists; eexists. split; [ reflexivity | ].
    split; [ eapply lookup_fresh_ne; exact Hk | ].
    split; [ eapply lookup_fresh_ne; exact Hp | ].
    split; apply lookup_insert_eq.
Qed.

Lemma SetValue_in_the_checked_build {A} (T : Marshal A) (val : A) (w : World)
    (k : positive) (p : Z) (x : TValue) :
  checked w = true ->
  Push T (Some (state_obj w)) val w = Done tt (pushed x w) ->
  SetValue T val (mkVar (Some (state_obj w)) (Some p) (Z.pos k)) w = Crash AssertionFailed.
Proof.
  intros Hchk HPush.
  unfold SetValue, bind, assert_state, LUA_ASSERT. cbn [m_pState is_null negb andb].
  rewrite HPush. unfold pushed. open_world w. subst chk. reflexivity.
Qed.

Lemma Push_bool w b :
  Push for_bool (Some (state_obj w)) b w = Done tt (pushed (LBoolean b) w).
Proof. open_world w. steps. reflexivity. Qed.

Lemma Push_integer w t i :
  Push (for_integer t) (Some (state_obj w)) i w
  = Done tt (pushed (LInteger (wrap_signed 64 i)) w).
Proof. open_world w. steps. reflexivity. Qed.

Lemma Push_number w t n :
  Push (for_number t) (Some (state_obj w)) n w = Done tt (pushed (LFloat n) w).
Proof. open_world w. steps. reflexivity. Qed.

Lemma Push_string w s :
  Push for_string (Some (state_obj w)) s w
  = Done tt (pushed (match s with Some s => LString s | None => LNil end) w).
Proof. open_world w. destruct s; steps; reflexivity. Qed.

Lemma Push_userdata w q :
  Push for_userdata (Some (state_obj w)) q w = Done tt (pushed (LLightUserData q) w).
Proof. open_world w. steps. reflexivity. Qed.

Lemma SetValue_leaks {A} (T : Marshal A) (val : A) (w : World)
    (k : positive) (p c : Z) (v x : TValue) :
  checked w = false ->
  registry (lua w) !! k = Some v -> heap w !! p = Some c ->
  Push T (Some (state_obj w)) val w = Done tt (pushed x w) -> x <> LNil ->
  leaks w k p (SetValue T val (mkVar (Some (state_obj w)) (Some p) (Z.pos k)) w).
Proof.
  intros Hchk Hk Hp HPush Hx.
  destruct (SetValue_on_a_live_handle T val w k p c v x Hchk Hk Hp HPush)
    as (h' & w' & E & _ & Hk' & Hp' & [(Hn & _) | (_ & j & q & -> & Hj & Hq & _)]);
    [ contradiction | ].
  exists (mkVar (Some (state_obj w)) (Some q) (Z.pos j)), w'.
  split; [ exact E | ]. split; [ congruence | ]. split; [ congruence | ].
  cbn. split; congruence.
Qed.

(** C1: SetBool, SetInteger, SetNumber, SetString and SetLightUserData on a
    handle that holds registry slot [k] with the RefCount object at [p].  In
    the unchecked build the call returns; slot [k] and the count at [p] are
    what they were, and the handle now has another slot and another
    RefCount object, so nothing was released.  The checked build stops at
    the assertion of CreateRegisteryEntryFromStack. *)
Theorem SetX_on_a_live_handle_releases_nothing (w : World) (k : positive) (p c : Z)
    (v : TValue) (b : bool) (i : Z) (n : spec_float) (s : string) (q : Z) :
  registry (lua w) !! k = Some v -> heap w !! p = Some c ->
  let h := mkVar (Some (state_obj w)) (Some p) (Z.pos k) in
  (checked w = false ->
   leaks w k p (SetBool b h w) /\ leaks w k p (SetInteger i h w) /\
   leaks w k p (SetNumber n h w) /\ leaks w k p (SetString (Some s) h w) /\
   leaks w k p (SetLightUserData q h w)) /\
  (checked w = true ->
   SetBool b h w = Crash AssertionFailed /\ SetInteger i h w = Crash AssertionFailed /\
   SetNumber n h w = Crash AssertionFailed /\
   SetString (Some s) h w = Crash AssertionFailed /\
   SetLightUserData q h w = Crash AssertionFailed).
Proof.
  intros Hk Hp h. subst h. split; intros Hchk.
  - repeat split.
    + eapply SetValue_leaks; eauto using Push_bool; discriminate.
    + eapply SetValue_leaks; eauto using Push_integer; discriminate.
    + eapply SetValue_leaks; eauto using Push_number; discriminate.
    + eapply (SetValue_leaks for_string (Some s)); eauto using Push_string; discriminate.
    + eapply SetValue_leaks; eauto using Push_userdata; discriminate.
  - repeat split.
    + eapply SetValue_in_the_checked_build; eauto using Push_bool.
    + eapply SetValue_in_the_checked_build; eauto using Push_integer.
    + eapply SetValue_in_the_checked_build; eauto using Push_number.
    + eapply (SetValue_in_the_checked_build for_string (Some s)); eauto using Push_string.
    + eapply SetValue_in_the_checked_build; eauto using Push_userdata.
Qed.

(** C8: SetString with a null pointer on a handle that holds a reference,
    unchecked build: the slot field becomes LUA_REFNIL while the RefCount
    pointer stays, and nothing else changes. *)
Theorem SetString_null_unpairs_the_fields (w : World) (k : positive) (p c : Z)
    (v : TValue) :
  checked w = false ->
  registry (lua w) !! k = Some v -> heap w !! p = Some c ->
  SetString None (mkVar (Some (state_obj w)) (Some p) (Z.pos k)) w
  = Done (mkVar (Some (state_obj w)) (Some p) LUA_REFNIL) w.
Proof.
  intros Hchk Hk Hp.
  destruct (SetValue_on_a_live_handle for_string None w k p c v LNil Hchk Hk Hp
              (Push_string w None))
    as (h' & w' & E & _ & _ & _ & [(_ & -> & ->) | (Hx & _)]); [ exact E | congruence ].
Qed.

End Setters.


(** The theorem on the only handle of registry slot 1 (RefCount object at
    10, count 1). *)
Lemma SetX_on_the_only_handle :
  leaks (one_handle_world false) 1 10 (SetBool true handle_1 (one_handle_world false)) /\
  leaks (one_handle_world false) 1 10
        (@SetInteger decimal_runtime 3 handle_1 (one_handle_world false)) /\
  leaks (one_handle_world false) 1 10
        (@SetString decimal_runtime (Some "s") handle_1 (one_handle_world false)) /\
  SetBool true handle_1 (one_handle_world true) = Crash AssertionFailed.
Proof.
  destruct (@SetX_on_a_live_handle_releases_nothing decimal_runtime (one_handle_world false)
              1%positive 10 1 (LInteger 7) true 3 (S754_zero false) "s" 4242
              eq_refl eq_refl) as [Hu _].
  destruct (@SetX_on_a_live_handle_releases_nothing decimal_runtime (one_handle_world true)
              1%positive 10 1 (LInteger 7) true 3 (S754_zero false) "s" 4242
              eq_refl eq_refl) as [_ Hc].
  destruct (Hu eq_refl) as (H1 & H2 & _ & H4 & _). destruct (Hc eq_refl) as (H6 & _).
  split; [ exact H1 | ]. split; [ exact H2 | ]. split; [ exact H4 | exact H6 ].
Defined.

(** The theorem on the same handle. *)
Lemma SetString_null_on_the_only_handle :
  @SetString decimal_runtime None handle_1 (one_handle_world false)
  = Done (mkVar (Some the_state) (Some 10) LUA_REFNIL) (one_handle_world false).
Proof.
  exact (@SetString_null_unpairs_the_fields decimal_runtime (one_handle_world false)
           1%positive 10 1 (LInteger 7) eq_refl eq_refl eq_refl).
Defined.

(* ================================================================= *)
(** ** Comparison *)

(** lua_compare (L, -1, -2, op) has the right operand at its first index. *)
Lemma CompareHelper_spec (w : World) (ka kb : positive) (rca rcb : option Z)
    (va vb : TValue) (op : CompareOp) (r : bool) :
  registry (lua w) !! ka = Some va -> registry (lua w) !! kb = Some vb ->
  compare_values op vb va = Some r ->
  CompareHelper (mkVar (Some (state_obj w)) rca (Z.pos ka))
                (mkVar (Some (state_obj w)) rcb (Z.pos kb)) op w = Done r w.
Proof.
  open_world w. intros Ha Hb Hr.
  repeat (progress (step; rewrite ?Ha, ?Hb, ?Hr)).
  destruct r; reflexivity.
Qed.

(** C3: for handles [a] and [b] that hold [va] and [vb], the operators
    return what the comparison primitive says of [vb] and [va], the right
    operand first: [a < b] is [vb < va], [a <= b] is [vb <= va], and
    [a > b] and [a >= b] are the negations of those.  Equality is taken of
    [vb] and [va] too. *)
Theorem comparison_takes_the_operands_in_reverse (w : World) (ka kb : positive)
    (rca rcb : option Z) (va vb : TValue) :
  registry (lua w) !! ka = Some va -> registry (lua w) !! kb = Some vb ->
  let a := mkVar (Some (state_obj w)) rca (Z.pos ka) in
  let b := mkVar (Some (state_obj w)) rcb (Z.pos kb) in
  (forall r, compare_values LUA_OPLT vb va = Some r ->
             op_lt a b w = Done r w /\ op_ge a b w = Done (negb r) w) /\
  (forall r, compare_values LUA_OPLE vb va = Some r ->
             op_le a b w = Done r w /\ op_gt a b w = Done (negb r) w) /\
  op_eq a b w = Done (luaV_equalobj vb va) w /\
  op_ne a b w = Done (negb (luaV_equalobj vb va)) w.
Proof.
  intros Ha Hb a b. subst a b.
  split; [ | split; [ | split ] ].
  - intros r Hr. unfold op_lt, op_ge, bind.
    rewrite (CompareHelper_spec w ka kb rca rcb va vb LUA_OPLT r Ha Hb Hr).
    split; reflexivity.
  - intros r Hr. unfold op_le, op_gt, bind.
    rewrite (CompareHelper_spec w ka kb rca rcb va vb LUA_OPLE r Ha Hb Hr).
    split; reflexivity.
  - unfold op_eq. apply (CompareHelper_spec w ka kb rca rcb va vb LUA_OPEQ _ Ha Hb eq_refl).
  - unfold op_ne, bind.
    rewrite (CompareHelper_spec w ka kb rca rcb va vb LUA_OPEQ _ Ha Hb eq_refl).
    reflexivity.
Qed.

(** With [a] holding 1 and [b] holding 2, [a < b] and [a <= b] are false
    and [a > b] and [a >= b] are true, while the primitive applied to (1, 2)
    in that order says 1 < 2 and 1 <= 2. *)
Lemma one_is_not_less_than_two :
  let w := two_numbers_world false in
  op_lt handle_a handle_b w = Done false w /\
  op_le handle_a handle_b w = Done false w /\
  op_gt handle_a handle_b w = Done true w /\
  op_ge handle_a handle_b w = Done true w /\
  compare_values LUA_OPLT (LInteger 1) (LInteger 2) = Some true /\
  compare_values LUA_OPLE (LInteger 1) (LInteger 2) = Some true.
Proof.
  destruct (comparison_takes_the_operands_in_reverse (two_numbers_world false)
              1%positive 2%positive (Some 10) (Some 11) (LInteger 1) (LInteger 2)
              eq_refl eq_refl) as (Hlt & Hle & _).
  destruct (Hlt false eq_refl) as [H1 H2]. destruct (Hle false eq_refl) as [H3 H4].
  cbv zeta. split; [ exact H1 | ]. split; [ exact H3 | ]. split; [ exact H4 | ].
  split; [ exact H2 | ]. split; reflexivity.
Defined.

(* ================================================================= *)
(** ** Calling a handle that is not a function *)

Section NotAFunction.
Context `{LuaRuntime}.

Lemma CheckFunctionVar_not_a_function (w : World) (rc : option Z) (ref : Z) :
  (ref = LUA_REFNIL \/
   exists k v, ref = Z.pos k /\ registry (lua w) !! k = Some v /\ ttype v <> LUA_TFUNCTION) ->
  CheckFunctionVar (mkVar (Some (state_obj w)) rc ref) w
  = Done false (set_cerr (cerr w ++ ["Attempting to call invalid Lua function."]) w).
Proof.
  intros Href. unfold CheckFunctionVar, bind.
  destruct Href as [-> | (k & v & -> & Hk & Hv)].
  - rewrite IsFunction_nil. reflexivity.
  - rewrite (IsFunction_live w k rc v Hk).
    destruct (ttype v =? LUA_TFUNCTION) eqn:E; [ apply Z.eqb_eq in E; contradiction | ].
    reflexivity.
Qed.

(** C2: a LuaFunction<R> around a handle that is nil or holds a value that
    is not a function.  Both calls write the diagnostic.  The call with
    arguments returns GetDefault<R> (); the call without arguments returns
    Get<R> (state), which reads the top of the operand stack: for R = bool
    it returns the truth value of whatever is on top. *)
Theorem call_without_arguments_reads_the_stack {A} (R : Marshal A) (w : World)
    (rc : option Z) (ref : Z) (args : list NativeValue) :
  (ref = LUA_REFNIL \/
   exists k v, ref = Z.pos k /\ registry (lua w) !! k = Some v /\ ttype v <> LUA_TFUNCTION) ->
  let h := mkVar (Some (state_obj w)) rc ref in
  let w' := set_cerr (cerr w ++ ["Attempting to call invalid Lua function."]) w in
  LuaFunction_call0 R h w = Get R (Some (state_obj w)) (-1) w' /\
  LuaFunction_call R h args w = GetDefault R w' /\
  (forall x s, stack (lua w) = x :: s ->
     LuaFunction_call0 for_bool h w = Done (truthy x) w') /\
  LuaFunction_call for_bool h args w = Done false w'.
Proof.
  intros Href h w'. subst h w'.
  pose proof (CheckFunctionVar_not_a_function w rc ref Href) as E.
  unfold LuaFunction_call0, LuaFunction_call, bind. rewrite E. cbn [negb m_pState].
  split; [ reflexivity | ]. split; [ reflexivity | ]. split; [ | reflexivity ].
  intros x s Hs. open_world w. subst stk. steps.
  destruct x as [ | [ | ] | | | | | | | ]; reflexivity.
Qed.

End NotAFunction.

(** A LuaFunction<bool> around a nil handle, with [true] on top of the
    operand stack: the call without arguments returns [true], the call with
    an argument returns the default [false]. *)
Lemma a_call_on_nil_returns_the_top_of_the_stack :
  let w := lookup_world false in
  let w' := set_cerr ["Attempting to call invalid Lua function."] w in
  @LuaFunction_call0 decimal_runtime bool for_bool nil_handle w = Done true w' /\
  @LuaFunction_call decimal_runtime bool for_bool nil_handle [NBool true] w = Done false w' /\
  GetDefault for_bool w' = Done false w'.
Proof.
  destruct (@call_without_arguments_reads_the_stack decimal_runtime bool for_bool
              (lookup_world false) None LUA_REFNIL [NBool true] (or_introl eq_refl))
    as (_ & _ & H0 & Hn).
  cbv zeta. split; [ exact (H0 (LBoolean true) [] eq_refl) | ].
  split; [ exact Hn | reflexivity ].
Defined.

(* ================================================================= *)
(** ** Reading a value of another type *)

Lemma cast_int_0 t : cast_int t 0 = 0.
Proof.
  destruct t as [bits [|]|]; unfold cast_int, wrap_signed, wrap_unsigned;
    rewrite ?Z.add_0_l, ?Zmod_0_l; try reflexivity.
  destruct (Z.le_gt_cases bits 0) as [Hle | Hgt].
  - destruct (Z.eq_dec bits 0) as [-> | Hne]; [ reflexivity | ].
    rewrite (Z.pow_neg_r 2 bits) by lia. rewrite Z.mod_0_r. lia.
  - rewrite Z.mod_small; [ lia | ].
    split; [ apply Z.pow_nonneg; lia | apply Z.pow_lt_mono_r; lia ].
Qed.

(** C5, counterexample: GetBool on a handle that holds the integer 7
    returns true, in the unchecked and in the checked build. *)
Lemma GetBool_of_an_integer_is_true :
  GetBool handle_1 (one_handle_world false) = Done true (one_handle_world false) /\
  GetBool handle_1 (one_handle_world true) = Done true (one_handle_world true).
Proof. split; vm_compute; reflexivity. Qed.

Section Getters.
Context `{LuaRuntime}.

(** C5, as the code has it.  On a handle that holds a registry reference
    to the value [v], in either build, none of the getters fails, and none
    changes the state but for the diagnostic of GetInteger.  GetBool returns
    the truth value of [v] (true for everything but nil and false).
    GetInteger returns [v] converted to the integral type when [v] converts
    to an integer, and otherwise returns 0 and writes one diagnostic that
    names the type of [v].  GetNumber, GetString and GetLightUserData
    return the converted value when [v] converts, and 0.0, the null string
    and the null pointer otherwise, and write nothing.  On a nil handle
    every getter stops at the assertion of GetValue in the checked build
    and returns the default of its type in the unchecked one. *)
Theorem getters_on_a_value_of_another_type (w : World) (rc : option Z) (ref : Z)
    (t : IntType) (ft : FloatType) :
  let h := mkVar (Some (state_obj w)) rc ref in
  match ref with
  | Z.pos k =>
      forall v, registry (lua w) !! k = Some v ->
      GetBool h w = Done (truthy v) w /\
      GetInteger t h w
      = match tointeger v with
        | Some i => Done (cast_int t (wrap_signed 64 i)) w
        | None =>
            Done 0 (set_cerr (cerr w ++ ["Failed to convert value to integer.  Type is "
                                         +:+ lua_typename (ttype v)]) w)
        end /\
      GetNumber ft h w
      = Done (match tonumber v with
              | Some n => cast_float ft n
              | None => S754_zero false
              end) w /\
      GetString h w
      = Done (match v with
              | LString s => Some s
              | LInteger _ | LFloat _ => Some (luaO_tostring v)
              | _ => None
              end) w /\
      GetLightUserData h w
      = Done (match v with
              | LLightUserData p => p
              | LUserData u => Z.pos u
              | _ => 0
              end) w
  | _ =>
      ref = LUA_REFNIL ->
      if checked w then
        GetBool h w = Crash AssertionFailed /\ GetInteger t h w = Crash AssertionFailed /\
        GetNumber ft h w = Crash AssertionFailed /\ GetString h w = Crash AssertionFailed /\
        GetLightUserData h w = Crash AssertionFailed
      else
        GetBool h w = Done false w /\ GetInteger t h w = Done 0 w /\
        GetNumber ft h w = Done (S754_zero false) w /\ GetString h w = Done None w /\
        GetLightUserData h w = Done 0 w
  end.
Proof.
  intros h. subst h. destruct ref as [ | k | n ].
  - discriminate.
  - intros v Hk. open_world w.
    split; [ | split; [ | split; [ | split ] ] ].
    + repeat (progress (step; rewrite ?Hk)). destruct v as [ | [|] | | | | | | | ]; reflexivity.
    + destruct (tointeger v) as [ i | ] eqn:Hi.
      * repeat (progress (step; rewrite ?Hk, ?Hi)). reflexivity.
      * repeat (progress (step; rewrite ?Hk, ?Hi)). rewrite cast_int_0. reflexivity.
    + destruct (tonumber v) as [ n | ] eqn:Hn;
        repeat (progress (step; rewrite ?Hk, ?Hn)); destruct ft; reflexivity.
    + destruct v; repeat (progress (step; rewrite ?Hk)); reflexivity.
    + destruct v; repeat (progress (step; rewrite ?Hk)); reflexivity.
  - intros [= ->]. open_world w.
    destruct chk; repeat split; steps; rewrite ?cast_int_0; try reflexivity;
      destruct ft; reflexivity.
Qed.

End Getters.

(** The theorem at the handle of the table of [lookup_world]. *)
Lemma getters_on_a_table :
  let w := lookup_world true in
  let h := mkVar (Some the_state) (Some 10) 1 in
  GetBool h w = Done true w /\
  @GetInteger decimal_runtime int32 h w
  = Done 0 (set_cerr ["Failed to convert value to integer.  Type is table"] w) /\
  @GetNumber decimal_runtime TFloat32 h w = Done (S754_zero false) w /\
  @GetString decimal_runtime h w = Done None w /\
  GetLightUserData h w = Done 0 w.
Proof.
  exact (@getters_on_a_value_of_another_type decimal_runtime (lookup_world true)
           (Some 10) 1 int32 TFloat32 (LTable 0) eq_refl).
Defined.

(* ================================================================= *)
(** ** Creating and releasing handles *)

Lemma frame_refl w : frame w w.
Proof. repeat split. Qed.

Lemma frame_trans w1 w2 w3 : frame w1 w2 -> frame w2 w3 -> frame w1 w3.
Proof.
  unfold frame. intros (a1 & a2 & a3 & a4 & a5 & a6 & a7 & a8)
                       (b1 & b2 & b3 & b4 & b5 & b6 & b7 & b8).
  repeat split; congruence.
Qed.

Lemma wrap_unsigned_small z : 0 <= z < 2 ^ 64 -> wrap_unsigned 64 z = z.
Proof. intros Hz. unfold wrap_unsigned. apply Z.mod_small. exact Hz. Qed.

Lemma CreateFromStack_spec w x s :
  stack (lua w) = x :: s ->
  exists h w', CreateFromStack (Some (state_obj w)) w = Done h w' /\
    stack (lua w') = s /\ frame w w' /\ cerr w' = cerr w /\ created w w' h x.
Proof.
  open_world w. intros ->.
  destruct (decide (x = LNil)) as [-> | Hx].
  - eexists; eexists. split; [ steps; reflexivity | ].
    split; [ reflexivity | ]. split; [ repeat split | ]. split; [ reflexivity | ].
    unfold created; cbn. repeat split; auto.
  - exists (mkVar (Some so) (Some (fresh (dom hp))) (Z.pos (fresh (dom reg)))).
    eexists. split; [ destruct x; try congruence; steps; reflexivity | ].
    split; [ reflexivity | ]. split; [ repeat split | ]. split; [ reflexivity | ].
    unfold created, value_of; cbn. repeat split.
    + rewrite lookup_insert_eq. reflexivity.
    + intros q c Hq. rewrite lookup_insert_ne; [ exact Hq | ].
      eapply lookup_fresh_ne; exact Hq.
    + intros j v Hj. rewrite lookup_insert_ne; [ exact Hj | ].
      eapply lookup_fresh_ne; exact Hj.
    + right. split; [ exact Hx | ]. eexists; eexists.
      repeat split; rewrite ?lookup_insert_eq; auto using fresh_lookup_None.
Qed.

Lemma ClearRef_nil w h :
  m_reference h = LUA_REFNIL -> ClearRef h w = Done h w.
Proof. destruct h as [ps rc ref]; cbn. intros ->. reflexivity. Qed.

Lemma ClearRef_spec w h :
  handle_ok w h ->
  exists h' w', ClearRef h w = Done h' w' /\
    m_reference h' = LUA_REFNIL /\ m_pState h' = m_pState h /\ released w w' h.
Proof.
  intros Hok. destruct (decide (m_reference h = LUA_REFNIL)) as [Hnil | Hlive].
  - exists h, w. rewrite ClearRef_nil by exact Hnil.
    repeat split; auto.
  - destruct Hok as [Hnil | (p & c & Hs & Hp & Hc & Hrange)]; [ contradiction | ].
    destruct h as [ps rc ref]; cbn in *. subst ps rc.
    apply Z.eqb_neq in Hlive. unfold LUA_REFNIL in Hlive.
    assert (Hpos : (0 <? c) = true) by (apply Z.ltb_lt; lia).
    assert (Hwrap : wrap_unsigned 64 (c - 1) = c - 1) by (apply wrap_unsigned_small; lia).
    open_world w.
    destruct (decide (c = 1)) as [-> | Hc1].
    + exists (mkVar (Some so) None LUA_REFNIL).
      exists (mkWorld (mkState stk (match ref with Z.pos k => delete k reg | _ => reg end)
                         tabs blk upv) so dflt (delete p (<[p := 0]> hp)) vs ce chk inv).
      split.
      * destruct chk, ref;
          repeat (progress (step; rewrite ?Hlive, ?Hc, ?Hpos, ?Hwrap, ?lookup_insert_eq));
          reflexivity.
      * split; [ reflexivity | ]. split; [ reflexivity | ].
        unfold released; cbn. repeat split.
        -- intros q Hq. rewrite lookup_delete_ne by congruence.
           rewrite lookup_insert_ne by congruence. reflexivity.
        -- intros j Hj. destruct ref; try reflexivity.
           rewrite lookup_delete_ne by congruence. reflexivity.
        -- intros E. apply Z.eqb_neq in Hlive. contradiction.
    + assert (Hnz : (c - 1 =? 0) = false) by (apply Z.eqb_neq; lia).
      exists (mkVar (Some so) None LUA_REFNIL).
      exists (mkWorld (mkState stk reg tabs blk upv) so dflt (<[p := c - 1]> hp) vs ce chk inv).
      split.
      * destruct chk;
          repeat (progress (step; rewrite ?Hlive, ?Hc, ?Hpos, ?Hwrap, ?Hnz));
          reflexivity.
      * split; [ reflexivity | ]. split; [ reflexivity | ].
        unfold released; cbn. repeat split.
        -- intros q Hq. rewrite lookup_insert_ne by congruence. reflexivity.
        -- intros E. apply Z.eqb_neq in Hlive. contradiction.
Qed.

Lemma LuaVar_dtor_spec w h :
  handle_ok w h -> exists w', LuaVar_dtor h w = Done tt w' /\ released w w' h.
Proof.
  intros Hok. destruct (ClearRef_spec w h Hok) as (h' & w' & E & _ & _ & R).
  exists w'. split; [ | exact R ].
  unfold LuaVar_dtor. rewrite (bind_Done _ _ _ _ _ E). reflexivity.
Qed.


(** Releasing [h] leaves every handle with another RefCount object
    releasable. *)
Lemma handle_ok_after_release w w' h g :
  released w w' h -> handle_ok w g -> independent h g -> handle_ok w' g.
Proof.
  intros (_ & F & _ & Hheap & _ & Hnil) Hg Hind.
  destruct Hg as [Hg | (p & c & Hs & Hp & Hc & Hr)]; [ left; exact Hg | ].
  destruct Hind as [Hh | [Hg | Hne]].
  - rewrite (Hnil Hh). right. exists p, c. auto.
  - left. exact Hg.
  - right. exists p, c. destruct F as (_ & _ & _ & Fs & _). rewrite Fs.
    repeat split; auto; try lia.
    rewrite Hheap; [ exact Hc | ]. congruence.
Qed.

(** A handle made by CreateFromStack is releasable, and shares nothing
    with the handles that were there before. *)
Lemma created_handle_ok w w' h x :
  created w w' h x -> frame w w' -> handle_ok w' h.
Proof.
  intros (Hs & _ & _ & _ & [(_ & Hn & _) | (_ & j & q & Hj & Hq & _ & Hq' & _)]) F.
  - left. exact Hn.
  - right. exists q, 1. destruct F as (_ & _ & _ & Fs & _). rewrite Fs.
    repeat split; auto; lia.
Qed.

Lemma handle_ok_after_create w w' h x g :
  created w w' h x -> frame w w' -> handle_ok w g ->
  handle_ok w' g /\ independent h g.
Proof.
  intros (Hs & _ & Hheap & _ & Hcase) F Hg.
  destruct Hg as [Hg | (p & c & Hgs & Hp & Hc & Hr)].
  - split; [ left; exact Hg | right; left; exact Hg ].
  - split.
    + right. exists p, c. destruct F as (_ & _ & _ & Fs & _). rewrite Fs.
      repeat split; auto; lia.
    + destruct Hcase as [(_ & Hn & _) | (_ & j & q & _ & Hq & Hnone & _)].
      * left. exact Hn.
      * right; right. rewrite Hq, Hp. intros E. injection E as ->. congruence.
Qed.

(* ================================================================= *)
(** ** Table iteration *)

Lemma luaH_next_nil tbl : luaH_next tbl LNil = Some (head tbl).
Proof. destruct tbl; reflexivity. Qed.

Lemma luaH_next_key tbl k :
  keys_normal tbl -> In k (map fst tbl) ->
  exists r, luaH_next tbl k = Some r /\
            forall k' v', r = Some (k', v') -> In k' (map fst tbl).
Proof.
  intros Hn. induction Hn as [ | [k0 v0] rest Hk0 Hrest IH ]; intros Hin.
  - destruct Hin.
  - assert (Hhead : forall k' v', head rest = Some (k', v') -> In k' (map fst ((k0, v0) :: rest))).
    { intros k' v' E. destruct rest as [ | [k1 v1] rest' ]; [ discriminate | ].
      injection E as -> ->. right. left. reflexivity. }
    destruct (decide (k = LNil)) as [-> | Hk].
    { eexists. split; [ reflexivity | ]. intros k' v' E. injection E as -> ->. left. reflexivity. }
    assert (E : luaH_next ((k0, v0) :: rest) k
                = if decide (k0 = key_norm k) then Some (head rest) else luaH_next rest k).
    { destruct k; try reflexivity. congruence. }
    rewrite E. cbn [fst] in Hk0.
    destruct (decide (k0 = key_norm k)) as [Heq | Hne].
    + eexists. split; [ reflexivity | exact Hhead ].
    + destruct Hin as [Hin | Hin].
      * cbn in Hin. subst k. congruence.
      * destruct (IH Hin) as (r & Er & Hr). exists r. split; [ exact Er | ].
        intros k' v' E'. right. eapply Hr. exact E'.
Qed.


Lemma independent_sym h g : independent h g -> independent g h.
Proof. unfold independent. intros [H | [H | H]]; auto. Qed.

Lemma assign_temporary_spec w this tmp :
  handle_ok w this ->
  exists w', assign_temporary this tmp w = Done tmp w' /\ released w w' this.
Proof.
  intros Hok. destruct (ClearRef_spec w this Hok) as (h' & w' & E & _ & _ & R).
  exists w'. split; [ | exact R ].
  unfold assign_temporary, Move, bind. rewrite E.
  destruct tmp; reflexivity.
Qed.


Lemma InternalBegin_spec w k rc t tbl :
  registry (lua w) !! k = Some (LTable t) -> tables (lua w) !! t = Some tbl ->
  exists it w', InternalBegin (mkVar (Some (state_obj w)) rc (Z.pos k)) w = Done it w' /\
    iterating (stack (lua w)) t tbl w' it /\ frame w w' /\ cerr w' = cerr w.
Proof.
  open_world w. intros Hk Ht. unfold InternalBegin.
  repeat (progress (step_api; rewrite ?Hk, ?Ht, ?luaH_next_nil)).
  destruct tbl as [ | [k1 v1] rest ].
  - repeat (progress step_api). eexists; eexists. split; [ reflexivity | ].
    split; [ | split; [ repeat split | reflexivity ] ].
    unfold iterating; cbn. auto.
  - repeat (progress (step_api; cbn [head])).
    use_create CreateFromStack_spec. use_create CreateFromStack_spec.
    eexists; eexists. split; [ reflexivity | ].
    split; [ | split; [ repeat split | reflexivity ] ].
    pose proof (created_handle_ok _ _ _ _ Cr ltac:(repeat split)) as Hok1.
    destruct (handle_ok_after_create _ _ _ _ _ Cr0 ltac:(repeat split) Hok1) as [Hok1' Hind].
    pose proof (created_handle_ok _ _ _ _ Cr0 ltac:(repeat split)) as Hok2.
    unfold iterating; cbn.
    split; [ reflexivity | ]. split; [ exact Ht | ].
    split; [ exists k1; split; [ reflexivity | left; reflexivity ] | ].
    split; [ exact Hok1' | ]. split; [ exact Hok2 | apply independent_sym; exact Hind ].
Qed.

Lemma SetToEnd_spec w ps key val atend stk0 t :
  ps = Some (state_obj w) -> stack (lua w) = LTable t :: stk0 ->
  handle_ok w key -> handle_ok w val -> independent key val ->
  exists it w', SetToEnd (mkIter ps (mkPair key val) atend) w = Done it w' /\
    m_isAtEnd it = true /\ stack (lua w') = stk0 /\
    m_reference (m_key (m_keyValue it)) = LUA_REFNIL /\
    m_reference (m_value (m_keyValue it)) = LUA_REFNIL /\
    frame w w' /\ cerr w' = cerr w.
Proof.
  intros -> Hstk Hkey Hval Hind.
  destruct (ClearRef_spec w key Hkey) as (key' & w1 & E1 & Hk' & _ & R1).
  pose proof (handle_ok_after_release _ _ _ _ R1 Hval Hind) as Hval1.
  destruct (ClearRef_spec w1 val Hval1) as (val' & w2 & E2 & Hv' & _ & R2).
  unfold SetToEnd, KeyValuePair_Clear, bind. cbn [m_keyValue m_key m_value it_pState].
  rewrite E1. cbv beta iota. rewrite E2. clear E1 E2.
  settle_released w1 R1. settle_released w2 R2. open_world w. subst.
  repeat (progress step_api).
  eexists; eexists. split; [ reflexivity | ]. cbn.
  repeat split; auto.
Qed.

Lemma TableIterator_next_spec stk0 t tbl w it :
  keys_normal tbl -> iterating stk0 t tbl w it -> m_isAtEnd it = false ->
  exists it' w', TableIterator_next it w = Done it' w' /\
    iterating stk0 t tbl w' it' /\ frame w w' /\ cerr w' = cerr w.
Proof.
  intros Hn Hit Hend. destruct it as [ps [key val] atend]. cbn in Hend. subst atend.
  unfold iterating in Hit; cbn in Hit.
  destruct Hit as (Hps & Ht & (kcur & Hstk & Hin) & Hkey & Hval & Hind).
  destruct (luaH_next_key tbl kcur Hn Hin) as (r & Er & Hr).
  destruct r as [[k' v'] | ].
  - unfold TableIterator_next. cbn [it_pState m_keyValue m_key m_value m_isAtEnd].
    open_world w. subst.
    repeat (progress (step_api; rewrite ?Ht, ?Er)).
    use_create CreateFromStack_spec.
    destruct (handle_ok_after_create _ _ _ _ _ Cr ltac:(repeat split) Hkey) as [Hkey2 Hi1].
    destruct (handle_ok_after_create _ _ _ _ _ Cr ltac:(repeat split) Hval) as [Hval2 Hi2].
    pose proof (created_handle_ok _ _ _ _ Cr ltac:(repeat split)) as Hh2.
    match goal with |- context [assign_temporary key h ?W] =>
      destruct (assign_temporary_spec W key h Hkey2) as (w3 & E3 & R3) end.
    rewrite E3; clear E3.
    pose proof (handle_ok_after_release _ _ _ _ R3 Hval2 Hind) as Hval3.
    pose proof (handle_ok_after_release _ _ _ _ R3 Hh2 (independent_sym _ _ Hi1)) as Hh3.
    settle_released w3 R3.
    repeat (progress step_api).
    use_create CreateFromStack_spec.
    destruct (handle_ok_after_create _ _ _ _ _ Cr0 ltac:(repeat split) Hval3) as [Hval4 Hi3].
    destruct (handle_ok_after_create _ _ _ _ _ Cr0 ltac:(repeat split) Hh3) as [Hh4 Hi4].
    pose proof (created_handle_ok _ _ _ _ Cr0 ltac:(repeat split)) as Hg4.
    match goal with |- context [assign_temporary val h0 ?W] =>
      destruct (assign_temporary_spec W val h0 Hval4) as (w5 & E5 & R5) end.
    rewrite E5; clear E5.
    pose proof (handle_ok_after_release _ _ _ _ R5 Hh4 (independent_sym _ _ Hi2)) as Hh5.
    pose proof (handle_ok_after_release _ _ _ _ R5 Hg4 (independent_sym _ _ Hi3)) as Hg5.
    settle_released w5 R5.
    repeat (progress step_api).
    eexists; eexists. split; [ reflexivity | ].
    split; [ | split; [ repeat split | reflexivity ] ].
    unfold iterating; cbn.
    split; [ reflexivity | ]. split; [ exact Ht | ].
    split; [ exists k'; split; [ reflexivity | eapply Hr; reflexivity ] | ].
    split; [ exact Hh5 | ]. split; [ exact Hg5 | apply independent_sym; exact Hi4 ].
  - unfold TableIterator_next. cbn [it_pState m_keyValue m_key m_value m_isAtEnd].
    open_world w. subst.
    repeat (progress (step_api; rewrite ?Ht, ?Er)).
    match goal with |- context [SetToEnd ?I ?W] =>
      destruct (SetToEnd_spec W (Some so) key val false stk0 t eq_refl eq_refl Hkey Hval Hind)
        as (it' & w' & E & He & Hs & Hk' & Hv' & F & Hc) end.
    rewrite E. exists it', w'. split; [ reflexivity | ].
    split; [ | split; [ exact F | exact Hc ] ].
    unfold iterating. rewrite He. auto.
Qed.

Lemma TableIterator_dtor_spec stk0 t tbl w it :
  iterating stk0 t tbl w it ->
  exists w', TableIterator_dtor it w = Done tt w' /\
    stack (lua w') = stk0 /\
    stack (lua w') = drop (if m_isAtEnd it then 0 else 2)%nat (stack (lua w)) /\
    frame w w' /\ cerr w' = cerr w.
Proof.
  intros Hit. destruct it as [ps [key val] atend].
  unfold iterating in Hit; cbn in Hit. destruct atend.
  - destruct Hit as (Hs & Hk & Hv).
    exists w. unfold TableIterator_dtor, LuaVar_dtor, bind, ret.
    cbn [m_isAtEnd negb m_keyValue m_key m_value]. cbv beta iota.
    rewrite (ClearRef_nil w val Hv). cbv beta iota.
    rewrite (ClearRef_nil w key Hk).
    repeat split; auto.
  - destruct Hit as (Hps & Ht & (kcur & Hstk & Hin) & Hkey & Hval & Hind).
    unfold TableIterator_dtor. cbn [it_pState m_keyValue m_key m_value m_isAtEnd].
    open_world w. subst.
    repeat (progress step_api).
    match goal with |- context [LuaVar_dtor val ?W] =>
      assert (Hval1 : handle_ok W val) by exact Hval;
      assert (Hkey1 : handle_ok W key) by exact Hkey;
      destruct (LuaVar_dtor_spec W val Hval1) as (w1 & E1 & R1) end.
    rewrite E1; clear E1.
    pose proof (handle_ok_after_release _ _ _ _ R1 Hkey1 (independent_sym _ _ Hind)) as Hkey2.
    settle_released w1 R1.
    destruct (LuaVar_dtor_spec _ key Hkey2) as (w2 & E2 & R2).
    rewrite E2; clear E2.
    settle_released w2 R2.
    eexists. split; [ reflexivity | ]. cbn. repeat split.
Qed.

Lemma advance_spec n : forall stk0 t tbl w it,
  keys_normal tbl -> iterating stk0 t tbl w it ->
  exists it' w', advance n it w = Done it' w' /\
    iterating stk0 t tbl w' it' /\ frame w w' /\ cerr w' = cerr w.
Proof.
  induction n as [ | n IH ]; intros stk0 t tbl w it Hn Hit.
  - exists it, w. repeat split; auto.
  - cbn [advance]. unfold TableIterator_IsValid.
    destruct (m_isAtEnd it) eqn:He; cbn [negb].
    + exists it, w. repeat split; auto.
    + destruct (TableIterator_next_spec stk0 t tbl w it Hn Hit He)
        as (it1 & w1 & E1 & Hit1 & F1 & Hc1).
      destruct (IH stk0 t tbl w1 it1 Hn Hit1) as (it2 & w2 & E2 & Hit2 & F2 & Hc2).
      exists it2, w2. split.
      * rewrite (bind_Done _ _ _ _ _ E1). exact E2.
      * split; [ exact Hit2 | ]. split; [ eapply frame_trans; eauto | congruence ].
Qed.

(** C9: an iteration over the table behind a handle is begun, advanced [n]
    times (or until it is exhausted) and the iterator is destroyed.  The
    destructor pops exactly two slots when the iterator still holds a pair
    and nothing when it is exhausted, and in both cases the operand stack is
    what it was before the iteration began. *)
Theorem early_destruction_restores_the_stack (n : nat) (w : World) (k : positive)
    (rc : option Z) (t : Z) (tbl : Table) :
  registry (lua w) !! k = Some (LTable t) ->
  tables (lua w) !! t = Some tbl ->
  keys_normal tbl ->
  exists it w1 w2,
    (do it0 <- InternalBegin (mkVar (Some (state_obj w)) rc (Z.pos k)); advance n it0) w
    = Done it w1 /\
    length (stack (lua w1))
    = ((if m_isAtEnd it then 0 else 2) + length (stack (lua w)))%nat /\
    TableIterator_dtor it w1 = Done tt w2 /\
    stack (lua w2) = drop (if m_isAtEnd it then 0 else 2)%nat (stack (lua w1)) /\
    stack (lua w2) = stack (lua w).
Proof.
  intros Hk Ht Hn.
  destruct (InternalBegin_spec w k rc t tbl Hk Ht) as (it0 & w0 & E0 & Hit0 & _ & _).
  destruct (advance_spec n _ t tbl w0 it0 Hn Hit0) as (it & w1 & E1 & Hit1 & _ & _).
  destruct (TableIterator_dtor_spec _ t tbl w1 it Hit1) as (w2 & E2 & Hs2 & Hd2 & _ & _).
  exists it, w1, w2.
  split; [ rewrite (bind_Done _ _ _ _ _ E0); exact E1 | ].
  split; [ | split; [ exact E2 | split; [ exact Hd2 | exact Hs2 ] ] ].
  unfold iterating in Hit1. destruct (m_isAtEnd it).
  - destruct Hit1 as (-> & _). reflexivity.
  - destruct Hit1 as (_ & _ & (kcur & -> & _) & _). reflexivity.
Qed.

(** The theorem at the table {a = 1, b = 2, c = 3}, left after one more
    pair. *)
Lemma early_break_after_one_pair :
  exists it w1 w2,
    (do it0 <- InternalBegin handle_1; advance 1 it0) (abc_world true) = Done it w1 /\
    length (stack (lua w1))
    = ((if m_isAtEnd it then 0 else 2) + length (stack (lua (abc_world true))))%nat /\
    TableIterator_dtor it w1 = Done tt w2 /\
    stack (lua w2) = drop (if m_isAtEnd it then 0 else 2)%nat (stack (lua w1)) /\
    stack (lua w2) = stack (lua (abc_world true)).
Proof.
  apply (early_destruction_restores_the_stack 1 (abc_world true) 1%positive (Some 10) 0
           [(LString "a", LInteger 1); (LString "b", LInteger 2); (LString "c", LInteger 3)]).
  - reflexivity.
  - reflexivity.
  - repeat constructor.
Defined.

(* ================================================================= *)
(** ** Lookup *)

(** *** The path and its segments *)

Lemma append_nil_l s : EmptyString +:+ s = s.
Proof. reflexivity. Qed.

Lemma append_cons a s t : String a s +:+ t = String a (s +:+ t).
Proof. reflexivity. Qed.

Lemma append_assoc s t u : (s +:+ t) +:+ u = s +:+ t +:+ u.
Proof.
  induction s as [ | a s IH ]; rewrite ?append_nil_l, ?append_cons; congruence.
Qed.

Lemma length_append s t :
  String.length (s +:+ t) = (String.length s + String.length t)%nat.
Proof.
  induction s as [ | a s IH ]; rewrite ?append_nil_l, ?append_cons; cbn; congruence.
Qed.

Lemma find_first_of_app c pre s :
  find_first_of c (pre +:+ s) (String.length pre)
  = option_map (Nat.add (String.length pre)) (find_first_of c s 0).
Proof.
  induction pre as [ | a pre IH ]; rewrite ?append_nil_l, ?append_cons; cbn [String.length find_first_of].
  - destruct (find_first_of c s 0); reflexivity.
  - rewrite IH. destruct (find_first_of c s 0); reflexivity.
Qed.

Lemma substring_prefix seg rest :
  String.substring 0 (String.length seg) (seg +:+ rest) = seg.
Proof.
  induction seg as [ | a seg IH ]; rewrite ?append_nil_l, ?append_cons; cbn [String.length String.substring].
  - destruct rest; reflexivity.
  - rewrite IH. reflexivity.
Qed.

Lemma substring_app pre seg rest :
  String.substring (String.length pre) (String.length seg) (pre +:+ seg +:+ rest) = seg.
Proof.
  induction pre as [ | a pre IH ]; rewrite ?append_nil_l, ?append_cons; cbn [String.length String.substring].
  - apply substring_prefix.
  - exact IH.
Qed.

Lemma substring_all s m : (String.length s <= m)%nat -> String.substring 0 m s = s.
Proof.
  revert m. induction s as [ | a s IH ]; intros m Hm.
  - destruct m; reflexivity.
  - destruct m; cbn in *; [ lia | ]. rewrite IH by lia. reflexivity.
Qed.

Lemma substring_suffix pre s m :
  (String.length s <= m)%nat -> String.substring (String.length pre) m (pre +:+ s) = s.
Proof.
  intros Hm. induction pre as [ | a pre IH ]; rewrite ?append_nil_l, ?append_cons; cbn [String.length String.substring].
  - apply substring_all. exact Hm.
  - exact IH.
Qed.

Lemma split_on_cons c s : exists seg segs, split_on c s = seg :: segs.
Proof.
  induction s as [ | a s (seg & segs & IH) ]; cbn.
  - eauto.
  - rewrite IH. destruct (Ascii.eqb a c); eauto.
Qed.

Lemma split_on_find_None c s : find_first_of c s 0 = None -> split_on c s = [s].
Proof.
  induction s as [ | a s IH ]; cbn; [ reflexivity | ].
  destruct (Ascii.eqb a c); [ discriminate | ].
  destruct (find_first_of c s 0); [ discriminate | ].
  intros _. rewrite IH by reflexivity. reflexivity.
Qed.

Lemma split_on_find_Some c s e :
  find_first_of c s 0 = Some e ->
  exists seg s', s = seg +:+ String c s' /\ String.length seg = e /\
                 split_on c s = seg :: split_on c s'.
Proof.
  revert e. induction s as [ | a s IH ]; cbn; intros e; [ discriminate | ].
  destruct (Ascii.eqb a c) eqn:Eac.
  - intros [= <-]. apply Ascii.eqb_eq in Eac as ->.
    exists EmptyString, s. destruct (split_on_cons c s) as (seg & segs & ->). auto.
  - destruct (find_first_of c s 0) as [e' | ]; [ | discriminate ].
    intros [= <-]. destruct (IH e' eq_refl) as (seg & s' & -> & Hlen & Hsplit).
    exists (String a seg), s'. rewrite Hsplit. cbn. auto.
Qed.

(** The loop at the suffix [s] of the path, [pre] having been consumed. *)
Lemma split_loop_spec : forall fuel s pre acc,
  (String.length s < fuel)%nat ->
  let r := split_loop fuel (pre +:+ s) (String.length pre)
                      (find_first_of "." (pre +:+ s) (String.length pre)) acc in
  fst r = acc ++ removelast (split_on "." s) /\
  substr (pre +:+ s) (snd r) None = List.last (split_on "." s) EmptyString.
Proof.
  induction fuel as [ | fuel IH ]; intros s pre acc Hfuel; [ lia | ].
  cbv zeta. rewrite find_first_of_app.
  destruct (find_first_of "." s 0) as [e | ] eqn:Ef.
  - destruct (split_on_find_Some _ _ _ Ef) as (seg & s' & -> & Hlen & Hsplit).
    cbn [option_map split_loop].
    replace (String.length pre + e + 1)%nat with (String.length (pre +:+ seg +:+ "."))%nat.
    2:{ rewrite !length_append. cbn. lia. }
    replace (pre +:+ seg +:+ String "." s') with ((pre +:+ seg +:+ ".") +:+ s').
    2:{ rewrite ?append_assoc. reflexivity. }
    rewrite length_append in Hfuel. cbn in Hfuel.
    destruct (IH s' (pre +:+ seg +:+ ".")
                 (acc ++ [substr ((pre +:+ seg +:+ ".") +:+ s') (String.length pre)
                                 (Some (String.length pre + e - String.length pre)%nat)])
                 ltac:(lia)) as [IH1 IH2].
    cbv zeta in IH1, IH2. rewrite IH1, IH2, Hsplit. clear IH1 IH2.
    destruct (split_on_cons "." s') as (seg1 & segs1 & E1). rewrite E1.
    split; [ | reflexivity ].
    rewrite <- app_assoc. f_equal. cbn [app removelast]. f_equal.
    unfold substr. replace (String.length pre + e - String.length pre)%nat with (String.length seg) by lia.
    rewrite ?append_assoc. apply substring_app.
  - cbn [option_map split_loop fst snd]. rewrite (split_on_find_None _ _ Ef). cbn.
    split; [ rewrite app_nil_r; reflexivity | ].
    apply substring_suffix. rewrite length_append. lia.
Qed.

(** The loop of Lookup keeps what [kept_segments] describes. *)
Lemma split_path_kept_segments path : split_path path = kept_segments path.
Proof.
  unfold split_path, kept_segments.
  destruct (split_loop_spec (S (String.length path)) path EmptyString [] ltac:(lia)) as [E1 E2].
  cbv zeta in E1, E2. rewrite append_nil_l in E1, E2. cbn [String.length] in E1, E2.
  cbv zeta. rewrite E1, E2. cbn [app].
  destruct (split_on_cons "." path) as (seg & segs & E). 
  destruct (decide (List.last (split_on "." path) EmptyString = EmptyString)); [ reflexivity | ].
  symmetry. apply app_removelast_last. rewrite E. discriminate.
Qed.

(** *** The walk over the segments *)

Lemma frame_state w w' : frame w w' -> state_obj w' = state_obj w.
Proof. intros (_ & _ & _ & E & _). exact E. Qed.

Lemma frame_tables w w' : frame w w' -> tables (lua w') = tables (lua w).
Proof. intros (E & _). exact E. Qed.

Lemma GetTableVar_spec w k rc t tbl key :
  registry (lua w) !! k = Some (LTable t) -> tables (lua w) !! t = Some tbl ->
  exists r w', GetTableVar key (mkVar (Some (state_obj w)) rc (Z.pos k)) w = Done r w' /\
    stack (lua w') = stack (lua w) /\ frame w w' /\ cerr w' = cerr w /\
    created w w' r (luaH_get tbl (LString key)).
Proof.
  open_world w. intros Hk Ht.
  step_api.
  match goal with |- context [IsTable (mkVar (Some ?so) ?rc (Z.pos ?k)) ?W] =>
    let E := fresh in pose proof (IsTable_live W k rc _ Hk) as E; world_fields;
    rewrite E; clear E end.
  change (ttype (LTable t) =? LUA_TTABLE) with true.
  repeat (progress (step_api; rewrite ?Hk, ?Ht)).
  use_create CreateFromStack_spec.
  repeat (progress step_api).
  eexists; eexists. split; [ reflexivity | ].
  split; [ reflexivity | ]. split; [ repeat split | ]. split; [ reflexivity | ].
  exact Cr.
Qed.

Lemma walk_not_table tabs v rest final :
  (ttype v =? LUA_TTABLE) = false -> walk tabs v (rest ++ [final]) = None.
Proof. intros Hv. destruct v; try discriminate; destruct rest; reflexivity. Qed.

Lemma ttype_table v : (ttype v =? LUA_TTABLE) = true -> exists t, v = LTable t.
Proof. destruct v; try discriminate. eauto. Qed.

Lemma luaH_get_stored tbl k : luaH_get tbl k = LNil \/ In (luaH_get tbl k) (map snd tbl).
Proof.
  induction tbl as [ | [k' v] rest IH ]; cbn; [ auto | ].
  destruct (decide (k' = key_norm k)); [ auto | ]. destruct IH; auto.
Qed.

Lemma tables_closed_get tabs t tbl k t' :
  tables_closed tabs -> tabs !! t = Some tbl -> luaH_get tbl k = LTable t' ->
  is_Some (tabs !! t').
Proof.
  intros Hcl Ht Hget. specialize (Hcl t tbl Ht). cbn in Hcl.
  destruct (luaH_get_stored tbl k) as [E | Hin]; [ congruence | ].
  rewrite Hget in Hin. apply in_map_iff in Hin as ([k0 v0] & Ev & Hin). cbn in Ev. subst v0.
  rewrite forallb_forall in Hcl. specialize (Hcl _ Hin). cbn in Hcl.
  destruct (tabs !! t'); [ eauto | discriminate ].
Qed.

(** The handle CreateFromStack made still refers to its value when a handle
    that was there before is released. *)
Lemma value_of_after_release w w1 w2 r x curr kc v :
  created w w1 r x -> registry (lua w) !! kc = Some v -> m_reference curr = Z.pos kc ->
  released w1 w2 curr -> value_of w2 r = x.
Proof.
  intros (_ & Hval & _ & _ & Hcase) Hk Hcurr (_ & _ & _ & _ & Hreg & _).
  destruct Hcase as [(-> & Hn & _) | (_ & j & q & Hj & _ & _ & _ & Hnone & Hsome)].
  - unfold value_of. rewrite Hn. reflexivity.
  - unfold value_of. rewrite Hj. rewrite Hreg; [ rewrite Hsome; reflexivity | ].
    rewrite Hcurr. intros [= ->]. congruence.
Qed.

Lemma LuaVar_dtor_nil w h : m_reference h = LUA_REFNIL -> LuaVar_dtor h w = Done tt w.
Proof. intros Hn. unfold LuaVar_dtor, bind. rewrite (ClearRef_nil w h Hn). reflexivity. Qed.

Lemma Lookup_walk_spec path final : forall elements w kc pc cc tc,
  registry (lua w) !! kc = Some (LTable tc) ->
  heap w !! pc = Some cc -> 0 < cc < 2 ^ 64 ->
  tables_closed (tables (lua w)) -> is_Some (tables (lua w) !! tc) ->
  exists r w',
    Lookup_walk path elements final (mkVar (Some (state_obj w)) (Some pc) (Z.pos kc)) w
    = Done r w' /\
    stack (lua w') = stack (lua w) /\ frame w w' /\
    match walk (tables (lua w)) (LTable tc) (map c_str elements ++ [c_str final]) with
    | Some x => value_of w' r = x /\ cerr w' = cerr w
    | None => m_reference r = LUA_REFNIL /\ exists msg, cerr w' = cerr w ++ [msg]
    end.
Proof.
  induction elements as [ | e rest IH ]; intros w kc pc cc tc Hk Hp Hcc Hcl [tbl Ht].
  - destruct (GetTableVar_spec w kc (Some pc) tc tbl (c_str final) Hk Ht)
      as (r & w1 & E & Hs & F & Hc & Cr).
    set (curr := mkVar (Some (state_obj w)) (Some pc) (Z.pos kc)) in *.
    assert (Hok : handle_ok w curr) by (right; exists pc, cc; auto).
    destruct (handle_ok_after_create _ _ _ _ _ Cr F Hok) as [Hok1 _].
    destruct (LuaVar_dtor_spec w1 curr Hok1) as (w2 & E2 & R2).
    exists r, w2. cbn [Lookup_walk]. unfold bind. rewrite E. cbv beta iota. rewrite E2.
    split; [ reflexivity | ].
    pose proof R2 as (Hs2 & F2 & Hc2 & _).
    split; [ congruence | ]. split; [ eapply frame_trans; eassumption | ].
    cbn [map app walk]. rewrite Ht.
    split; [ eapply value_of_after_release; eauto; reflexivity | congruence ].
  - destruct (GetTableVar_spec w kc (Some pc) tc tbl (c_str e) Hk Ht)
      as (tmp & w1 & E & Hs & F & Hc & Cr).
    set (curr := mkVar (Some (state_obj w)) (Some pc) (Z.pos kc)) in *.
    assert (Hok : handle_ok w curr) by (right; exists pc, cc; auto).
    destruct (handle_ok_after_create _ _ _ _ _ Cr F Hok) as [Hok1 Hind].
    pose proof (created_handle_ok _ _ _ _ Cr F) as Htmp1.
    destruct (assign_temporary_spec w1 curr tmp Hok1) as (w2 & E2 & R2).
    pose proof (handle_ok_after_release _ _ _ _ R2 Htmp1 (independent_sym _ _ Hind)) as Htmp2.
    pose proof (value_of_after_release _ _ _ _ _ curr kc _ Cr Hk eq_refl R2) as Hval2.
    pose proof R2 as (Hs2 & F2 & Hc2 & Hheap2 & Hreg2 & _).
    pose proof (frame_trans _ _ _ F F2) as F02.
    cbn [Lookup_walk]. unfold bind at 1. rewrite E. cbv beta iota.
    unfold bind at 1. rewrite E2. cbv beta iota.
    cbn [map app walk]. rewrite Ht.
    destruct Cr as (Hps & _ & Hheap & _ & Hcase).
    destruct tmp as [ps rc ref]. cbn [m_pState m_pRefCount m_reference] in *. subst ps.
    rewrite <- (frame_state _ _ F02). rewrite <- (frame_state _ _ F02) in Htmp2.
    destruct Hcase as [(Hx & -> & ->) | (Hx & j & q & -> & -> & Hqn & Hq1 & Hjn & Hj1)].
    + unfold bind at 1. rewrite IsTable_nil. cbv beta iota. cbn [negb].
      unfold bind at 1. rewrite GetTypeNameStr_nil. cbv beta iota.
      unfold bind, LUA_ERROR, LuaVar_default, ret.
      rewrite LuaVar_dtor_nil by reflexivity.
      eexists; eexists. split; [ reflexivity | ].
      split; [ cbn; congruence | ].
      split; [ eapply frame_trans; [ exact F02 | repeat split ] | ].
      rewrite Hx. rewrite walk_not_table by reflexivity.
      split; [ reflexivity | ]. eexists. cbn. rewrite Hc2, Hc. reflexivity.
    + assert (Hj2 : registry (lua w2) !! j = Some (luaH_get tbl (LString (c_str e)))).
      { unfold value_of in Hval2. cbn in Hval2.
        rewrite Hreg2; [ exact Hj1 | ]. cbn. intros [= ->]. congruence. }
      unfold bind at 1. rewrite (IsTable_live w2 j (Some q) _ Hj2). cbv beta iota.
      destruct (ttype (luaH_get tbl (LString (c_str e))) =? LUA_TTABLE) eqn:Ett; cbn [negb].
      * destruct (ttype_table _ Ett) as (t' & Et'). rewrite Et' in *.
        assert (Hq2 : heap w2 !! q = Some 1).
        { rewrite Hheap2; [ exact Hq1 | ]. cbn. intros [= ->]. congruence. }
        assert (Hcl2 : tables_closed (tables (lua w2))) by (rewrite (frame_tables _ _ F02); exact Hcl).
        assert (Ht2 : is_Some (tables (lua w2) !! t')).
        { rewrite (frame_tables _ _ F02). eapply tables_closed_get; eauto. }
        destruct (IH w2 j q 1 t' Hj2 Hq2 ltac:(lia) Hcl2 Ht2) as (r & w' & E' & Hs' & F' & Hres).
        exists r, w'. split; [ exact E' | ].
        split; [ congruence | ]. split; [ eapply frame_trans; eassumption | ].
        rewrite (frame_tables _ _ F02) in Hres.
        destruct (walk (tables (lua w)) (LTable t') (map c_str rest ++ [c_str final])).
        -- destruct Hres as [Hv Hce]. split; [ exact Hv | congruence ].
        -- destruct Hres as [Hv (msg & Hce)]. split; [ exact Hv | ].
           exists msg. congruence.
      * unfold bind at 1. rewrite (GetTypeNameStr_live w2 j (Some q) _ Hj2). cbv beta iota.
        unfold bind at 1. unfold LUA_ERROR at 1. cbv beta iota.
        unfold bind at 1. unfold LuaVar_default at 1. cbv beta iota.
        unfold bind at 1.
        match goal with |- context [LuaVar_dtor ?h ?W] =>
          assert (Hok3 : handle_ok W h) by exact Htmp2;
          destruct (LuaVar_dtor_spec W h Hok3) as (w4 & E4 & R4) end.
        rewrite E4. unfold ret.
        eexists; eexists. split; [ reflexivity | ].
        pose proof R4 as (Hs4 & F4 & Hc4 & _).
        split; [ rewrite Hs4; cbn; congruence | ].
        split; [ eapply frame_trans; [ exact F02 | ];
                 eapply frame_trans; [ | exact F4 ]; repeat split | ].
        rewrite walk_not_table by exact Ett.
        split; [ reflexivity | ]. eexists. rewrite Hc4. cbn. rewrite Hc2, Hc. reflexivity.
Qed.

Lemma resolve_not_table tabs v segs :
  (ttype v =? LUA_TTABLE) = false -> resolve tabs v segs = None.
Proof. intros Hv. destruct v; try discriminate; destruct segs; reflexivity. Qed.

Lemma kept_segments_nil path : kept_segments path = [] <-> path = EmptyString.
Proof.
  split; [ | intros ->; reflexivity ].
  destruct path as [ | a s ]; [ reflexivity | ].
  unfold kept_segments. cbn [split_on].
  destruct (split_on_cons "." s) as (seg & segs & ->).
  destruct (Ascii.eqb a "."); [ | destruct segs ];
    match goal with |- context [decide ?P] => destruct (decide P) as [E | E] end;
    cbn in *; try discriminate; try congruence.
  all: destruct segs; discriminate.
Qed.

Lemma LuaVar_copy_ctor_spec w ps p ref c :
  heap w !! p = Some c -> 0 < c < 2 ^ 64 - 1 ->
  LuaVar_copy_ctor (mkVar ps (Some p) ref) w
  = Done (mkVar ps (Some p) ref) (set_heap (<[p := c + 1]> (heap w)) w).
Proof.
  intros Hp Hc. open_world w.
  assert (Hwrap : wrap_unsigned 64 (c + 1) = c + 1) by (apply wrap_unsigned_small; lia).
  repeat (progress (step; rewrite ?Hp, ?Hwrap)). reflexivity.
Qed.

(** A piece without a NUL is its own C string. *)
Lemma c_str_no_NUL s : no_NUL s -> c_str s = s.
Proof.
  unfold no_NUL. induction s as [ | a s IH ]; [ reflexivity | ].
  cbn [c_str list_ascii_of_string]. intros Hn.
  destruct (Ascii.eqb a Ascii.zero) eqn:E.
  - apply Ascii.eqb_eq in E. subst a. exfalso. apply Hn. left. reflexivity.
  - rewrite IH; [ reflexivity | ]. intros Hin. apply Hn. right. exact Hin.
Qed.

Lemma split_on_no_NUL c s : no_NUL s -> Forall no_NUL (split_on c s).
Proof.
  unfold no_NUL. induction s as [ | a s IH ]; cbn [split_on list_ascii_of_string]; intros Hn.
  - constructor; [ intros [] | constructor ].
  - assert (Hs : ~ In Ascii.zero (list_ascii_of_string s)) by (intros Hin; apply Hn; right; exact Hin).
    specialize (IH Hs). destruct (split_on c s) as [ | seg segs ]; [ constructor | ].
    inversion IH as [ | ? ? Hseg Hsegs ]; subst.
    destruct (Ascii.eqb a c).
    + constructor; [ intros [] | exact IH ].
    + constructor; [ | exact Hsegs ].
      cbn [list_ascii_of_string]. intros [E | Hin]; [ | exact (Hseg Hin) ].
      apply Hn. left. exact E.
Qed.

Lemma Forall_removelast {A} (P : A -> Prop) (l : list A) : Forall P l -> Forall P (removelast l).
Proof.
  induction l as [ | a l IH ]; [ intros _; constructor | ].
  intros Hl. inversion Hl as [ | ? ? Ha Hl' ]; subst. cbn [removelast].
  destruct l; [ constructor | ]. constructor; [ exact Ha | apply IH; exact Hl' ].
Qed.

Lemma kept_segments_c_str path :
  no_NUL path -> map c_str (kept_segments path) = kept_segments path.
Proof.
  intros Hn. assert (Hall : Forall no_NUL (kept_segments path)).
  { unfold kept_segments. pose proof (split_on_no_NUL "." path Hn) as Hs.
    destruct (decide _); [ apply Forall_removelast | ]; exact Hs. }
  induction Hall as [ | seg segs Hseg _ IH ]; [ reflexivity | ].
  cbn [map]. rewrite (c_str_no_NUL seg Hseg), IH. reflexivity.
Qed.

(** C4: Lookup (path) on a handle that holds [v] returns, with the operand
    stack as it was at entry.  The path is split at every '.', and only an
    empty final piece is dropped: split_path is kept_segments, which is
    empty only for the empty path.  Each piece that is kept is looked up as
    a C string, so it is cut at its first NUL; a path without a NUL is
    looked up piece by piece as it stands.  When [v] is a table, there is a
    piece, and every value that has to be indexed on the way is a table,
    the returned handle refers to the value under the last key and nothing
    is reported; otherwise one diagnostic is reported and the returned
    handle is nil. *)
Theorem Lookup_follows_the_kept_segments (path : string) (w : World) (h : LuaVar)
    (v : TValue) :
  holds w h v -> tables_closed (tables (lua w)) -> allocated (tables (lua w)) v = true ->
  exists r w',
    Lookup path h w = Done r w' /\
    stack (lua w') = stack (lua w) /\
    split_path path = kept_segments path /\
    (kept_segments path = [] <-> path = EmptyString) /\
    (no_NUL path -> map c_str (kept_segments path) = kept_segments path) /\
    match resolve (tables (lua w)) v (map c_str (kept_segments path)) with
    | Some x => value_of w' r = x /\ cerr w' = cerr w
    | None => m_reference r = LUA_REFNIL /\ exists msg, cerr w' = cerr w ++ [msg]
    end.
Proof.
  intros Hh Hcl Hv.
  assert (Hfail : forall tn,
    IsTable h w = Done false w -> GetTypeNameStr h w = Done tn w ->
    resolve (tables (lua w)) v (map c_str (kept_segments path)) = None ->
    exists r w',
      Lookup path h w = Done r w' /\ stack (lua w') = stack (lua w) /\
      split_path path = kept_segments path /\
      (kept_segments path = [] <-> path = EmptyString) /\
      (no_NUL path -> map c_str (kept_segments path) = kept_segments path) /\
      match resolve (tables (lua w)) v (map c_str (kept_segments path)) with
      | Some x => value_of w' r = x /\ cerr w' = cerr w
      | None => m_reference r = LUA_REFNIL /\ exists msg, cerr w' = cerr w ++ [msg]
      end).
  { intros tn E1 E2 E3. unfold Lookup, bind. rewrite E1. cbn [negb]. rewrite E2.
    unfold LUA_ERROR, LuaVar_default. eexists; eexists. split; [ reflexivity | ].
    split; [ reflexivity | ]. split; [ apply split_path_kept_segments | ].
    split; [ apply kept_segments_nil | ]. split; [ apply kept_segments_c_str | ].
    rewrite E3.
    split; [ reflexivity | eexists; reflexivity ]. }
  destruct h as [ps rc ref]. destruct Hh as [Hps Href]. cbn in Hps, Href. subst ps.
  destruct ref as [ | k | n ].
  1, 3: destruct Href as [Hn ->]; try discriminate.
  - injection Hn as ->.
    eapply Hfail; [ apply IsTable_nil | apply GetTypeNameStr_nil | ].
    apply resolve_not_table. reflexivity.
  - destruct Href as (Hk & p & c & Hrc & Hp & Hc). cbn in Hrc. subst rc.
    destruct (ttype v =? LUA_TTABLE) eqn:Ett.
    2:{ eapply Hfail; [ rewrite (IsTable_live _ _ _ _ Hk), Ett; reflexivity
                      | apply (GetTypeNameStr_live _ _ _ _ Hk)
                      | apply resolve_not_table; exact Ett ]. }
    clear Hfail. destruct (ttype_table _ Ett) as (t & ->).
    assert (Ht : is_Some (tables (lua w) !! t)).
    { cbn in Hv. destruct (tables (lua w) !! t); [ eauto | discriminate ]. }
    unfold Lookup, bind. rewrite (IsTable_live _ _ _ _ Hk). rewrite Ett. cbn [negb].
    rewrite split_path_kept_segments.
    generalize (kept_segments_c_str path).
    generalize (kept_segments_nil path).
    destruct (kept_segments path) as [ | s1 [ | s2 l ] ]; intros Hnil Hcs.
    + unfold LUA_ERROR, LuaVar_default. eexists; eexists. split; [ reflexivity | ].
      split; [ reflexivity | ]. split; [ reflexivity | ].
      split; [ exact Hnil | ]. split; [ exact Hcs | ].
      split; [ reflexivity | eexists; reflexivity ].
    + destruct Ht as [tbl Ht].
      destruct (GetTableVar_spec w k (Some p) t tbl (c_str s1) Hk Ht)
        as (r & w1 & E & Hs & F & Hce & Cr).
      exists r, w1. split; [ exact E | ]. split; [ exact Hs | ]. split; [ reflexivity | ].
      split; [ exact Hnil | ]. split; [ exact Hcs | ].
      cbn [map resolve walk]. rewrite Ht.
      destruct Cr as (_ & Hval & _). auto.
    + rewrite (LuaVar_copy_ctor_spec w _ p _ c Hp Hc).
      match goal with |- context [Lookup_walk _ _ _ _ ?W] => set (w1 := W) end.
      destruct (Lookup_walk_spec path (List.last (s1 :: s2 :: l) EmptyString)
                  (removelast (s1 :: s2 :: l)) w1 k p (c + 1) t)
        as (r & w' & E & Hs & F & Hres).
      { exact Hk. } { subst w1. cbn. apply lookup_insert_eq. } { lia. }
      { exact Hcl. } { exact Ht. }
      exists r, w'. split; [ exact E | ]. split; [ exact Hs | ]. split; [ reflexivity | ].
      split; [ exact Hnil | ]. split; [ exact Hcs | ].
      change [c_str (List.last (s1 :: s2 :: l) EmptyString)]
        with (map c_str [List.last (s1 :: s2 :: l) EmptyString]) in Hres.
      rewrite <- map_app, <- app_removelast_last in Hres by discriminate.
      subst w1. cbn [lua set_heap tables cerr] in Hres.
      cbn [map] in Hres |- *. exact Hres.
Qed.

Lemma nested_tables_closed : tables_closed nested_tables.
Proof.
  unfold nested_tables.
  repeat (apply map_Forall_insert_2; [ vm_compute; reflexivity | ]).
  apply map_Forall_empty.
Qed.

(** The path "a..b" has an empty segment between its two dots.  With the
    empty segments discarded the path would lead to 42; Lookup looks the
    empty segment up as the key "" and arrives at 5.  The path "." has no
    segment that is not empty, and Lookup looks the key "" up without a
    diagnostic. *)
Lemma Lookup_keeps_an_empty_segment :
  nonempty_segments "a..b" = ["a"; "b"]%string /\
  walk nested_tables (LTable 0) ["a"; "b"]%string = Some (LInteger 42) /\
  (exists r w', Lookup "a..b" handle_1 (lookup_world false) = Done r w' /\
                value_of w' r = LInteger 5 /\ cerr w' = []) /\
  nonempty_segments "." = [] /\
  (exists r w', Lookup "." handle_1 (lookup_world false) = Done r w' /\
                value_of w' r = LInteger 7 /\ cerr w' = []).
Proof.
  split; [ vm_compute; reflexivity | ].
  split; [ vm_compute; reflexivity | ].
  split; [ eexists; eexists; split; [ vm_compute; reflexivity | split; vm_compute; reflexivity ] | ].
  split; [ vm_compute; reflexivity | ].
  eexists; eexists; split; [ vm_compute; reflexivity | split; vm_compute; reflexivity ].
Qed.

(** The theorem at the path "a..b" of the nested tables, and at a path
    whose only piece has a NUL in it: the table has that piece as a key,
    and Lookup returns what is under the key "a". *)
Lemma Lookup_through_the_empty_key :
  holds (lookup_world false) handle_1 (LTable 0) /\
  (exists r w', Lookup "a..b" handle_1 (lookup_world false) = Done r w' /\
     stack (lua w') = [LBoolean true] /\
     kept_segments "a..b" = ["a"; ""; "b"]%string /\
     value_of w' r = LInteger 5 /\ cerr w' = []) /\
  (exists r w', Lookup a_NUL_b handle_1 (NUL_key_world false) = Done r w' /\
     kept_segments a_NUL_b = [a_NUL_b] /\
     luaH_get [(LString "a", LInteger 1); (LString a_NUL_b, LInteger 2)] (LString a_NUL_b)
     = LInteger 2 /\
     value_of w' r = LInteger 1 /\ cerr w' = []).
Proof.
  assert (Hh : holds (lookup_world false) handle_1 (LTable 0)).
  { split; [ reflexivity | ]. split; [ reflexivity | ].
    exists 10, 1. repeat split; try reflexivity. }
  split; [ exact Hh | ]. split.
  - destruct (Lookup_follows_the_kept_segments "a..b" (lookup_world false) handle_1 (LTable 0)
                Hh nested_tables_closed eq_refl)
      as (r & w' & E & Hs & Hsp & Hnil & Hcs & Hres).
    exists r, w'. split; [ exact E | ]. split; [ exact Hs | ].
    split; [ vm_compute; reflexivity | ]. exact Hres.
  - assert (Hn : holds (NUL_key_world false) handle_1 (LTable 0)).
    { split; [ reflexivity | ]. split; [ reflexivity | ].
      exists 10, 1. repeat split; try reflexivity. }
    assert (Hcl : tables_closed (tables (lua (NUL_key_world false)))).
    { apply map_Forall_insert_2; [ vm_compute; reflexivity | apply map_Forall_empty ]. }
    destruct (Lookup_follows_the_kept_segments a_NUL_b (NUL_key_world false) handle_1
                (LTable 0) Hn Hcl eq_refl)
      as (r & w' & E & Hs & Hsp & Hnil & Hcs & Hres).
    exists r, w'. split; [ exact E | ]. split; [ vm_compute; reflexivity | ].
    split; [ vm_compute; reflexivity | ]. exact Hres.
Defined.

(* ================================================================= *)
(** ** Arguments of a bound native function *)

Lemma length_set_slot n x l : length (set_slot n x l) = length l.
Proof.
  revert n. induction l as [ | a l IH ]; intros n; [ destruct n; reflexivity | ].
  destruct n; cbn; [ reflexivity | ]. rewrite IH. reflexivity.
Qed.

Lemma nth_error_set_slot n x l j :
  j <> n -> nth_error (set_slot n x l) j = nth_error l j.
Proof.
  revert n j. induction l as [ | a l IH ]; intros n j Hj; [ destruct n; reflexivity | ].
  destruct n, j; cbn; try congruence. apply IH. congruence.
Qed.

Lemma slot_set_slot l i j x :
  (i < length l)%nat -> j <> i ->
  nth_error (rev (set_slot (length l - S i) x l)) j = nth_error (rev l) j.
Proof.
  intros Hi Hj. rewrite !nth_error_rev, length_set_slot.
  destruct (j <? length l)%nat eqn:E; [ | reflexivity ].
  apply Nat.ltb_lt in E. apply nth_error_set_slot. lia.
Qed.

Lemma grows_refl w : grows w w.
Proof. split; auto. Qed.

Lemma created_holds w w' h x :
  created w w' h x -> frame w w' -> holds w' h x.
Proof.
  intros (Hs & _ & _ & _ & Hcase) F. unfold holds.
  rewrite (frame_state _ _ F). split; [ exact Hs | ].
  destruct Hcase as [(-> & Hn & _) | (_ & j & q & -> & Hq & _ & Hq1 & _ & Hj1)].
  - rewrite Hn. cbn. auto.
  - split; [ exact Hj1 | ]. exists q, 1. repeat split; auto; lia.
Qed.

Lemma created_fresh w w' h x : created w w' h x -> fresh_handle w w' h.
Proof.
  intros (Hs & _ & _ & _ & [(_ & Hn & _) | (_ & j & q & _ & Hq & Hq0 & Hq1 & _)]).
  - left. exact Hn.
  - right. exists q. auto.
Qed.

Lemma created_grows w w' h x : created w w' h x -> grows w w'.
Proof. intros (_ & _ & Hh & Hr & _). split; assumption. Qed.

Section Arguments.
Context `{LuaRuntime}.

Lemma Get_as_spec t w i v :
  slot w i = Some v ->
  exists nv w',
    Get_as t (Some (state_obj w)) (Z.of_nat i + 1) w = Done nv w' /\
    length (stack (lua w')) = length (stack (lua w)) /\
    (forall j, j <> i -> slot w' j = slot w j) /\
    frame w w' /\ grows w w' /\
    ((forall it, t <> CInteger it) -> cerr w' = cerr w) /\
    (forall h, nv = NVar h -> fresh_handle w w' h) /\
    marshalled t v w' nv.
Proof.
  unfold slot. open_world w. intros Hslot.
  assert (Hpos : (0 <? Z.of_nat i + 1) = true) by (apply Z.ltb_lt; lia).
  assert (Hidx : Z.to_nat (Z.of_nat i + 1 - 1) = i) by lia.
  assert (Hidx' : Z.to_nat (Z.of_nat i + 1) = S i) by lia.
  assert (Hlen : (i < length stk)%nat).
  { rewrite <- length_rev. apply nth_error_Some. congruence. }
  destruct stk as [ | top stk' ]; [ cbn in Hlen; lia | ].
  set (stk := top :: stk') in *.
  destruct t; unfold Get_as.
  - eexists; eexists. split; [ run_get Hpos Hidx Hslot; reflexivity | ].
    done_get. destruct v as [ | [ | ] | | | | | | | ]; reflexivity.
  - destruct (tointeger v) as [ n | ] eqn:Eint.
    + eexists; eexists. split; [ run_get Hpos Hidx Hslot; rewrite Eint; steps; reflexivity | ].
      done_get. cbn. rewrite Eint. reflexivity.
    + assert (Hm : marshalled (CInteger t) v
                     (mkWorld (mkState stk reg tabs blk upv) so dflt hp vs ce chk inv)
                     (NInt t 0)) by (cbn; rewrite Eint; reflexivity).
      destruct t as [ bits sg | ].
      * eexists; eexists.
        split; [ run_get Hpos Hidx Hslot; rewrite Eint; steps; reflexivity | ].
        done_get; first [ exact Hm | intros Hit; destruct (Hit _ eq_refl) ].
      * destruct chk.
        -- destruct (tonumber v) as [ x | ] eqn:Enum.
           ++ destruct (float_is_integral x) eqn:Efl.
              ** eexists; eexists.
                 split; [ run_get Hpos Hidx Hslot;
                          rewrite ?Eint; run_get Hpos Hidx Hslot;
                          rewrite ?Enum; run_get Hpos Hidx Hslot;
                          rewrite ?Enum; run_get Hpos Hidx Hslot;
                          rewrite ?Efl; run_get Hpos Hidx Hslot; reflexivity | ].
                 done_get; first [ exact Hm | intros Hit; destruct (Hit _ eq_refl) ].
              ** eexists; eexists.
                 split; [ run_get Hpos Hidx Hslot;
                          rewrite ?Eint; run_get Hpos Hidx Hslot;
                          rewrite ?Enum; run_get Hpos Hidx Hslot;
                          rewrite ?Enum; run_get Hpos Hidx Hslot;
                          rewrite ?Efl; run_get Hpos Hidx Hslot; reflexivity | ].
                 done_get; first [ exact Hm | intros Hit; destruct (Hit _ eq_refl) ].
           ++ eexists; eexists.
              split; [ run_get Hpos Hidx Hslot;
                       rewrite ?Eint; run_get Hpos Hidx Hslot;
                       rewrite ?Enum; run_get Hpos Hidx Hslot; reflexivity | ].
              done_get; first [ exact Hm | intros Hit; destruct (Hit _ eq_refl) ].
        -- eexists; eexists.
           split; [ run_get Hpos Hidx Hslot; rewrite ?Eint; run_get Hpos Hidx Hslot;
                    reflexivity | ].
           done_get; first [ exact Hm | intros Hit; destruct (Hit _ eq_refl) ].
  - eexists; eexists. split; [ run_get Hpos Hidx Hslot; reflexivity | ].
    done_get. cbn. destruct (tonumber v); reflexivity.
  - destruct v.
    4, 5: eexists; eexists;
      (split; [ run_get Hpos Hidx Hslot; rewrite ?Hidx'; reflexivity | ]);
      done_get; refold_set_slot;
      [ apply length_set_slot
      | intros j Hj; apply slot_set_slot; [ exact Hlen | exact Hj ]
      | reflexivity ].
    all: eexists; eexists; (split; [ run_get Hpos Hidx Hslot; reflexivity | ]);
      done_get; reflexivity.
  - eexists; eexists. split; [ run_get Hpos Hidx Hslot; reflexivity | ].
    done_get. reflexivity.
  - eexists; eexists. split; [ run_get Hpos Hidx Hslot; reflexivity | ].
    done_get. reflexivity.
  - eexists; eexists. split; [ run_get Hpos Hidx Hslot; reflexivity | ].
    done_get. reflexivity.
  - repeat (progress (step_api; refold_nth; rewrite ?Hpos, ?Hidx, ?Hslot)).
    use_create CreateFromStack_spec.
    eexists; eexists. split; [ reflexivity | ].
    done_get.
    + eapply created_grows. exact Cr.
    + intros h0 [= <-]. eapply created_fresh. exact Cr.
    + exists h. split; [ reflexivity | ].
      eapply created_holds; [ exact Cr | repeat split ].
Qed.
Lemma GetDefault_as_spec t w :
  GetDefault_as t w = Done (default_value t (s_pDefaultLuaState w)) w.
Proof. destruct t; reflexivity. Qed.

Lemma grows_trans w1 w2 w3 : grows w1 w2 -> grows w2 w3 -> grows w1 w3.
Proof. intros [a1 a2] [b1 b2]. split; eauto. Qed.

Lemma holds_grows w w' h v : frame w w' -> grows w w' -> holds w h v -> holds w' h v.
Proof.
  intros F [Gh Gr] [Hs Hh]. unfold holds. rewrite (frame_state _ _ F).
  split; [ exact Hs | ].
  destruct (m_reference h) as [ | j | j ]; try exact Hh.
  destruct Hh as (Hk & p & c & Hp & Hc & Hr).
  split; [ auto | ]. exists p, c. auto.
Qed.

Lemma marshalled_grows t v w w' nv :
  frame w w' -> grows w w' -> marshalled t v w nv -> marshalled t v w' nv.
Proof.
  intros F G. destruct t; cbn; try (intros E; exact E).
  intros (h & E & Hh). exists h. split; [ exact E | ].
  eapply holds_grows; eassumption.
Qed.

Lemma slot_None_length w k : slot w k = None <-> (length (stack (lua w)) <= k)%nat.
Proof. unfold slot. rewrite nth_error_None, length_rev. reflexivity. Qed.

Lemma fresh_handle_later w w1 w2 h :
  grows w1 w2 -> fresh_handle w w1 h -> fresh_handle w w2 h.
Proof.
  intros [Gh _] [Hn | (q & Hs & Hq & Hq0 & Hq1)]; [ left; exact Hn | ].
  right. exists q. auto.
Qed.

Lemma fresh_handle_earlier w w1 w2 h :
  frame w w1 -> grows w w1 -> fresh_handle w1 w2 h -> fresh_handle w w2 h.
Proof.
  intros F [Gh _] [Hn | (q & Hs & Hq & Hq0 & Hq1)]; [ left; exact Hn | ].
  right. exists q. rewrite <- (frame_state _ _ F).
  repeat split; auto.
  destruct (heap w !! q) as [ c | ] eqn:E; [ | reflexivity ].
  rewrite (Gh _ _ E) in Hq0. discriminate.
Qed.

Lemma fresh_handles_independent w w1 w2 h h' :
  fresh_handle w w1 h -> fresh_handle w1 w2 h' -> independent h h'.
Proof.
  intros [Hn | (q & _ & Hq & _ & Hq1)] [Hn' | (q' & _ & Hq' & Hq0' & _)].
  1, 2: left; exact Hn.
  - right; left; exact Hn'.
  - right; right. rewrite Hq, Hq'. intros [= ->]. congruence.
Qed.

Lemma default_value_fresh t w w' h :
  default_value t (s_pDefaultLuaState w) = NVar h -> fresh_handle w w' h.
Proof. destruct t; try discriminate. intros [= <-]. left. reflexivity. Qed.

(** ProcessArg from tuple position [k]; [d] is 0 for BuildArguments and 1
    for BuildArgumentsWithObj, where the tuple holds the object first. *)
Lemma ProcessArg_spec (d : Z) : forall Args k w,
  exists vs w',
    ProcessArg (Some (state_obj w)) (Z.of_nat k + d) (Z.of_nat k + 1) Args
               (Z.of_nat (length (stack (lua w))) + d) w = Done vs w' /\
    length (stack (lua w')) = length (stack (lua w)) /\
    frame w w' /\ grows w w' /\
    ((forall it, ~ In (CInteger it) Args) -> cerr w' = cerr w) /\
    length vs = length Args /\
    (forall h, In (NVar h) vs -> fresh_handle w w' h) /\ separate vs /\
    forall i t, nth_error Args i = Some t ->
      match slot w (k + i) with
      | Some v => exists nv, nth_error vs i = Some nv /\ marshalled t v w' nv
      | None => nth_error vs i = Some (default_value t (s_pDefaultLuaState w))
      end.
Proof.
  induction Args as [ | t Args IH ]; intros k w.
  - exists [], w. split; [ reflexivity | ]. split; [ reflexivity | ].
    split; [ apply frame_refl | ]. split; [ apply grows_refl | ].
    split; [ reflexivity | ]. split; [ reflexivity | ].
    split; [ intros h [] | ]. split; [ exact I | ].
    intros i t Hi. destruct i; discriminate.
  - cbn [ProcessArg].
    assert (HS : Z.of_nat (S k) = Z.of_nat k + 1) by lia.
    replace (Z.of_nat k + d + 1) with (Z.of_nat k + 1 + d) by lia.
    destruct (slot w k) as [ v | ] eqn:Hslot.
    + assert (Hlt : (Z.of_nat k + d <? Z.of_nat (length (stack (lua w))) + d) = true).
      { apply Z.ltb_lt. apply Zplus_lt_compat_r. apply inj_lt. rewrite <- length_rev.
        apply nth_error_Some. unfold slot in Hslot. congruence. }
      rewrite Hlt.
      destruct (Get_as_spec t w k v Hslot)
        as (nv & w1 & E1 & Hl1 & Hs1 & F1 & G1 & Hc1 & Hf1 & Hm1).
      unfold bind at 1. rewrite E1. cbv beta iota.
      destruct (IH (S k) w1)
        as (vs & w2 & E2 & Hl2 & F2 & G2 & Hc2 & Hlen2 & Hfr2 & Hsep2 & Hvs).
      rewrite HS, Hl1, (frame_state _ _ F1) in E2.
      unfold bind, ret. rewrite E2.
      exists (nv :: vs), w2. split; [ reflexivity | ].
      split; [ congruence | ]. split; [ eapply frame_trans; eassumption | ].
      split; [ eapply grows_trans; eassumption | ].
      split; [ | split; [ cbn; congruence | ] ].
      * intros Hno. rewrite Hc2, Hc1; [ reflexivity | | ].
        -- intros it ->. apply (Hno it). left. reflexivity.
        -- intros it Hin. apply (Hno it). right. exact Hin.
      * split; [ | split ].
        -- intros h [-> | Hin].
           ++ eapply fresh_handle_later; [ exact G2 | ]. apply Hf1. reflexivity.
           ++ eapply fresh_handle_earlier; [ exact F1 | exact G1 | ]. apply Hfr2. exact Hin.
        -- destruct nv; try exact Hsep2. split; [ | exact Hsep2 ].
           intros h' Hin. eapply fresh_handles_independent; [ apply Hf1; reflexivity | ].
           apply Hfr2. exact Hin.
        -- intros [ | i ] t' Hi.
           ++ injection Hi as <-. rewrite Nat.add_0_r, Hslot.
              exists nv. split; [ reflexivity | ].
              eapply marshalled_grows; eassumption.
           ++ cbn [nth_error] in Hi |- *. specialize (Hvs i t' Hi).
              replace (k + S i)%nat with (S k + i)%nat by lia.
              rewrite <- (Hs1 (S k + i)%nat) by lia.
              destruct F1 as (_ & _ & _ & _ & Fd & _). rewrite <- Fd. exact Hvs.
    + assert (Hlt : (Z.of_nat k + d <? Z.of_nat (length (stack (lua w))) + d) = false).
      { apply Z.ltb_ge. apply Zplus_le_compat_r. apply inj_le.
        apply slot_None_length. exact Hslot. }
      rewrite Hlt. unfold bind at 1. rewrite GetDefault_as_spec. cbv beta iota.
      destruct (IH (S k) w)
        as (vs & w2 & E2 & Hl2 & F2 & G2 & Hc2 & Hlen2 & Hfr2 & Hsep2 & Hvs).
      rewrite HS in E2. unfold bind, ret. rewrite E2.
      eexists; exists w2. split; [ reflexivity | ].
      split; [ exact Hl2 | ]. split; [ exact F2 | ]. split; [ exact G2 | ].
      split; [ | split; [ cbn; congruence | ] ].
      * intros Hno. apply Hc2. intros it Hin. apply (Hno it). right. exact Hin.
      * split; [ | split ].
        -- intros h [E | Hin]; [ | apply Hfr2; exact Hin ].
           eapply default_value_fresh. exact E.
        -- destruct (default_value t (s_pDefaultLuaState w)) eqn:Ed; try exact Hsep2.
           split; [ | exact Hsep2 ]. intros h' Hin.
           destruct (default_value_fresh _ _ w _ Ed) as [Hn | (q & _ & _ & _ & Hq1)].
           ++ left. exact Hn.
           ++ destruct t; try discriminate. injection Ed as <-. left. reflexivity.
        -- intros [ | i ] t' Hi.
           ++ injection Hi as <-. rewrite Nat.add_0_r, Hslot. reflexivity.
           ++ cbn [nth_error] in Hi |- *. specialize (Hvs i t' Hi).
              replace (k + S i)%nat with (S k + i)%nat by lia. exact Hvs.
Qed.

Lemma GetState_ok w : GetState (Some (state_obj w)) w = Done tt w.
Proof. unfold GetState. rewrite Z.eqb_refl. reflexivity. Qed.

Lemma lua_settop_0 w :
  lua_settop 0 w = Done tt (set_lua (set_stack [] (lua w)) w).
Proof.
  unfold lua_settop, bind, getL, putL, ret. cbn [Z.leb Z.compare Z.to_nat].
  cbv beta iota zeta. rewrite Nat.sub_0_r, drop_all. reflexivity.
Qed.












End Arguments.



(* ================================================================= *)
(** ** Bound member functions *)

Section MemberCall.
Context `{LuaRuntime} `{NativeCode}.

(** The traceback of the checked build is pushed, read and popped. *)
Lemma debug_traceback_ok w : debug_traceback w = Done tt w.
Proof.
  open_world w. destruct chk; [ | steps; reflexivity ].
  unfold debug_traceback, GetCppStateFromCState.
  repeat (progress step).
  assert (Htop : forall x, (0 <? Z.of_nat (length (x :: stk))) = true).
  { intros x. apply Z.ltb_lt. cbn [length]. lia. }
  rewrite Htop. repeat (progress step). reflexivity.
Qed.

Lemma handle_ok_fresh w w' h : frame w w' -> fresh_handle w w' h -> handle_ok w' h.
Proof.
  intros F [Hn | (q & Hs & Hq & _ & Hq1)]; [ left; exact Hn | ].
  right. exists q, 1. rewrite (frame_state _ _ F). repeat split; auto; lia.
Qed.

(** The LuaVar arguments are released one after the other. *)
Lemma destroy_arguments_spec : forall vs w,
  (forall h, In (NVar h) vs -> handle_ok w h) -> separate vs ->
  exists w', destroy_arguments vs w = Done tt w' /\
    stack (lua w') = stack (lua w) /\ frame w w' /\ cerr w' = cerr w.
Proof.
  induction vs as [ | nv vs IH ]; intros w Hok Hsep.
  - exists w. split; [ reflexivity | ]. split; [ reflexivity | ].
    split; [ apply frame_refl | reflexivity ].
  - assert (Hrest : forall h, In (NVar h) vs -> handle_ok w h).
    { intros h Hin. apply Hok. right. exact Hin. }
    destruct nv as [ | | | | | | | h ]; cbn [destroy_arguments separate] in *;
      try (apply IH; assumption).
    destruct Hsep as [Hind Hsep].
    destruct (LuaVar_dtor_spec w h (Hok h (or_introl eq_refl))) as (w1 & E1 & R1).
    destruct (IH w1) as (w2 & E2 & Hs2 & F2 & Hc2).
    { intros h' Hin. eapply handle_ok_after_release; [ exact R1 | | ]; auto. }
    { exact Hsep. }
    exists w2. unfold bind. rewrite E1. split; [ exact E2 | ].
    destruct R1 as (Hs1 & F1 & Hc1 & _).
    split; [ congruence | ]. split; [ eapply frame_trans; eassumption | congruence ].
Qed.

(** Call for a member function: the arguments are built from the stack,
    the stack is cleared, the native function is applied to the object and
    the arguments, and the arguments are destroyed. *)
Lemma Call_member_spec (sig : Signature) (pObj pFunc : Z) (w : World) :
  exists vs w1 w2,
    length vs = length (sig_args sig) /\
    (forall i t, nth_error (sig_args sig) i = Some t ->
       match slot w i with
       | Some v => exists nv, nth_error vs i = Some nv /\ marshalled t v w1 nv
       | None => nth_error vs i = Some (default_value t (s_pDefaultLuaState w))
       end) /\
    stack (lua w1) = [] /\ invoked w1 = invoked w /\
    invoked w2 = invoked w ++ [(pFunc, NPointer pObj :: vs)] /\
    stack (lua w2) = [] /\ cerr w2 = cerr w1 /\
    Call_member sig pObj pFunc w
    = push_result (Some (state_obj w)) sig (native_apply pFunc (NPointer pObj :: vs)) w2.
Proof.
  destruct (ProcessArg_spec 1 (sig_args sig) 0 w)
    as (vs & w0 & E & Hl & F & G & Hc & Hlen & Hfr & Hsep & Hvs).
  change (Z.of_nat 0 + 1) with 1 in E.
  set (w1 := set_lua (set_stack [] (lua w0)) w0).
  set (wi := set_invoked (invoked w1 ++ [(pFunc, NPointer pObj :: vs)]) w1).
  destruct (destroy_arguments_spec (NPointer pObj :: vs) wi) as (w2 & E2 & Hs2 & F2 & Hc2).
  { intros h [Hin | Hin]; [ discriminate | ].
    exact (handle_ok_fresh w w0 h F (Hfr h Hin)). }
  { exact Hsep. }
  exists vs, w1, w2.
  assert (Fi : invoked w0 = invoked w) by (destruct F as (_ & _ & _ & _ & _ & _ & _ & Fi); exact Fi).
  split; [ exact Hlen | ]. split.
  { intros i t Hi. specialize (Hvs i t Hi). cbn [Nat.add] in Hvs.
    destruct (slot w i); [ | exact Hvs ].
    destruct Hvs as (nv & Hnv & Hm). exists nv. split; [ exact Hnv | ].
    eapply marshalled_grows; [ | | exact Hm ]; [ repeat split | split; auto ]. }
  split; [ reflexivity | ]. split; [ exact Fi | ].
  split; [ destruct F2 as (_ & _ & _ & _ & _ & _ & _ & Fi2); rewrite Fi2; cbn;
           rewrite Fi; reflexivity | ].
  split; [ rewrite Hs2; reflexivity | ]. split; [ rewrite Hc2; reflexivity | ].
  unfold Call_member, bind at 1, GetCppStateFromCState.
  unfold bind at 1, BuildArgumentsWithObj, bind at 1. rewrite GetState_ok. cbv beta iota.
  unfold bind at 1, lua_gettop, bind at 1, getL, ret. cbv beta iota.
  unfold bind at 1. rewrite E. cbv beta iota.
  unfold bind at 1. rewrite lua_settop_0. cbv beta iota.
  unfold bind at 1, luastl_apply. cbv beta iota.
  unfold bind at 1. fold w1. fold wi. rewrite E2. cbv beta iota.
  rewrite <- (frame_state _ _ F). reflexivity.
Qed.

(** lua_remove (L, 1) moves every argument one slot down. *)
Lemma slot_after_remove (l : list TValue) r m i :
  rev l = r :: m -> nth_error (rev (delete (length l - 1)%nat l)) i = nth_error m i.
Proof.
  intros Hrev. assert (El : l = rev m ++ [r]).
  { rewrite <- (rev_involutive l), Hrev. reflexivity. }
  subst l. rewrite length_app. cbn [length].
  replace (length (rev m) + 1 - 1)%nat with (length (rev m)) by lia.
  rewrite delete_middle, app_nil_r, rev_involutive. reflexivity.
Qed.

(** C7: a call of a member function bound with a dynamically resolved
    instance, in a frame whose first upvalue is the block that holds the
    member function pointer.  When the first argument is missing or is not
    a table, or its __object field is neither a full nor a light userdata,
    the trampoline reports one diagnostic and returns 0 without invoking
    anything.  Otherwise the native function is invoked once, on the
    pointer lua_touserdata returns for the __object field (the pointer a
    light userdata stores; for a full userdata the address of its block,
    whatever the block holds) followed by one value for each declared
    parameter: parameter i gets what the marshalling layer makes of the
    argument that follows the receiver at distance i, or the default of its
    type when that argument was not passed.  The stack is empty afterwards
    and the result of the native function is pushed; a function that
    returns nothing gives 0 results. *)
Theorem member_call_takes_a_userdata_receiver (sig : Signature) (w : World)
    (b : positive) (pFunc : Z) :
  nth_error (upvalues (lua w)) 0 = Some (LUserData b) ->
  blocks (lua w) !! b = Some pFunc ->
  (forall t, slot w 0 = Some (LTable t) -> is_Some (tables (lua w) !! t)) ->
  match receiver w with
  | None =>
      exists w' msg,
        CallBoundMemberFunction sig w = Done 0 w' /\
        cerr w' = cerr w ++ [msg] /\ invoked w' = invoked w
  | Some pObj =>
      exists vs w1 w2,
        length vs = length (sig_args sig) /\
        (forall i t, nth_error (sig_args sig) i = Some t ->
           match slot w (S i) with
           | Some v => exists nv, nth_error vs i = Some nv /\ marshalled t v w1 nv
           | None => nth_error vs i = Some (default_value t (s_pDefaultLuaState w))
           end) /\
        invoked w2 = invoked w ++ [(pFunc, NPointer pObj :: vs)] /\
        stack (lua w2) = [] /\
        CallBoundMemberFunction sig w
        = push_result (Some (state_obj w)) sig (native_apply pFunc (NPointer pObj :: vs)) w2 /\
        (sig_ret sig = None -> CallBoundMemberFunction sig w = Done 0 w2) /\
        exists t tbl,
          slot w 0 = Some (LTable t) /\ tables (lua w) !! t = Some tbl /\
          match luaH_get tbl (LString "__object") with
          | LLightUserData p => pObj = p
          | LUserData u => pObj = Z.pos u
          | _ => False
          end
  end.
Proof.
  intros Hup Hblk Htab.
  unfold CallBoundMemberFunction.
  rewrite (bind_Done _ _ w w tt (debug_traceback_ok w)).
  unfold receiver, slot in *. open_world w.
  destruct upv as [ | u0 ups ]; [ discriminate | ]. injection Hup as ->.
  destruct (rev stk) as [ | r m ] eqn:Hrev; cbn [nth_error] in *.
  - eexists; eexists. split; [ repeat (progress (step; rewrite ?Hrev)); reflexivity | ].
    split; reflexivity.
  - assert (Hlen : (1 <=? Z.of_nat (length stk)) = true).
    { apply Z.leb_le. rewrite <- length_rev, Hrev. cbn [length]. lia. }
    destruct (ttype r =? LUA_TTABLE) eqn:Er.
    2:{ replace (match r with LTable t => _ | _ => None end) with (@None Z)
          by (destruct r; try reflexivity; discriminate).
        cbv beta iota. eexists; eexists.
        split; [ repeat (progress (step; rewrite ?Hrev)); rewrite Er;
                 repeat (progress step); reflexivity | ].
        split; reflexivity. }
    destruct (ttype_table _ Er) as [t ->]. clear Er.
    destruct (Htab t eq_refl) as [tbl Ht]. rewrite Ht. clear Htab.
    match goal with |- context [ex (fun w' => ex (fun msg => ?X = Done 0 w' /\ _))] =>
      set (out := X) end.
    destruct (luaH_get tbl (LString "__object")) as [ | | p | | | | | | u ] eqn:Eobj.
    all: set (w0 := mkWorld (mkState (delete (length stk - 1)%nat stk) reg tabs blk
                                       (LUserData b :: ups)) so dflt hp vs ce chk inv).
    3: assert (Eout : out = Call_member sig p pFunc w0)
      by (subst out w0;
          repeat (progress (step; try unfold read_block; rewrite ?Hrev, ?Ht, ?Eobj, ?Hlen, ?Hblk)); reflexivity).
    9: assert (Eout : out = Call_member sig (Z.pos u) pFunc w0)
      by (subst out w0;
          repeat (progress (step; try unfold read_block; rewrite ?Hrev, ?Ht, ?Eobj, ?Hlen, ?Hblk)); reflexivity).
    1, 2, 4, 5, 6, 7, 8: (eexists; eexists;
      split; [ subst out;
               repeat (progress (step; try unfold read_block; rewrite ?Hrev, ?Ht, ?Eobj, ?Hlen, ?Hblk));
               reflexivity | ]; split; reflexivity).
    all: rewrite Eout; clear Eout out;
      match goal with |- context [Call_member _ ?po _ _] =>
        destruct (Call_member_spec sig po pFunc w0)
          as (args & w1 & w2 & Hlen' & Hargs & Hs1 & Hi1 & Hi2 & Hs2 & Hc2 & E) end;
      exists args, w1, w2;
      (split; [ exact Hlen' | ]);
      (split; [ intros i ty Hi; specialize (Hargs i ty Hi);
                unfold slot in Hargs; subst w0; cbn [lua stack] in Hargs;
                rewrite (slot_after_remove stk _ _ i Hrev) in Hargs; exact Hargs | ]);
      (split; [ exact Hi2 | ]); (split; [ exact Hs2 | ]);
      (split; [ exact E | ]);
      (split; [ intros Hvoid; rewrite E; unfold push_result; rewrite Hvoid; reflexivity | ]);
      exists t, tbl; (split; [ reflexivity | ]); (split; [ exact Ht | ]);
      rewrite Eobj; reflexivity.
Qed.
End MemberCall.

(** A receiver whose __object field is a light userdata passes the check:
    the member function is invoked on that pointer, and nothing is
    reported. *)
Lemma a_light_userdata_receiver_is_accepted :
  exists w',
    @CallBoundMemberFunction decimal_runtime example_natives (mkSig None [CInteger int32])
      (receiver_world (LLightUserData 4242) false) = Done 0 w' /\
    invoked w' = [(2, [NPointer 4242; NInt int32 5])] /\ cerr w' = [].
Proof.
  eexists. split; [ vm_compute; reflexivity | ]. split; reflexivity.
Qed.

(** The theorem for a receiver whose __object field is a full userdata:
    block 3 holds the pointer 777, and the member function is invoked on
    the address of the block. *)
Lemma member_call_on_a_wrapped_object :
  blocks (lua (receiver_world (LUserData 3) false)) !! 3%positive = Some 777 /\
  exists vs w2,
    @CallBoundMemberFunction decimal_runtime example_natives (mkSig None [CInteger int32])
      (receiver_world (LUserData 3) false) = Done 0 w2 /\
    invoked w2 = [(2, NPointer 3 :: vs)] /\
    nth_error vs 0 = Some (NInt int32 5) /\ stack (lua w2) = [].
Proof.
  split; [ vm_compute; reflexivity | ].
  assert (Hup : nth_error (upvalues (lua (receiver_world (LUserData 3) false))) 0
                = Some (LUserData 1)) by reflexivity.
  assert (Hblk : blocks (lua (receiver_world (LUserData 3) false)) !! 1%positive = Some 2)
    by (vm_compute; reflexivity).
  assert (Htab : forall t, slot (receiver_world (LUserData 3) false) 0 = Some (LTable t) ->
                           is_Some (tables (lua (receiver_world (LUserData 3) false)) !! t)).
  { intros t [= <-]. exists [(LString "__object", LUserData 3)]. vm_compute. reflexivity. }
  pose proof (@member_call_takes_a_userdata_receiver decimal_runtime example_natives
                (mkSig None [CInteger int32]) _ _ _ Hup Hblk Htab) as Hthm.
  assert (Hr : receiver (receiver_world (LUserData 3) false) = Some 3)
    by (vm_compute; reflexivity).
  rewrite Hr in Hthm.
  destruct Hthm as (vs & w1 & w2 & Hlen & Hargs & Hinv & Hstk & _ & Hvoid & _).
  exists vs, w2. split; [ apply Hvoid; reflexivity | ].
  split; [ exact Hinv | ]. split; [ | exact Hstk ].
  destruct (Hargs 0%nat (CInteger int32) eq_refl) as (nv & Hnv & Hm).
  rewrite Hnv. cbn in Hm. rewrite Hm. reflexivity.
Defined.

(* ================================================================= *)
(** * Further properties of the code *)

(** ** The lifetime of a reference *)

(** ClearRef on a handle that owns a reference: the count of its RefCount
    object goes down by one, and the owner that brings it to zero frees the
    registry slot and the RefCount object. *)
Lemma ClearRef_live (w : World) (k : positive) (p c : Z) :
  heap w !! p = Some c -> 0 < c < 2 ^ 64 ->
  ClearRef (mkVar (Some (state_obj w)) (Some p) (Z.pos k)) w
  = Done (mkVar (Some (state_obj w)) None LUA_REFNIL)
         (if c =? 1
          then set_heap (delete p (heap w))
                 (set_lua (set_registry (delete k (registry (lua w))) (lua w)) w)
          else set_heap (<[p := c - 1]> (heap w)) w).
Proof.
  intros Hp Hc. open_world w.
  assert (Hpos : (0 <? c) = true) by (apply Z.ltb_lt; lia).
  assert (Hwrap : wrap_unsigned 64 (c - 1) = c - 1) by (apply wrap_unsigned_small; lia).
  destruct (c =? 1) eqn:E1.
  - apply Z.eqb_eq in E1. subst c.
    destruct chk; repeat (progress (step; rewrite ?Hp, ?lookup_insert_eq));
      rewrite delete_insert_eq; reflexivity.
  - assert (Hnz : (c - 1 =? 0) = false) by (apply Z.eqb_neq; apply Z.eqb_neq in E1; lia).
    destruct chk; repeat (progress (step; rewrite ?Hp, ?Hpos, ?Hwrap, ?Hnz)); reflexivity.
Qed.

(** X1: the destructor of a handle whose RefCount object counts [c] owners
    returns in both builds without touching the operand stack or the
    diagnostic stream.  When other owners remain ([c] > 1) it only lowers
    the count; the last owner ([c] = 1) removes the registry slot and frees
    the RefCount object. *)
Theorem the_last_owner_frees_the_reference (w : World) (k : positive) (p c : Z) :
  heap w !! p = Some c -> 0 < c < 2 ^ 64 ->
  LuaVar_dtor (mkVar (Some (state_obj w)) (Some p) (Z.pos k)) w
  = Done tt
         (if c =? 1
          then set_heap (delete p (heap w))
                 (set_lua (set_registry (delete k (registry (lua w))) (lua w)) w)
          else set_heap (<[p := c - 1]> (heap w)) w).
Proof.
  intros Hp Hc. unfold LuaVar_dtor.
  rewrite (bind_Done _ _ _ _ _ (ClearRef_live w k p c Hp Hc)). reflexivity.
Qed.

(** The theorem at the only handle of a value, and at one of two owners. *)
Lemma the_only_handle_destroyed :
  LuaVar_dtor handle_1 (one_handle_world true)
  = Done tt (mkWorld (mkState [] (delete 1%positive {[ 1%positive := LInteger 7 ]}) ∅ ∅ [])
               the_state (Some the_state) (delete 10 {[ 10 := 1 ]}) ∅ [] true []).
Proof.
  exact (the_last_owner_frees_the_reference (one_handle_world true) 1%positive 10 1
           eq_refl ltac:(lia)).
Defined.

(** X2: copy-constructing a handle and destroying the copy leaves the
    whole world as it was: the count goes up by one and down again, and
    the registry slot is kept. *)
Theorem copy_and_destroy_changes_nothing (w : World) (k : positive) (p c : Z) :
  heap w !! p = Some c -> 0 < c < 2 ^ 64 - 1 ->
  let h := mkVar (Some (state_obj w)) (Some p) (Z.pos k) in
  (do copy <- LuaVar_copy_ctor h; LuaVar_dtor copy) w = Done tt w.
Proof.
  intros Hp Hc h. subst h.
  unfold bind at 1. rewrite (LuaVar_copy_ctor_spec w _ p _ c Hp Hc). cbv beta iota.
  unfold LuaVar_dtor, bind.
  match goal with |- context [ClearRef _ ?W] =>
    pose proof (ClearRef_live W k p (c + 1)) as E end.
  cbn [state_obj set_heap heap lua] in E.
  rewrite E by (rewrite ?lookup_insert_eq; auto; lia). clear E.
  replace (c + 1 =? 1) with false by (symmetry; apply Z.eqb_neq; lia).
  unfold ret. f_equal. destruct w as [L so dflt hp vs ce chk inv]. cbn in *.
  unfold set_heap; cbn. f_equal.
  rewrite insert_insert_eq. replace (c + 1 - 1) with c by lia.
  apply insert_id. exact Hp.
Qed.

Lemma copy_and_destroy_the_only_handle :
  (do copy <- LuaVar_copy_ctor handle_1; LuaVar_dtor copy) (one_handle_world true)
  = Done tt (one_handle_world true).
Proof.
  exact (copy_and_destroy_changes_nothing (one_handle_world true) 1%positive 10 1
           eq_refl ltac:(lia)).
Defined.

(** X3: a value outlives the handle it was created through.  After a copy
    is made and the original is destroyed, the registry slot still holds the
    value and the RefCount object counts one owner; destroying the copy then
    frees both.  The operand stack is the same throughout. *)
Theorem the_value_outlives_the_first_owner (w : World) (k : positive) (p : Z) (v : TValue) :
  registry (lua w) !! k = Some v -> heap w !! p = Some 1 ->
  let h := mkVar (Some (state_obj w)) (Some p) (Z.pos k) in
  exists w1,
    (do copy <- LuaVar_copy_ctor h; run LuaVar_dtor h; ret copy) w = Done h w1 /\
    registry (lua w1) !! k = Some v /\ heap w1 !! p = Some 1 /\
    stack (lua w1) = stack (lua w) /\
    exists w2,
      LuaVar_dtor h w1 = Done tt w2 /\
      registry (lua w2) !! k = None /\ heap w2 !! p = None /\
      stack (lua w2) = stack (lua w).
Proof.
  intros Hk Hp h. subst h.
  unfold bind at 1. rewrite (LuaVar_copy_ctor_spec w _ p _ 1 Hp ltac:(lia)). cbv beta iota.
  unfold LuaVar_dtor, bind.
  match goal with |- context [ClearRef _ ?W] =>
    pose proof (ClearRef_live W k p (1 + 1)) as E end.
  cbn [state_obj set_heap heap lua] in E.
  rewrite E by (rewrite ?lookup_insert_eq; auto; lia). clear E.
  change (1 + 1 =? 1) with false. cbv beta iota. unfold ret.
  eexists. split; [ reflexivity | ].
  cbn [lua set_heap heap registry stack]. rewrite insert_insert_eq.
  split; [ exact Hk | ]. split; [ apply lookup_insert_eq | ]. split; [ reflexivity | ].
  match goal with |- context [ClearRef _ ?W] =>
    pose proof (ClearRef_live W k p 1) as E end.
  cbn [state_obj set_heap heap lua] in E.
  rewrite E by (rewrite ?lookup_insert_eq; auto; lia). clear E.
  change (1 =? 1) with true. cbv beta iota.
  eexists. split; [ reflexivity | ].
  cbn. rewrite !lookup_delete_eq. auto.
Qed.

Lemma the_only_handle_copied_and_destroyed :
  exists w1,
    (do copy <- LuaVar_copy_ctor handle_1; run LuaVar_dtor handle_1; ret copy)
      (one_handle_world false) = Done handle_1 w1 /\
    registry (lua w1) !! 1%positive = Some (LInteger 7) /\ heap w1 !! 10 = Some 1 /\
    stack (lua w1) = [] /\
    exists w2,
      LuaVar_dtor handle_1 w1 = Done tt w2 /\
      registry (lua w2) !! 1%positive = None /\ heap w2 !! 10 = None /\
      stack (lua w2) = [].
Proof.
  exact (the_value_outlives_the_first_owner (one_handle_world false) 1%positive 10
           (LInteger 7) eq_refl eq_refl).
Defined.

Lemma owner_handle_ok w h : owner w h -> handle_ok w h.
Proof.
  intros (Hs & [(Hn & _) | (k & p & c & Hk & Hp & Hc & Hr)]).
  - left. exact Hn.
  - right. exists p, c. auto.
Qed.

Lemma ClearRef_owner w h :
  owner w h ->
  exists w1, ClearRef h w = Done (mkVar (Some (state_obj w)) None LUA_REFNIL) w1 /\
             released w w1 h.
Proof.
  intros Ho. destruct (ClearRef_spec w h (owner_handle_ok w h Ho)) as (h' & w1 & E & Hn & Hs & R).
  exists w1. split; [ | exact R ]. rewrite E. f_equal.
  destruct Ho as (Hst & [(Hnil & Hrc) | (k & p & c & Hk & Hp & Hc & Hr)]).
  - rewrite (ClearRef_nil w h Hnil) in E. injection E as <- <-.
    destruct h as [ps rc ref]; cbn in *. congruence.
  - destruct h as [ps rc ref]; cbn in *. subst.
    rewrite (ClearRef_live w k p c Hc Hr) in E. injection E as <- _. reflexivity.
Qed.

(** ** A new table or a wrapped object in a handle *)

(** X4: CreateNewTable on a handle releases what the handle held exactly as
    its destructor would, then makes the handle the only owner of a table
    that did not exist before and is empty, through a registry slot and a
    RefCount object that were not in use.  The operand stack and the
    diagnostic stream are as before. *)
Theorem CreateNewTable_releases_and_owns_a_new_table (w : World) (h : LuaVar) (nas hs : Z) :
  owner w h ->
  exists w1 w' t q j,
    LuaVar_dtor h w = Done tt w1 /\
    CreateNewTable nas hs h w = Done (mkVar (Some (state_obj w)) (Some q) (Z.pos j)) w' /\
    tables (lua w) !! t = None /\ tables (lua w') = <[t := []]> (tables (lua w)) /\
    registry (lua w1) !! j = None /\
    registry (lua w') = <[j := LTable t]> (registry (lua w1)) /\
    heap w1 !! q = None /\ heap w' = <[q := 1]> (heap w1) /\
    stack (lua w') = stack (lua w) /\ cerr w' = cerr w.
Proof.
  intros Ho. destruct (ClearRef_owner w h Ho) as (w1 & E & R).
  exists w1. unfold CreateNewTable, LuaVar_dtor.
  rewrite (bind_Done _ _ _ _ _ E).
  destruct Ho as (Hst & _). rewrite Hst.
  unfold bind at 1. unfold assert_state, LUA_ASSERT. cbn [is_null negb andb].
  unfold bind at 1. rewrite E. cbv beta iota.
  settle_released w1 R. open_world w. subst.
  steps.
  eexists; eexists; eexists; eexists. split; [ reflexivity | ].
  split; [ reflexivity | ]. cbn.
  repeat split; auto using fresh_lookup_None.
Qed.

(** X5: WrapObjectPtr stops at its assertion when the pointer is null in
    the checked build.  Otherwise it releases what the handle held as the
    destructor would and makes the handle the only owner of a new full
    userdata block whose payload is the pointer.  GetUserData on the handle
    then returns the address of the block, not the pointer; the pointer is
    what the block holds. *)
Theorem WrapObjectPtr_owns_a_block_with_the_pointer (w : World) (h : LuaVar) (pPtr : Z) :
  owner w h ->
  if (pPtr =? 0) && checked w then WrapObjectPtr pPtr h w = Crash AssertionFailed
  else
    exists w1 w' u q j,
      LuaVar_dtor h w = Done tt w1 /\
      let h' := mkVar (Some (state_obj w)) (Some q) (Z.pos j) in
      WrapObjectPtr pPtr h w = Done h' w' /\
      blocks (lua w) !! u = None /\ blocks (lua w') = <[u := pPtr]> (blocks (lua w)) /\
      registry (lua w1) !! j = None /\
      registry (lua w') = <[j := LUserData u]> (registry (lua w1)) /\
      heap w1 !! q = None /\ heap w' = <[q := 1]> (heap w1) /\
      stack (lua w') = stack (lua w) /\ cerr w' = cerr w /\
      GetUserData h' w' = Done (Z.pos u) w' /\
      read_block (Z.pos u) w' = Done pPtr w'.
Proof.
  intros Ho. destruct (ClearRef_owner w h Ho) as (w1 & E & R).
  destruct Ho as (Hst & _).
  destruct ((pPtr =? 0) && checked w) eqn:Hc.
  - apply andb_prop in Hc. destruct Hc as [Hz Hchk].
    unfold WrapObjectPtr. rewrite Hst. unfold bind, assert_state, LUA_ASSERT.
    cbn [is_null negb andb]. rewrite Hz, Hchk. reflexivity.
  - exists w1. unfold WrapObjectPtr, LuaVar_dtor.
    rewrite (bind_Done _ _ _ _ _ E). rewrite Hst.
    unfold bind at 1. unfold assert_state, LUA_ASSERT. cbn [is_null negb andb].
    unfold bind at 1.
    replace (negb (negb (pPtr =? 0)) && checked w) with false
      by (destruct (pPtr =? 0), (checked w); cbn in *; congruence).
    unfold bind at 1. rewrite E. cbv beta iota.
    settle_released w1 R. open_world w. subst.
    repeat (progress (step; rewrite ?lookup_insert_eq)).
    eexists; eexists; eexists; eexists. split; [ reflexivity | ].
    split; [ reflexivity | ]. cbn.
    split; [ apply fresh_lookup_None | ]. split; [ apply insert_insert_eq | ].
    split; [ apply fresh_lookup_None | ]. split; [ reflexivity | ].
    split; [ apply fresh_lookup_None | ]. split; [ reflexivity | ].
    split; [ reflexivity | ]. split; [ reflexivity | ].
    split.
    + destruct chk; repeat (progress (step; rewrite ?lookup_insert_eq)); reflexivity.
    + unfold read_block. repeat (progress (step; rewrite ?lookup_insert_eq)). reflexivity.
Qed.

Lemma a_new_table_in_place_of_the_integer :
  exists w1 w' t q j,
    LuaVar_dtor handle_1 (one_handle_world true) = Done tt w1 /\
    CreateNewTable 0 0 handle_1 (one_handle_world true)
    = Done (mkVar (Some the_state) (Some q) (Z.pos j)) w' /\
    tables (lua (one_handle_world true)) !! t = None /\
    tables (lua w') = <[t := []]> (tables (lua (one_handle_world true))) /\
    registry (lua w1) !! j = None /\
    registry (lua w') = <[j := LTable t]> (registry (lua w1)) /\
    heap w1 !! q = None /\ heap w' = <[q := 1]> (heap w1) /\
    stack (lua w') = stack (lua (one_handle_world true)) /\
    cerr w' = cerr (one_handle_world true).
Proof.
  apply (CreateNewTable_releases_and_owns_a_new_table (one_handle_world true) handle_1 0 0).
  split; [ reflexivity | ]. right. exists 1%positive, 10, 1.
  repeat split; try reflexivity; lia.
Defined.

Lemma an_object_wrapped_in_place_of_the_integer :
  exists w1 w' u q j,
    LuaVar_dtor handle_1 (one_handle_world true) = Done tt w1 /\
    let h' := mkVar (Some the_state) (Some q) (Z.pos j) in
    WrapObjectPtr 777 handle_1 (one_handle_world true) = Done h' w' /\
    blocks (lua (one_handle_world true)) !! u = None /\
    blocks (lua w') = <[u := 777]> (blocks (lua (one_handle_world true))) /\
    registry (lua w1) !! j = None /\
    registry (lua w') = <[j := LUserData u]> (registry (lua w1)) /\
    heap w1 !! q = None /\ heap w' = <[q := 1]> (heap w1) /\
    stack (lua w') = stack (lua (one_handle_world true)) /\
    cerr w' = cerr (one_handle_world true) /\
    GetUserData h' w' = Done (Z.pos u) w' /\
    read_block (Z.pos u) w' = Done 777 w'.
Proof.
  apply (WrapObjectPtr_owns_a_block_with_the_pointer (one_handle_world true) handle_1 777).
  split; [ reflexivity | ]. right. exists 1%positive, 10, 1.
  repeat split; try reflexivity; lia.
Defined.

(** ** Marshalling through a handle and off the stack *)

Lemma wrap_signed_mod bits z : 0 < bits -> (wrap_signed bits z) mod 2 ^ bits = z mod 2 ^ bits.
Proof.
  intros Hb. unfold wrap_signed.
  assert (Hp : 0 < 2 ^ bits) by (apply Z.pow_pos_nonneg; lia).
  rewrite Zminus_mod, Zmod_mod, <- Zminus_mod. f_equal. lia.
Qed.

Lemma mod_pow_divide a b bits : 0 < bits <= 64 ->
  a mod 2 ^ 64 = b mod 2 ^ 64 -> a mod 2 ^ bits = b mod 2 ^ bits.
Proof.
  intros Hb E.
  assert (Hd : 2 ^ 64 = 2 ^ bits * 2 ^ (64 - bits)).
  { rewrite <- Z.pow_add_r by lia. f_equal. lia. }
  assert (Hp : 0 < 2 ^ bits) by (apply Z.pow_pos_nonneg; lia).
  assert (Hq : 0 < 2 ^ (64 - bits)) by (apply Z.pow_pos_nonneg; lia).
  assert (Hdiv : (2 ^ bits | 2 ^ 64)) by (exists (2 ^ (64 - bits)); lia).
  rewrite <- (Z.mod_mod_divide a _ _ Hdiv), <- (Z.mod_mod_divide b _ _ Hdiv).
  rewrite E. reflexivity.
Qed.

Lemma cast_int_wrap_signed t z : int_width t -> cast_int t (wrap_signed 64 z) = cast_int t z.
Proof.
  intros Hw.
  assert (E64 : wrap_signed 64 z mod 2 ^ 64 = z mod 2 ^ 64) by (apply wrap_signed_mod; lia).
  destruct t as [ bits [ | ] | ]; cbn [cast_int int_width] in *.
  - unfold wrap_signed at 1 3.
    assert (E : (wrap_signed 64 z + 2 ^ (bits - 1)) mod 2 ^ bits
                = (z + 2 ^ (bits - 1)) mod 2 ^ bits).
    { rewrite Zplus_mod, (Zplus_mod z). rewrite (mod_pow_divide _ _ bits Hw E64). reflexivity. }
    rewrite E. reflexivity.
  - unfold wrap_unsigned. apply mod_pow_divide; assumption.
  - unfold wrap_unsigned. exact E64.
Qed.

Lemma wrap_signed_idem z : wrap_signed 64 (wrap_signed 64 z) = wrap_signed 64 z.
Proof. apply (cast_int_wrap_signed (TInt 64 true)). cbn. lia. Qed.

Section Marshalling_more.
Context `{LuaRuntime}.

(** X6: an integer stored in a nil handle with SetInteger and read with
    GetInteger comes back converted to the type asked for, for every
    integral type of at most 64 bits, lua_Unsigned included: the signed
    64-bit representation in between loses nothing.  The handle then owns a
    slot that holds the integer as a lua_Integer. *)
Theorem an_integer_set_is_read_back (w : World) (i : Z) (t : IntType) :
  int_width t ->
  exists h' w',
    SetInteger i (mkVar (Some (state_obj w)) None LUA_REFNIL) w = Done h' w' /\
    GetInteger t h' w' = Done (cast_int t i) w' /\
    value_of w' h' = LInteger (wrap_signed 64 i) /\
    stack (lua w') = stack (lua w) /\ cerr w' = cerr w.
Proof.
  intros Hw. open_world w.
  eexists; eexists. split; [ destruct chk; steps; reflexivity | ].
  split.
  - destruct chk; run_live; cbn [cast_int]; rewrite !wrap_signed_idem;
      rewrite cast_int_wrap_signed by exact Hw; reflexivity.
  - cbn. rewrite lookup_insert_eq. cbn. rewrite wrap_signed_idem. auto.
Qed.

(** X7: a boolean, a number, a string or a pointer stored in a nil handle
    with the setter of its type is what the getter of that type returns,
    in both builds; a number read as a float is rounded to a float, and a
    full-userdata getter reads a light pointer back as well. *)
Theorem a_value_set_is_the_value_read (w : World) (b : bool) (n : spec_float)
    (ft : FloatType) (s : string) (q : Z) :
  let h := mkVar (Some (state_obj w)) None LUA_REFNIL in
  (exists h' w', SetBool b h w = Done h' w' /\ GetBool h' w' = Done b w') /\
  (exists h' w', SetNumber n h w = Done h' w' /\
                 GetNumber ft h' w' = Done (cast_float ft n) w') /\
  (exists h' w', SetString (Some s) h w = Done h' w' /\ GetString h' w' = Done (Some s) w') /\
  (exists h' w', SetLightUserData q h w = Done h' w' /\
                 GetLightUserData h' w' = Done q w' /\ GetUserData h' w' = Done q w').
Proof.
  open_world w. cbv zeta.
  split; [ | split; [ | split ] ].
  - eexists; eexists. split; [ destruct chk; steps; reflexivity | ].
    destruct chk, b; run_live; reflexivity.
  - eexists; eexists. split; [ destruct chk; steps; reflexivity | ].
    destruct chk; run_live; reflexivity.
  - eexists; eexists. split; [ destruct chk; steps; reflexivity | ].
    destruct chk; run_live; reflexivity.
  - eexists; eexists. split; [ destruct chk; steps; reflexivity | ].
    split; destruct chk; run_live; reflexivity.
Qed.

(** X8: the type tests of a handle of the live state look at the value
    the handle refers to and leave the world as it is.  IsInteger holds for
    integers only, IsBool for booleans only; IsNumber also accepts a string
    that spells a number, IsString also accepts a number, and
    IsLightUserData and IsUserData both accept either kind of userdata.  A
    nil handle fails the tests before its state pointer is looked at, so a
    null state is harmless there. *)
Theorem type_tests_answer_convertibility (w : World) (h : LuaVar) :
  m_pState h = Some (state_obj w) ->
  let v := value_of w h in
  IsInteger h w = Done (match v with LInteger _ => true | _ => false end) w /\
  IsNumber h w = Done (match tonumber v with Some _ => true | None => false end) w /\
  IsString h w
  = Done (match v with LString _ | LInteger _ | LFloat _ => true | _ => false end) w /\
  IsBool h w = Done (match v with LBoolean _ => true | _ => false end) w /\
  IsLightUserData h w
  = Done (match v with LLightUserData _ | LUserData _ => true | _ => false end) w /\
  IsUserData h w
  = Done (match v with LLightUserData _ | LUserData _ => true | _ => false end) w /\
  (forall rc, IsInteger (mkVar None rc LUA_REFNIL) w = Done false w /\
              IsString (mkVar None rc LUA_REFNIL) w = Done false w).
Proof.
  destruct h as [ps rc ref]. cbn [m_pState]. intros ->. unfold value_of. cbn [m_reference].
  open_world w.
  assert (Hnil : forall j, (Z.neg j =? -1) = false -> Z.neg j <> -1).
  { intros j E. apply Z.eqb_neq. exact E. }
  unfold IsInteger, IsNumber, IsString, IsBool, IsLightUserData, IsUserData, IsType.
  repeat split.
  all: try (destruct chk; reflexivity).
  all: destruct ref as [ | k | j ];
    [ destruct chk; run_live; reflexivity
    | destruct (reg !! k) as [ v | ] eqn:Ek;
      [ destruct chk, v; run_live; rewrite ?Ek; run_live; try reflexivity
      | destruct chk; run_live; rewrite ?Ek; run_live; reflexivity ]
    | destruct (Z.neg j =? -1) eqn:E; destruct chk; run_live; rewrite ?E; run_live;
      try reflexivity ].
  all: try (destruct (luaO_str2num _) as [ [ ] | ]; reflexivity). 
Qed.

(** X9: a getter called on a nil handle stops at the assertion of GetValue
    in the checked build; in the unchecked build it returns the zero of its
    type (false, 0, 0.0, a null pointer) and leaves the world as it is. *)
Theorem getters_on_a_nil_handle (w : World) (rc : option Z) (it : IntType) (ft : FloatType) :
  let h := mkVar (Some (state_obj w)) rc LUA_REFNIL in
  if checked w then
    GetBool h w = Crash AssertionFailed /\ GetInteger it h w = Crash AssertionFailed /\
    GetNumber ft h w = Crash AssertionFailed /\ GetString h w = Crash AssertionFailed /\
    GetLightUserData h w = Crash AssertionFailed /\ GetUserData h w = Crash AssertionFailed
  else
    GetBool h w = Done false w /\ GetInteger it h w = Done 0 w /\
    GetNumber ft h w = Done (S754_zero false) w /\ GetString h w = Done None w /\
    GetLightUserData h w = Done 0 w /\ GetUserData h w = Done 0 w.
Proof.
  open_world w. cbv zeta. destruct chk.
  - repeat split; reflexivity.
  - repeat split; try reflexivity.
    + run_live. rewrite cast_int_0. reflexivity.
    + run_live. destruct ft; reflexivity.
Qed.

(** X10: GetFromStack on an empty stack returns the default value of the
    type and changes nothing, except that the checked build reports the
    underrun when asked to.  On a stack that is not empty it returns what
    the marshalling layer makes of the top value and pops exactly that one
    slot; nothing is taken out of the registry or the heap, and nothing is
    reported unless an integer is asked for. *)
Theorem GetFromStack_takes_the_top (t : CType) (flag : bool) (w : World) :
  match stack (lua w) with
  | [] =>
      GetFromStack_as t (Some (state_obj w)) flag w
      = Done (default_value t (s_pDefaultLuaState w))
             (if checked w && flag then set_cerr (cerr w ++ [underrun]) w else w)
  | v :: s =>
      exists nv w',
        GetFromStack_as t (Some (state_obj w)) flag w = Done nv w' /\
        stack (lua w') = s /\ marshalled t v w' nv /\
        frame w w' /\ grows w w' /\
        ((forall it, t <> CInteger it) -> cerr w' = cerr w)
  end.
Proof.
  open_world w. destruct stk as [ | v s ].
  - unfold GetFromStack_as, GetFromStack.
    destruct t, chk, flag; run_live; reflexivity.
  - unfold GetFromStack_as, GetFromStack.
    assert (Hlen : (0 <? Z.of_nat (length (v :: s))) = true) by reflexivity.
    destruct t.
    + eexists; eexists. split; [ destruct chk; run_live; rewrite ?Hlen; run_live; reflexivity | ].
      cbn. split; [ reflexivity | ]. split; [ destruct v as [ | [ | ] | | | | | | | ]; reflexivity | ].
      split; [ repeat split | ]. split; [ split; cbn; intros; assumption | reflexivity ].
    + destruct (tointeger v) as [ n | ] eqn:Eint.
      * eexists; eexists.
        split; [ destruct chk; repeat (progress (step; rewrite ?Hlen, ?Eint)); reflexivity | ].
        cbn. split; [ reflexivity | ]. split; [ rewrite Eint; reflexivity | ].
        split; [ repeat split | ]. split; [ split; cbn; intros; assumption | reflexivity ].
      * assert (Hm : forall W, marshalled (CInteger t) v W (NInt t 0))
          by (intros W; cbn; rewrite Eint; reflexivity).
        assert (Hfin : forall ce',
                 let W := mkWorld (mkState s reg tabs blk upv) so dflt hp vs ce' chk inv in
                 stack (lua W) = s /\ marshalled (CInteger t) v W (NInt t 0) /\
                 frame (mkWorld (mkState (v :: s) reg tabs blk upv) so dflt hp vs ce chk inv) W /\
                 grows (mkWorld (mkState (v :: s) reg tabs blk upv) so dflt hp vs ce chk inv) W /\
                 ((forall it, CInteger t <> CInteger it) -> cerr W = cerr
                    (mkWorld (mkState (v :: s) reg tabs blk upv) so dflt hp vs ce chk inv))).
        { intros ce' W. split; [ reflexivity | ]. split; [ apply Hm | ].
          split; [ repeat split | ]. split; [ split; cbn; intros; assumption | ].
          intros Hit. destruct (Hit _ eq_refl). }
        destruct t as [ bits sg | ].
        -- eexists; eexists.
           split; [ destruct chk; repeat (progress (step; rewrite ?Hlen, ?Eint)); reflexivity | ].
           apply Hfin.
        -- destruct chk.
           ++ destruct (tonumber v) as [ x | ] eqn:Enum.
              ** destruct (float_is_integral x) eqn:Efl.
                 --- eexists; eexists.
                     split; [ repeat (progress (step; rewrite ?Hlen, ?Eint, ?Enum, ?Efl));
                              reflexivity | ].
                     apply Hfin.
                 --- eexists; eexists.
                     split; [ repeat (progress (step; rewrite ?Hlen, ?Eint, ?Enum, ?Efl));
                              reflexivity | ].
                     apply Hfin.
              ** eexists; eexists.
                 split; [ repeat (progress (step; rewrite ?Hlen, ?Eint, ?Enum)); reflexivity | ].
                 apply Hfin.
           ++ eexists; eexists.
              split; [ repeat (progress (step; rewrite ?Hlen, ?Eint)); reflexivity | ].
              apply Hfin.
    + eexists; eexists.
      split; [ destruct chk; repeat (progress (step; rewrite ?Hlen)); reflexivity | ].
      cbn. split; [ reflexivity | ]. split; [ destruct (tonumber v); reflexivity | ].
      split; [ repeat split | ]. split; [ split; cbn; intros; assumption | reflexivity ].
    + destruct v.
      all: eexists; eexists;
        (split; [ destruct chk; run_live; rewrite ?Hlen; run_live; reflexivity | ]);
        cbn; (split; [ reflexivity | ]); (split; [ reflexivity | ]);
        (split; [ repeat split | ]); (split; [ split; cbn; intros; assumption | reflexivity ]).
    + eexists; eexists. split; [ destruct chk; run_live; rewrite ?Hlen; run_live; reflexivity | ].
      cbn. split; [ reflexivity | ]. split; [ reflexivity | ].
      split; [ repeat split | ]. split; [ split; cbn; intros; assumption | reflexivity ].
    + eexists; eexists. split; [ destruct chk; run_live; rewrite ?Hlen; run_live; reflexivity | ].
      cbn. split; [ reflexivity | ]. split; [ reflexivity | ].
      split; [ repeat split | ]. split; [ split; cbn; intros; assumption | reflexivity ].
    + eexists; eexists. split; [ destruct chk; run_live; rewrite ?Hlen; run_live; reflexivity | ].
      cbn. split; [ reflexivity | ]. split; [ reflexivity | ].
      split; [ repeat split | ]. split; [ split; cbn; intros; assumption | reflexivity ].
    + repeat (progress (step_api; rewrite ?Hlen)).
      use_create CreateFromStack_spec.
      repeat (progress step_api).
      eexists; eexists. split; [ reflexivity | ].
      cbn. split; [ reflexivity | ].
      split; [ exists h; split; [ reflexivity | ];
               eapply (created_holds _ _ _ _ Cr); repeat split | ].
      split; [ repeat split | ].
      split; [ exact (created_grows _ _ _ _ Cr) | reflexivity ].
Qed.

End Marshalling_more.

(** The largest lua_Unsigned, read back from a nil handle. *)
Lemma the_largest_unsigned_is_read_back :
  exists h' w',
    SetInteger (H := decimal_runtime) (2 ^ 64 - 1) (mkVar (Some the_state) None LUA_REFNIL)
               (fresh_world true) = Done h' w' /\
    GetInteger (H := decimal_runtime) TLuaUnsigned h' w'
    = Done (cast_int TLuaUnsigned (2 ^ 64 - 1)) w' /\
    value_of w' h' = LInteger (wrap_signed 64 (2 ^ 64 - 1)) /\
    stack (lua w') = stack (lua (fresh_world true)) /\ cerr w' = cerr (fresh_world true).
Proof.
  exact (an_integer_set_is_read_back (H := decimal_runtime) (fresh_world true) (2 ^ 64 - 1)
           TLuaUnsigned I).
Defined.

(** The tests on the handle of the integer 7. *)
Lemma type_tests_on_an_integer :
  let w := one_handle_world true in
  let v := value_of w handle_1 in
  IsInteger (H := decimal_runtime) handle_1 w
  = Done (match v with LInteger _ => true | _ => false end) w /\
  IsNumber (H := decimal_runtime) handle_1 w
  = Done (match tonumber (H := decimal_runtime) v with Some _ => true | None => false end) w /\
  IsString (H := decimal_runtime) handle_1 w
  = Done (match v with LString _ | LInteger _ | LFloat _ => true | _ => false end) w /\
  IsBool handle_1 w
  = Done (match v with LBoolean _ => true | _ => false end) w /\
  IsLightUserData handle_1 w
  = Done (match v with LLightUserData _ | LUserData _ => true | _ => false end) w /\
  IsUserData handle_1 w
  = Done (match v with LLightUserData _ | LUserData _ => true | _ => false end) w /\
  (forall rc, IsInteger (H := decimal_runtime) (mkVar None rc LUA_REFNIL) w = Done false w /\
              IsString (H := decimal_runtime) (mkVar None rc LUA_REFNIL) w = Done false w).
Proof.
  exact (type_tests_answer_convertibility (H := decimal_runtime) (one_handle_world true)
           handle_1 eq_refl).
Defined.


(** ** Tables behind a handle *)

Lemma luaH_get_absent tbl k :
  key_norm k = k -> k ∉ map fst tbl -> luaH_get tbl k = LNil.
Proof.
  intros Hk. induction tbl as [ | [k1 v1] rest IH ]; [ reflexivity | ].
  cbn [map fst luaH_get]. rewrite not_elem_of_cons. intros [Hne Hnotin].
  rewrite Hk. destruct (decide (k1 = k)); [ congruence | ].
  apply IH. exact Hnotin.
Qed.

Lemma luaH_get_set_eq tbl k v :
  key_norm k = k -> NoDup (map fst tbl) -> luaH_get (luaH_set tbl k v) k = v.
Proof.
  intros Hk. induction tbl as [ | [k' v'] rest IH ]; intros Hnd.
  - cbn. destruct v; cbn; rewrite ?Hk; try reflexivity;
      destruct (decide (k = k)); congruence.
  - cbn [luaH_set]. cbn [map fst] in Hnd. apply NoDup_cons in Hnd as [Hnotin Hnd'].
    destruct (decide (k' = k)) as [-> | Hne].
    + pose proof (luaH_get_absent rest k Hk Hnotin) as Hrest.
      destruct v; cbn [luaH_get]; rewrite ?Hk; try exact Hrest;
        destruct (decide (k = k)); congruence.
    + cbn [luaH_get]. rewrite Hk. destruct (decide (k' = k)); [ congruence | ].
      apply IH. exact Hnd'.
Qed.

Lemma luaH_get_set_ne tbl k k' v :
  key_norm k' <> k -> luaH_get (luaH_set tbl k v) k' = luaH_get tbl k'.
Proof.
  intros Hne. induction tbl as [ | [k1 v1] rest IH ].
  - cbn. destruct v; cbn; try reflexivity; destruct (decide (k = key_norm k')); congruence.
  - cbn [luaH_set]. destruct (decide (k1 = k)) as [-> | Hk1].
    + destruct v; cbn [luaH_get]; destruct (decide (k = key_norm k')); congruence.
    + cbn [luaH_get]. destruct (decide (k1 = key_norm k')); [ reflexivity | exact IH ].
Qed.

Lemma luaH_set_keys tbl k v x : x ∈ map fst (luaH_set tbl k v) -> x = k \/ x ∈ map fst tbl.
Proof.
  induction tbl as [ | [k1 v1] rest IH ]; cbn [luaH_set].
  - destruct v; cbn; rewrite ?elem_of_cons; tauto.
  - destruct (decide (k1 = k)) as [-> | Hk1].
    + destruct v; cbn; rewrite ?elem_of_cons; tauto.
    + cbn. rewrite !elem_of_cons. intros [-> | Hin]; [ tauto | ]. destruct (IH Hin); tauto.
Qed.

Lemma luaH_set_NoDup tbl k v : NoDup (map fst tbl) -> NoDup (map fst (luaH_set tbl k v)).
Proof.
  induction tbl as [ | [k1 v1] rest IH ]; intros Hnd; cbn [luaH_set].
  - destruct v; cbn; try apply NoDup_singleton; constructor.
  - cbn [map fst] in Hnd. apply NoDup_cons in Hnd as [Hnotin Hnd'].
    destruct (decide (k1 = k)) as [-> | Hk1].
    + destruct v; cbn; try (apply NoDup_cons; split; assumption). exact Hnd'.
    + cbn. apply NoDup_cons. split; [ | apply IH; exact Hnd' ].
      intros Hin. destruct (luaH_set_keys _ _ _ _ Hin); congruence.
Qed.

Lemma luaH_set_keys_normal tbl k v :
  key_norm k = k -> keys_normal tbl -> keys_normal (luaH_set tbl k v).
Proof.
  intros Hk. unfold keys_normal. induction tbl as [ | [k1 v1] rest IH ]; intros Hn; cbn [luaH_set].
  - destruct v; repeat constructor; exact Hk.
  - inversion Hn as [ | ? ? H1 Hn' ]; subst.
    destruct (decide (k1 = k)) as [-> | Hk1].
    + destruct v; try (constructor; assumption). exact Hn'.
    + constructor; [ exact H1 | apply IH; exact Hn' ].
Qed.

Lemma SetTableValue_table {A} (T : Marshal A) (key : string) (val : A) (w : World)
    (k : positive) (rc : option Z) (t : Z) (tbl : Table) (x : TValue) :
  registry (lua w) !! k = Some (LTable t) -> tables (lua w) !! t = Some tbl ->
  (let W := pushed (LString key) (pushed (LTable t) w) in
   Push T (Some (state_obj w)) val W = Done tt (pushed x W)) ->
  SetTableValue T key val (mkVar (Some (state_obj w)) rc (Z.pos k)) w
  = Done tt (with_table t (luaH_set tbl (LString key) x) w).
Proof.
  intros Hk Ht HPush. unfold SetTableValue. cbn [m_pState].
  unfold bind at 1. unfold assert_state, LUA_ASSERT. cbn [is_null negb andb].
  rewrite (bind_Done _ _ _ _ _ (IsTable_live w k rc _ Hk)).
  change (ttype (LTable t) =? LUA_TTABLE) with true. cbn [negb].
  cbv zeta in HPush. open_world w.
  cbv beta iota delta [pushed set_lua set_stack lua stack registry tables blocks upvalues
    state_obj s_pDefaultLuaState heap vars cerr checked invoked] in HPush.
  repeat (progress (step_core; rewrite ?Hk)).
  rewrite HPush.
  repeat (progress (step_core; rewrite ?Ht)).
  reflexivity.
Qed.

Lemma with_table_twice t a b w : with_table t b (with_table t a w) = with_table t b w.
Proof.
  destruct w as [[stk reg tabs blk upv] so dflt hp vs ce chk inv].
  unfold with_table; cbn. rewrite insert_insert_eq. reflexivity.
Qed.

Lemma with_table_same t tbl w : tables (lua w) !! t = Some tbl -> with_table t tbl w = w.
Proof.
  destruct w as [[stk reg tabs blk upv] so dflt hp vs ce chk inv].
  unfold with_table; cbn. intros Ht. rewrite insert_id by exact Ht. reflexivity.
Qed.

Lemma luaH_get_set_stored tbl k v :
  key_norm k = k -> v <> LNil -> luaH_get (luaH_set tbl k v) k = v.
Proof.
  intros Hk Hv. induction tbl as [ | [k' v'] rest IH ].
  - cbn. destruct v; try congruence; cbn; rewrite Hk; destruct (decide (k = k)); congruence.
  - cbn [luaH_set]. destruct (decide (k' = k)) as [-> | Hne].
    + destruct v; try congruence; cbn [luaH_get]; rewrite Hk;
        destruct (decide (k = k)); congruence.
    + cbn [luaH_get]. rewrite Hk. destruct (decide (k' = k)); [ congruence | exact IH ].
Qed.

Lemma PushValueToStack_live w k rc x :
  registry (lua w) !! k = Some x ->
  PushValueToStack (mkVar (Some (state_obj w)) rc (Z.pos k)) true w = Done true (pushed x w).
Proof. open_world w. intros Hk. repeat (progress (step; rewrite ?Hk)). reflexivity. Qed.

Lemma LuaVar_dtor_live (w : World) (k : positive) (p c : Z) :
  heap w !! p = Some c -> 0 < c < 2 ^ 64 ->
  LuaVar_dtor (mkVar (Some (state_obj w)) (Some p) (Z.pos k)) w
  = Done tt
         (if c =? 1
          then set_heap (delete p (heap w))
                 (set_lua (set_registry (delete k (registry (lua w))) (lua w)) w)
          else set_heap (<[p := c - 1]> (heap w)) w).
Proof.
  intros Hp Hc. unfold LuaVar_dtor.
  rewrite (bind_Done _ _ _ _ _ (ClearRef_live w k p c Hp Hc)). reflexivity.
Qed.

Lemma copy_then_dtor_heap (hp : gmap Z Z) p c :
  hp !! p = Some c -> <[p := c + 1 - 1]> (<[p := c + 1]> hp) = hp.
Proof.
  intros Hp. rewrite insert_insert_eq. replace (c + 1 - 1) with c by lia.
  apply insert_id. exact Hp.
Qed.

Lemma Push_LuaVar_live W ps (j : positive) (p c : Z) (x : TValue) :
  registry (lua W) !! j = Some x -> heap W !! p = Some c -> 0 < c < 2 ^ 64 - 1 ->
  Push for_LuaVar ps (mkVar (Some (state_obj W)) (Some p) (Z.pos j)) W
  = Done tt (pushed x W).
Proof.
  intros Hj Hp Hc. cbn [Push for_LuaVar].
  rewrite (bind_Done _ _ _ _ _ (LuaVar_copy_ctor_spec W _ p _ c Hp Hc)). cbv beta.
  match goal with |- bind _ _ ?W1 = _ =>
    pose proof (PushValueToStack_live W1 j (Some p) x Hj) as E end.
  cbn [state_obj set_heap] in E. rewrite (bind_Done _ _ _ _ _ E). clear E. cbv beta.
  match goal with |- LuaVar_dtor _ ?W2 = _ =>
    pose proof (LuaVar_dtor_live W2 j p (c + 1)) as E end.
  cbn [state_obj set_heap heap pushed set_lua] in E.
  rewrite E by (rewrite ?lookup_insert_eq; auto; lia). clear E.
  replace (c + 1 =? 1) with false by (symmetry; apply Z.eqb_neq; lia).
  f_equal. open_world W. unfold pushed, set_heap, set_lua; cbn.
  rewrite copy_then_dtor_heap by exact Hp. reflexivity.
Qed.

Lemma filled_other_key args : forall tbl key,
  Forall (fun kv => fst kv <> key) args ->
  luaH_get (filled tbl args) (LString key) = luaH_get tbl (LString key).
Proof.
  induction args as [ | [k0 v0] rest IH ]; intros tbl key Hall; [ reflexivity | ].
  inversion Hall as [ | ? ? Hne Hrest ]; subst. cbn [fst] in Hne.
  unfold filled. cbn [fold_left fst snd]. fold (filled (luaH_set tbl (LString k0) (pushed_value v0)) rest).
  rewrite IH by exact Hrest. apply luaH_get_set_ne. cbn. congruence.
Qed.

Section Tables_more.
Context `{LuaRuntime}.

Lemma Push_as_plain nv W :
  plain nv -> Push_as (Some (state_obj W)) nv W = Done tt (pushed (pushed_value nv) W).
Proof.
  intros Hp. destruct nv as [ b | it i | ft n | [ s | ] | | f | p | h ]; try destruct Hp;
    open_world W; unfold Push_as; steps; reflexivity.
Qed.

Lemma SetTableValue_plain (w : World) (k : positive) (rc : option Z)
    (t : Z) (tbl : Table) (key : string) (nv : NativeValue) :
  registry (lua w) !! k = Some (LTable t) -> tables (lua w) !! t = Some tbl -> plain nv ->
  SetTableValue_as key nv (mkVar (Some (state_obj w)) rc (Z.pos k)) w
  = Done tt (with_table t (luaH_set tbl (LString key) (pushed_value nv)) w).
Proof.
  intros Hk Ht Hp.
  pose proof (Push_as_plain nv (pushed (LString key) (pushed (LTable t) w)) Hp) as HP.
  change (state_obj (pushed (LString key) (pushed (LTable t) w))) with (state_obj w) in HP.
  destruct nv as [ b | it i | ft n | s | | f | p | h ]; try destruct Hp;
    cbn [SetTableValue_as Push_as] in *;
    apply (SetTableValue_table _ key _ w k rc t tbl _ Hk Ht HP).
Qed.

(** X11: SetTableValue on a handle of a table, for a value that is not a
    handle, returns with the value Push makes of it stored under the string
    key and nothing else changed: the operand stack, the registry, the heap
    and the diagnostic stream are as before.  A null string or nullptr
    stores nil, which removes the field.  Reading the key in the new
    contents gives the stored value, every other key reads as before, and
    the keys stay unique and in normal form. *)
Theorem SetTableValue_stores_the_pushed_value (w : World) (k : positive) (rc : option Z)
    (t : Z) (tbl : Table) (key : string) (nv : NativeValue) :
  registry (lua w) !! k = Some (LTable t) -> tables (lua w) !! t = Some tbl -> plain nv ->
  let tbl' := luaH_set tbl (LString key) (pushed_value nv) in
  SetTableValue_as key nv (mkVar (Some (state_obj w)) rc (Z.pos k)) w
  = Done tt (with_table t tbl' w) /\
  (NoDup (map fst tbl) -> luaH_get tbl' (LString key) = pushed_value nv) /\
  (forall k', key_norm k' <> LString key -> luaH_get tbl' k' = luaH_get tbl k') /\
  (NoDup (map fst tbl) -> NoDup (map fst tbl')) /\
  (keys_normal tbl -> keys_normal tbl').
Proof.
  intros Hk Ht Hp tbl'. split; [ | split; [ | split; [ | split ] ] ].
  - apply SetTableValue_plain; assumption.
  - intros Hnd. apply luaH_get_set_eq; [ reflexivity | exact Hnd ].
  - intros k' Hne. apply luaH_get_set_ne. exact Hne.
  - apply luaH_set_NoDup.
  - apply luaH_set_keys_normal. reflexivity.
Qed.

(** X12: the typed field getters check the type of the field before they
    convert it, which the getters of a handle do not.  A field that fails
    the check, a missing field included, gives the zero of the type and one
    diagnostic; otherwise the converted value is returned and the world is
    as before.  GetTableBool accepts booleans only, GetTableInteger integers
    only, GetTableNumber anything convertible to a number, GetTableString
    strings and numbers, GetTableLightUserData either kind of userdata. *)
Theorem typed_field_getters_check_the_type (w : World) (k : positive) (rc : option Z)
    (t : Z) (tbl : Table) (key : string) (it : IntType) (ft : FloatType) :
  registry (lua w) !! k = Some (LTable t) -> tables (lua w) !! t = Some tbl ->
  let h := mkVar (Some (state_obj w)) rc (Z.pos k) in
  let v := luaH_get tbl (LString key) in
  let bad := reported (wrong_type key) w in
  GetTableBool key h w
  = match v with LBoolean b => Done b w | _ => Done false bad end /\
  GetTableInteger it key h w
  = match v with LInteger i => Done (cast_int it (wrap_signed 64 i)) w | _ => Done 0 bad end /\
  GetTableNumber ft key h w
  = match tonumber v with
    | Some n => Done (cast_float ft n) w
    | None => Done (S754_zero false) bad
    end /\
  GetTableString key h w
  = match v with
    | LString s => Done (Some s) w
    | LInteger _ | LFloat _ => Done (Some (luaO_tostring v)) w
    | _ => Done None bad
    end /\
  GetTableLightUserData key h w
  = match v with
    | LLightUserData p => Done p w
    | LUserData u => Done (Z.pos u) w
    | _ => Done 0 bad
    end.
Proof.
  intros Hk Ht h v bad. subst h bad. unfold reported, wrong_type.
  unfold GetTableBool, GetTableInteger, GetTableNumber, GetTableString, GetTableLightUserData.
  open_world w.
  repeat split.
  - destruct chk; repeat (progress (step; rewrite ?Hk, ?Ht)); fold v;
      destruct v as [ | [ | ] | | | | | | | ]; steps; reflexivity.
  - destruct chk; repeat (progress (step; rewrite ?Hk, ?Ht)); fold v;
      destruct v; run_live; rewrite ?cast_int_0; reflexivity.
  - subst v. destruct (tonumber (luaH_get tbl (LString key))) eqn:E;
      destruct chk; repeat (progress (step; rewrite ?Hk, ?Ht, ?E)); cbn [cast_float];
      try reflexivity; destruct ft; reflexivity.
  - destruct chk; repeat (progress (step; rewrite ?Hk, ?Ht)); fold v;
      destruct v; run_live; reflexivity.
  - destruct chk; repeat (progress (step; rewrite ?Hk, ?Ht)); fold v;
      destruct v; run_live; reflexivity.
Qed.

(** X13: a field written with SetTableInteger, SetTableBool, SetTableNumber,
    SetTableString (not null) or SetTableLightUserData is what the getter
    of the same type reads back, with no diagnostic, whatever the table
    held before; an integer comes back converted to the integral type asked
    for. *)
Theorem a_field_written_is_the_field_read (w : World) (k : positive) (rc : option Z)
    (t : Z) (tbl : Table) (key : string) (i : Z) (it : IntType) (b : bool)
    (n : spec_float) (ft : FloatType) (s : string) (p : Z) :
  registry (lua w) !! k = Some (LTable t) -> tables (lua w) !! t = Some tbl ->
  int_width it ->
  let h := mkVar (Some (state_obj w)) rc (Z.pos k) in
  (exists w', SetTableInteger key i h w = Done tt w' /\
              GetTableInteger it key h w' = Done (cast_int it i) w') /\
  (exists w', SetTableBool key b h w = Done tt w' /\ GetTableBool key h w' = Done b w') /\
  (exists w', SetTableNumber key n h w = Done tt w' /\
              GetTableNumber ft key h w' = Done (cast_float ft n) w') /\
  (exists w', SetTableString key (Some s) h w = Done tt w' /\
              GetTableString key h w' = Done (Some s) w') /\
  (exists w', SetTableLightUserData key p h w = Done tt w' /\
              GetTableLightUserData key h w' = Done p w').
Proof.
  intros Hk Ht Hw h. subst h.
  assert (Hget : forall x, x <> LNil ->
            luaH_get (luaH_set tbl (LString key) x) (LString key) = x).
  { intros x Hx. apply luaH_get_set_stored; [ reflexivity | exact Hx ]. }
  split; [ | split; [ | split; [ | split ] ] ]; eexists.
  - split.
    + exact (SetTableValue_plain w k rc t tbl key (NInt (TInt 64 true) (wrap_signed 64 i))
               Hk Ht I).
    + unfold GetTableInteger, with_table. cbn [pushed_value]. open_world w.
      destruct chk; repeat (progress (step; rewrite ?Hk, ?lookup_insert_eq));
        rewrite Hget by discriminate; run_live; cbn [cast_int];
        rewrite !wrap_signed_idem; rewrite cast_int_wrap_signed by exact Hw; reflexivity.
  - split.
    + exact (SetTableValue_plain w k rc t tbl key (NBool b) Hk Ht I).
    + unfold GetTableBool, with_table. cbn [pushed_value]. open_world w.
      destruct chk, b; repeat (progress (step; rewrite ?Hk, ?lookup_insert_eq));
        rewrite Hget by discriminate; run_live; reflexivity.
  - split.
    + exact (SetTableValue_plain w k rc t tbl key (NNumber TFloat64 n) Hk Ht I).
    + unfold GetTableNumber, with_table. cbn [pushed_value]. open_world w.
      destruct chk; repeat (progress (step; rewrite ?Hk, ?lookup_insert_eq));
        rewrite Hget by discriminate; run_live; reflexivity.
  - split.
    + exact (SetTableValue_plain w k rc t tbl key (NString (Some s)) Hk Ht I).
    + unfold GetTableString, with_table. cbn [pushed_value]. open_world w.
      destruct chk; repeat (progress (step; rewrite ?Hk, ?lookup_insert_eq));
        rewrite Hget by discriminate; run_live; reflexivity.
  - split.
    + exact (SetTableValue_plain w k rc t tbl key (NPointer p) Hk Ht I).
    + unfold GetTableLightUserData, with_table. cbn [pushed_value]. open_world w.
      destruct chk; repeat (progress (step; rewrite ?Hk, ?lookup_insert_eq));
        rewrite Hget by discriminate; run_live; reflexivity.
Qed.

Lemma IsTable_value w h :
  m_pState h = Some (state_obj w) ->
  IsTable h w = Done (ttype (value_of w h) =? LUA_TTABLE) w.
Proof.
  destruct h as [ps rc ref]. cbn [m_pState]. intros ->. unfold value_of. cbn [m_reference].
  open_world w.
  destruct ref as [ | k | j ];
    [ destruct chk; run_live; reflexivity
    | destruct (reg !! k) as [ v | ] eqn:Ek;
      [ destruct chk, v; run_live; rewrite ?Ek; run_live; reflexivity
      | destruct chk; run_live; rewrite ?Ek; run_live; reflexivity ]
    | destruct (Z.neg j =? -1) eqn:E; destruct chk; run_live; rewrite ?E; run_live;
      reflexivity ].
Qed.

Lemma GetTypeNameStr_value w h :
  m_pState h = Some (state_obj w) ->
  GetTypeNameStr h w = Done (lua_typename (ttype (value_of w h))) w.
Proof.
  destruct h as [ps rc ref]. cbn [m_pState]. intros ->. unfold value_of. cbn [m_reference].
  open_world w.
  destruct ref as [ | k | j ];
    [ destruct chk; run_live; reflexivity
    | destruct (reg !! k) as [ v | ] eqn:Ek;
      [ destruct chk, v; run_live; rewrite ?Ek; run_live; reflexivity
      | destruct chk; run_live; rewrite ?Ek; run_live; reflexivity ]
    | destruct (Z.neg j =? -1) eqn:E; destruct chk; run_live; rewrite ?E; run_live;
      reflexivity ].
Qed.

Lemma SetTableValue_not_table {A} (T : Marshal A) key val w h :
  m_pState h = Some (state_obj w) -> (ttype (value_of w h) =? LUA_TTABLE) = false ->
  SetTableValue T key val h w
  = Done tt (reported ("Trying to set a table value on a var that isn't a table.  Type is "
                       +:+ lua_typename (ttype (value_of w h))) w).
Proof.
  intros Hs Hv. unfold SetTableValue. rewrite Hs.
  unfold bind at 1. unfold assert_state, LUA_ASSERT. cbn [is_null negb andb].
  rewrite (bind_Done _ _ _ _ _ (IsTable_value w h Hs)). rewrite Hv. cbn [negb].
  rewrite (bind_Done _ _ _ _ _ (GetTypeNameStr_value w h Hs)). reflexivity.
Qed.

Lemma GetTableValue_not_table {A} (T : Marshal A) key w h :
  m_pState h = Some (state_obj w) -> (ttype (value_of w h) =? LUA_TTABLE) = false ->
  GetTableValue T key h w
  = bind (LUA_ERROR ("Trying to get a table value from a var that isn't a table.  Type is "
                       +:+ lua_typename (ttype (value_of w h))))
         (fun _ => GetDefault T) w.
Proof.
  intros Hs Hv. unfold GetTableValue. rewrite Hs.
  unfold bind at 1. unfold assert_state, LUA_ASSERT. cbn [is_null negb andb].
  rewrite (bind_Done _ _ _ _ _ (IsTable_value w h Hs)). rewrite Hv. cbn [negb].
  rewrite (bind_Done _ _ _ _ _ (GetTypeNameStr_value w h Hs)). reflexivity.
Qed.

(** X14: on a handle that does not refer to a table, a nil handle
    included, SetTableValue, the field getters and GetNumElements write one
    diagnostic that names the type of the value and do nothing else; the
    getters return the default of their type and GetNumElements returns
    0. *)
Theorem table_operations_on_a_non_table (w : World) (h : LuaVar) (key : string)
    (nv : NativeValue) (it : IntType) (ft : FloatType) (fuel : nat) :
  m_pState h = Some (state_obj w) -> (ttype (value_of w h) =? LUA_TTABLE) = false ->
  plain nv ->
  let tn := lua_typename (ttype (value_of w h)) in
  let get := "Trying to get a table value from a var that isn't a table.  Type is " +:+ tn in
  SetTableValue_as key nv h w
  = Done tt (reported ("Trying to set a table value on a var that isn't a table.  Type is "
                       +:+ tn) w) /\
  GetTableVar key h w = Done (LuaVar_ctor (s_pDefaultLuaState w)) (reported get w) /\
  GetTableInteger it key h w = Done 0 (reported get w) /\
  GetTableString key h w = Done None (reported get w) /\
  GetTableBool key h w = Done false (reported get w) /\
  GetTableNumber ft key h w = Done (S754_zero false) (reported get w) /\
  GetTableLightUserData key h w = Done 0 (reported get w) /\
  GetTableUserData key h w = Done 0 (reported get w) /\
  GetNumElements fuel h w
  = Done (Some 0)
         (reported ("Trying to get the number of elements of a non-table.  Type is " +:+ tn) w).
Proof.
  intros Hs Hv Hp tn get. subst tn get.
  split; [ | split; [ | split; [ | split; [ | split; [ | split; [ | split; [ | split ] ] ] ] ] ] ].
  - destruct nv as [ b | t i | ft' n | s | | f | p | x ]; try destruct Hp;
      cbn [SetTableValue_as]; apply SetTableValue_not_table; assumption.
  - unfold GetTableVar. rewrite GetTableValue_not_table by assumption. reflexivity.
  - unfold GetTableInteger. unfold bind at 1.
    rewrite GetTableValue_not_table by assumption. cbn. rewrite cast_int_0. reflexivity.
  - unfold GetTableString. rewrite GetTableValue_not_table by assumption. reflexivity.
  - unfold GetTableBool. rewrite GetTableValue_not_table by assumption. reflexivity.
  - unfold GetTableNumber. unfold bind at 1.
    rewrite GetTableValue_not_table by assumption. cbn. destruct ft; reflexivity.
  - unfold GetTableLightUserData. rewrite GetTableValue_not_table by assumption. reflexivity.
  - unfold GetTableUserData. rewrite GetTableValue_not_table by assumption. reflexivity.
  - unfold GetNumElements.
    rewrite (bind_Done _ _ _ _ _ (IsTable_value w h Hs)). rewrite Hv. cbn [negb].
    rewrite (bind_Done _ _ _ _ _ (GetTypeNameStr_value w h Hs)). reflexivity.
Qed.

Lemma SetTableVar_live (w : World) (k : positive)
    (rc : option Z) (t : Z) (tbl : Table) (key : string) (j : positive) (p c : Z)
    (x : TValue) :
  registry (lua w) !! k = Some (LTable t) -> tables (lua w) !! t = Some tbl ->
  registry (lua w) !! j = Some x -> heap w !! p = Some c -> 0 < c < 2 ^ 64 - 2 ->
  SetTableVar key (mkVar (Some (state_obj w)) (Some p) (Z.pos j))
              (mkVar (Some (state_obj w)) rc (Z.pos k)) w
  = Done tt (with_table t (luaH_set tbl (LString key) x) w).
Proof.
  intros Hk Ht Hj Hp Hc.
  unfold SetTableVar.
  rewrite (bind_Done _ _ _ _ _ (LuaVar_copy_ctor_spec w _ p _ c Hp ltac:(lia))). cbv beta.
  assert (HP : let W := pushed (LString key) (pushed (LTable t)
                              (set_heap (<[p := c + 1]> (heap w)) w)) in
               Push for_LuaVar (Some (state_obj w))
                    (mkVar (Some (state_obj w)) (Some p) (Z.pos j)) W
               = Done tt (pushed x W)).
  { cbv zeta.
    apply (Push_LuaVar_live (pushed (LString key) (pushed (LTable t)
                               (set_heap (<[p := c + 1]> (heap w)) w))) _ j p (c + 1) x);
      [ exact Hj | apply lookup_insert_eq | lia ]. }
  rewrite (bind_Done _ _ _ _ _
             (SetTableValue_table for_LuaVar key _ (set_heap (<[p := c + 1]> (heap w)) w)
                k rc t tbl x Hk Ht HP)).
  clear HP. cbv beta.
  match goal with |- LuaVar_dtor _ ?W2 = _ =>
    pose proof (LuaVar_dtor_live W2 j p (c + 1)) as E end.
  cbn [state_obj set_heap heap with_table set_lua] in E.
  rewrite E by (rewrite ?lookup_insert_eq; auto; lia). clear E.
  replace (c + 1 =? 1) with false by (symmetry; apply Z.eqb_neq; lia).
  f_equal. open_world w. unfold with_table, set_heap, set_lua; cbn.
  rewrite copy_then_dtor_heap by exact Hp. reflexivity.
Qed.

(** X15: SetTableVar with an lvalue stores the value the handle refers to
    and leaves the handle, its count and the registry as they were.  With
    an rvalue it stores the same value, leaves the source handle nil with a
    null state pointer, and releases the source's reference as its
    destructor would: when the source was the only owner, the registry slot
    and the RefCount object are freed and only the table refers to the
    value. *)
Theorem SetTableVar_copies_or_takes_the_reference (w : World) (k : positive)
    (rc : option Z) (t : Z) (tbl : Table) (key : string) (j : positive) (p c : Z)
    (x : TValue) :
  registry (lua w) !! k = Some (LTable t) -> tables (lua w) !! t = Some tbl ->
  registry (lua w) !! j = Some x -> heap w !! p = Some c -> 0 < c < 2 ^ 64 - 2 ->
  let h := mkVar (Some (state_obj w)) rc (Z.pos k) in
  let val := mkVar (Some (state_obj w)) (Some p) (Z.pos j) in
  let tbl' := luaH_set tbl (LString key) x in
  SetTableVar key val h w = Done tt (with_table t tbl' w) /\
  exists w1,
    LuaVar_dtor val w = Done tt w1 /\
    SetTableVar_move key val h w = Done (mkVar None None LUA_REFNIL) (with_table t tbl' w1) /\
    (c = 1 -> registry (lua w1) !! j = None /\ heap w1 !! p = None).
Proof.
  intros Hk Ht Hj Hp Hc h val tbl'. subst h val tbl'.
  split.
  - apply (SetTableVar_live w k rc t tbl key j p c x); assumption.
  - eexists. split; [ exact (LuaVar_dtor_live w j p c Hp ltac:(lia)) | ].
    split.
    + unfold SetTableVar_move, LuaVar_move_ctor.
      assert (Emove : (do this <- LuaVar_default; Move this
                         (mkVar (Some (state_obj w)) (Some p) (Z.pos j))) w
                      = Done (mkVar (Some (state_obj w)) (Some p) (Z.pos j),
                              mkVar None None LUA_REFNIL) w)
        by (open_world w; reflexivity).
      rewrite (bind_Done _ _ _ _ _ Emove). cbv beta. cbn [fst snd].
      assert (HP : let W := pushed (LString key) (pushed (LTable t) w) in
                   Push for_LuaVar (Some (state_obj w))
                        (mkVar (Some (state_obj w)) (Some p) (Z.pos j)) W
                   = Done tt (pushed x W)).
      { cbv zeta.
        apply (Push_LuaVar_live (pushed (LString key) (pushed (LTable t) w)) _ j p c x);
          [ exact Hj | exact Hp | lia ]. }
      rewrite (bind_Done _ _ _ _ _
                 (SetTableValue_table for_LuaVar key _ w k rc t tbl x Hk Ht HP)).
      clear HP. cbv beta.
      match goal with |- bind _ _ ?W2 = _ =>
        pose proof (LuaVar_dtor_live W2 j p c) as E end.
      cbn [state_obj set_heap heap with_table set_lua] in E.
      rewrite (bind_Done _ _ _ _ _ (E Hp ltac:(lia))). clear E.
      unfold ret. f_equal. open_world w. destruct (c =? 1); reflexivity.
    + intros ->. cbn. rewrite !lookup_delete_eq. auto.
Qed.

(** X16: SetNewTable makes a table that did not exist, stores it under the
    key and returns the only handle to it (a fresh registry slot and a
    fresh RefCount object).  SetNewTableNoReturn leaves no slot and no
    RefCount object behind: the registry, the heap, the operand stack and
    the diagnostic stream are as before, and only the tables changed. *)
Theorem SetNewTable_stores_a_new_table (w : World) (k : positive) (rc : option Z)
    (t : Z) (tbl : Table) (key : string) (nas hs : Z) :
  registry (lua w) !! k = Some (LTable t) -> tables (lua w) !! t = Some tbl ->
  let h := mkVar (Some (state_obj w)) rc (Z.pos k) in
  exists t' j q w',
    tables (lua w) !! t' = None /\ registry (lua w) !! j = None /\ heap w !! q = None /\
    SetNewTable key nas hs h w = Done (mkVar (Some (state_obj w)) (Some q) (Z.pos j)) w' /\
    tables (lua w')
    = <[t := luaH_set tbl (LString key) (LTable t')]> (<[t' := []]> (tables (lua w))) /\
    registry (lua w') = <[j := LTable t']> (registry (lua w)) /\
    heap w' = <[q := 1]> (heap w) /\
    stack (lua w') = stack (lua w) /\ cerr w' = cerr w /\
    SetNewTableNoReturn key nas hs h w
    = Done tt (with_table t (luaH_set tbl (LString key) (LTable t')) (with_table t' [] w)).
Proof.
  intros Hk Ht h. subst h.
  exists (fresh (dom (tables (lua w)))), (fresh (dom (registry (lua w)))),
         (fresh (dom (heap w))).
  set (t' := fresh (dom (tables (lua w)))).
  set (j := fresh (dom (registry (lua w)))).
  set (q := fresh (dom (heap w))).
  set (w2 := set_heap (<[q := 1]> (heap w))
               (set_lua (set_registry (<[j := LTable t']> (registry (lua w)))
                           (set_tables (<[t' := []]> (tables (lua w))) (lua w))) w)).
  assert (Ecreate : CreateNewTable nas hs (LuaVar_ctor (Some (state_obj w))) w
                    = Done (mkVar (Some (state_obj w)) (Some q) (Z.pos j)) w2).
  { subst t' j q w2. open_world w. unfold CreateNewTable. destruct chk; steps; reflexivity. }
  assert (Hk2 : registry (lua w2) !! k = Some (LTable t)).
  { subst w2; cbn. rewrite lookup_insert_ne; [ exact Hk | ].
    subst j. eapply lookup_fresh_ne. exact Hk. }
  assert (Ht2 : tables (lua w2) !! t = Some tbl).
  { subst w2; cbn. rewrite lookup_insert_ne; [ exact Ht | ].
    subst t'. eapply lookup_fresh_ne. exact Ht. }
  assert (Hj2 : registry (lua w2) !! j = Some (LTable t')).
  { subst w2; cbn. apply lookup_insert_eq. }
  assert (Hq2 : heap w2 !! q = Some 1).
  { subst w2; cbn. apply lookup_insert_eq. }
  pose proof (SetTableVar_live w2 k rc t tbl key j q 1 (LTable t') Hk2 Ht2 Hj2 Hq2 ltac:(lia))
    as Eset.
  change (state_obj w2) with (state_obj w) in Eset.
  assert (Enew : SetNewTable key nas hs (mkVar (Some (state_obj w)) rc (Z.pos k)) w
                 = Done (mkVar (Some (state_obj w)) (Some q) (Z.pos j))
                        (with_table t (luaH_set tbl (LString key) (LTable t')) w2)).
  { unfold SetNewTable. cbn [m_pState].
    unfold bind at 1. unfold assert_state, LUA_ASSERT. cbn [is_null negb andb].
    rewrite (bind_Done _ _ _ _ _ Ecreate). cbv beta.
    rewrite (bind_Done _ _ _ _ _ Eset). reflexivity. }
  eexists.
  split; [ apply fresh_lookup_None | ]. split; [ apply fresh_lookup_None | ].
  split; [ apply fresh_lookup_None | ].
  split; [ exact Enew | ].
  split; [ reflexivity | ]. split; [ reflexivity | ]. split; [ reflexivity | ].
  split; [ reflexivity | ]. split; [ reflexivity | ].
  unfold SetNewTableNoReturn. rewrite (bind_Done _ _ _ _ _ Enew). cbv beta.
  match goal with |- LuaVar_dtor _ ?W = _ =>
    pose proof (LuaVar_dtor_live W j q 1) as E;
    change (state_obj W) with (state_obj w) in E end.
  rewrite E by (subst w2; cbn; rewrite ?lookup_insert_eq; auto; lia). clear E.
  change (1 =? 1) with true. cbv beta iota. f_equal.
  subst w2. open_world w. unfold with_table, set_heap, set_lua, set_registry, set_tables; cbn.
  rewrite !delete_insert_id by apply fresh_lookup_None. reflexivity.
Qed.

(** X17: GetOrCreateNewTable on a handle of a table.  When the field holds
    a table it returns a new handle to that table and creates nothing; when
    the field is missing it behaves as SetNewTable; when the field holds
    anything else it writes one diagnostic that names the type, returns a
    nil handle and leaves the registry and the heap as they were. *)
Theorem GetOrCreateNewTable_finds_makes_or_reports (w : World) (k : positive)
    (rc : option Z) (t : Z) (tbl : Table) (key : string) (nas hs : Z) :
  registry (lua w) !! k = Some (LTable t) -> tables (lua w) !! t = Some tbl ->
  let h := mkVar (Some (state_obj w)) rc (Z.pos k) in
  match luaH_get tbl (LString key) with
  | LTable t2 =>
      let j := fresh (dom (registry (lua w))) in
      let q := fresh (dom (heap w)) in
      GetOrCreateNewTable key nas hs h w
      = Done (mkVar (Some (state_obj w)) (Some q) (Z.pos j))
             (set_heap (<[q := 1]> (heap w))
                (set_lua (set_registry (<[j := LTable t2]> (registry (lua w))) (lua w)) w))
  | LNil => GetOrCreateNewTable key nas hs h w = SetNewTable key nas hs h w
  | v =>
      GetOrCreateNewTable key nas hs h w
      = Done (LuaVar_ctor (s_pDefaultLuaState w))
             (reported ("Found something at key " +:+ key +:+
                        " but it wasn't a table.  Type is " +:+ lua_typename (ttype v)) w)
  end.
Proof.
  intros Hk Ht h. subst h. unfold GetOrCreateNewTable, reported.
  assert (Hw : wrap_unsigned 64 (1 - 1) = 0) by reflexivity.
  assert (Hdel : forall (m : gmap Z Z) x y z, m !! x = None ->
            delete x (<[x := y]> (<[x := z]> m)) = m).
  { intros m x y z Hx. rewrite delete_insert_eq. apply delete_insert_id. exact Hx. }
  open_world w.
  destruct (luaH_get tbl (LString key)) eqn:Ev.
  all: try (destruct chk;
            repeat (progress (run_live; rewrite ?Hk, ?Ht, ?Ev, ?lookup_insert_eq, ?Hw));
            rewrite ?Hdel, ?delete_insert_id by apply fresh_lookup_None; reflexivity).
  - match goal with |- bind _ _ ?W = _ =>
      assert (Eget : GetTableVar key (mkVar (Some so) rc (Z.pos k)) W
                     = Done (mkVar (Some so) None LUA_REFNIL) W)
        by (destruct chk; repeat (progress (step; rewrite ?Hk, ?Ht, ?Ev)); reflexivity)
    end.
    rewrite (bind_Done _ _ _ _ _ Eget). cbv beta.
    rewrite (bind_Done _ _ _ _ _ (IsTable_nil _ _ _)). cbv beta iota.
    change (IsNil (mkVar (Some so) None LUA_REFNIL)) with true. cbv iota.
    unfold bind at 1.
    match goal with |- match ?X with _ => _ end = _ => destruct X as [ r w' | f ] end;
      reflexivity.
Qed.

(** X18: FillTable stores its pairs from left to right and changes
    nothing but the table; for a key given more than once the last pair
    wins. *)
Theorem FillTable_sets_the_pairs_in_order (w : World) (k : positive) (rc : option Z)
    (t : Z) (tbl : Table) (args : list (string * NativeValue)) :
  registry (lua w) !! k = Some (LTable t) -> tables (lua w) !! t = Some tbl ->
  Forall (fun kv => plain (snd kv)) args ->
  FillTable args (mkVar (Some (state_obj w)) rc (Z.pos k)) w
  = Done tt (with_table t (filled tbl args) w) /\
  forall pre key nv post,
    args = pre ++ (key, nv) :: post -> Forall (fun kv => fst kv <> key) post ->
    pushed_value nv <> LNil ->
    luaH_get (filled tbl args) (LString key) = pushed_value nv.
Proof.
  intros Hk Ht Hall. split.
  - revert w tbl Hk Ht. induction Hall as [ | [key nv] rest Hp Hrest IH ]; intros w tbl Hk Ht.
    + cbn. rewrite with_table_same by exact Ht. reflexivity.
    + cbn [FillTable]. cbn [snd] in Hp.
      rewrite (bind_Done _ _ _ _ _ (SetTableValue_plain w k rc t tbl key nv Hk Ht Hp)).
      cbv beta.
      match goal with |- FillTable _ _ ?W = _ =>
        pose proof (IH W (luaH_set tbl (LString key) (pushed_value nv))) as E;
        change (state_obj W) with (state_obj w) in E end.
      rewrite E.
      * rewrite with_table_twice. reflexivity.
      * exact Hk.
      * unfold with_table; cbn. apply lookup_insert_eq.
  - intros pre key nv post -> Hpost Hnv. unfold filled.
    rewrite fold_left_app. cbn [fold_left fst snd].
    match goal with |- luaH_get (fold_left _ post ?tb) _ = _ =>
      change (luaH_get (filled tb post) (LString key) = pushed_value nv) end.
    rewrite filled_other_key by exact Hpost.
    apply luaH_get_set_stored; [ reflexivity | exact Hnv ].
Qed.

(** X19: GetVarAt does not check that the handle refers to a table.  On a
    table it returns a new handle to the field and restores the operand
    stack; on a nil handle it returns a nil handle and touches nothing; on a
    boolean or a number the runtime raises "attempt to index", which nothing
    catches. *)
Theorem GetVarAt_indexes_a_table_or_panics (w : World) (h : LuaVar) (index : NativeValue) :
  m_pState h = Some (state_obj w) -> is_index index ->
  match value_of w h with
  | LTable t =>
      forall tbl, tables (lua w) !! t = Some tbl ->
      exists r w',
        GetVarAt index h w = Done r w' /\
        stack (lua w') = stack (lua w) /\ frame w w' /\ cerr w' = cerr w /\
        created w w' r (luaH_get tbl (pushed_value index))
  | LNil =>
      m_reference h = LUA_REFNIL ->
      GetVarAt index h w = Done (LuaVar_ctor (s_pDefaultLuaState w)) w
  | LBoolean _ | LInteger _ | LFloat _ =>
      GetVarAt index h w
      = Crash (LuaPanic ("attempt to index a " +:+ lua_typename (ttype (value_of w h))
                         +:+ " value"))
  | _ => True
  end.
Proof.
  destruct h as [ps rc ref]. cbn [m_pState]. intros -> Hi.
  assert (Hp : plain index) by (destruct index; try destruct Hi; exact I).
  assert (HP : forall W, state_obj W = state_obj w ->
                 Push_as (Some (state_obj w)) index W = Done tt (pushed (pushed_value index) W)).
  { intros W <-. apply Push_as_plain. exact Hp. }
  unfold value_of. cbn [m_reference]. unfold GetVarAt, DoLuaAction. cbn [m_pState].
  destruct ref as [ | k | j ].
  - intros [=].
  - destruct (registry (lua w) !! k) as [ v | ] eqn:Ek; cbn [default from_option id].
    + destruct v; try exact I.
      * intros [=].
      * unfold bind at 1. unfold assert_state, LUA_ASSERT. cbn [is_null negb andb].
        rewrite (bind_Done _ _ _ _ _ (PushValueToStack_live w k rc _ Ek)). cbv beta iota.
        cbn [negb]. unfold bind at 1. unfold bind at 1.
        rewrite HP by reflexivity.
        open_world w. unfold pushed. steps. reflexivity.
      * unfold bind at 1. unfold assert_state, LUA_ASSERT. cbn [is_null negb andb].
        rewrite (bind_Done _ _ _ _ _ (PushValueToStack_live w k rc _ Ek)). cbv beta iota.
        cbn [negb]. unfold bind at 1. unfold bind at 1.
        rewrite HP by reflexivity.
        open_world w. unfold pushed. steps. reflexivity.
      * unfold bind at 1. unfold assert_state, LUA_ASSERT. cbn [is_null negb andb].
        rewrite (bind_Done _ _ _ _ _ (PushValueToStack_live w k rc _ Ek)). cbv beta iota.
        cbn [negb]. unfold bind at 1. unfold bind at 1.
        rewrite HP by reflexivity.
        open_world w. unfold pushed. steps. reflexivity.
      * intros tbl Ht.
        unfold bind at 1. unfold assert_state, LUA_ASSERT. cbn [is_null negb andb].
        rewrite (bind_Done _ _ _ _ _ (PushValueToStack_live w k rc _ Ek)). cbv beta iota.
        cbn [negb]. unfold bind at 1. unfold bind at 1.
        rewrite HP by reflexivity.
        open_world w. unfold pushed.
        repeat (progress (step_core; rewrite ?Ht)).
        use_create CreateFromStack_spec.
        repeat (progress step_core).
        eexists; eexists. split; [ reflexivity | ].
        split; [ reflexivity | ]. split; [ repeat split | ]. split; [ reflexivity | ].
        destruct index as [ | it i | | [ s | ] | | | | ]; try destruct Hi; exact Cr.
    + intros [=].
  - intros E. injection E as ->. open_world w. destruct chk; reflexivity.
Qed.

End Tables_more.

(** The theorems at the table {a = 1, b = 2, c = 3}. *)
Lemma b_is_overwritten_by_5 :
  let tbl' := luaH_set abc (LString "b") (pushed_value (NInt int32 5)) in
  SetTableValue_as (H := decimal_runtime) "b" (NInt int32 5) handle_1 (abc_world true)
  = Done tt (with_table 0 tbl' (abc_world true)) /\
  (NoDup (map fst abc) -> luaH_get tbl' (LString "b") = pushed_value (NInt int32 5)) /\
  (forall k', key_norm k' <> LString "b" -> luaH_get tbl' k' = luaH_get abc k') /\
  (NoDup (map fst abc) -> NoDup (map fst tbl')) /\
  (keys_normal abc -> keys_normal tbl').
Proof.
  exact (SetTableValue_stores_the_pushed_value (H := decimal_runtime) (abc_world true)
           1%positive (Some 10) 0 abc "b" (NInt int32 5) eq_refl eq_refl I).
Defined.

Lemma typed_getters_on_the_field_b :
  let w := abc_world true in
  let v := luaH_get abc (LString "b") in
  let bad := reported (wrong_type "b") w in
  GetTableBool "b" handle_1 w
  = match v with LBoolean b => Done b w | _ => Done false bad end /\
  GetTableInteger (H := decimal_runtime) int32 "b" handle_1 w
  = match v with
    | LInteger i => Done (cast_int int32 (wrap_signed 64 i)) w
    | _ => Done 0 bad
    end /\
  GetTableNumber (H := decimal_runtime) TFloat64 "b" handle_1 w
  = match tonumber (H := decimal_runtime) v with
    | Some n => Done (cast_float TFloat64 n) w
    | None => Done (S754_zero false) bad
    end /\
  GetTableString (H := decimal_runtime) "b" handle_1 w
  = match v with
    | LString s => Done (Some s) w
    | LInteger _ | LFloat _ => Done (Some (luaO_tostring (LuaRuntime := decimal_runtime) v)) w
    | _ => Done None bad
    end /\
  GetTableLightUserData "b" handle_1 w
  = match v with
    | LLightUserData p => Done p w
    | LUserData u => Done (Z.pos u) w
    | _ => Done 0 bad
    end.
Proof.
  exact (typed_field_getters_check_the_type (H := decimal_runtime) (abc_world true)
           1%positive (Some 10) 0 abc "b" int32 TFloat64 eq_refl eq_refl).
Defined.

Lemma fields_written_to_abc_are_read_back :
  let w := abc_world true in
  (exists w', SetTableInteger (H := decimal_runtime) "d" 4 handle_1 w = Done tt w' /\
              GetTableInteger (H := decimal_runtime) int32 "d" handle_1 w'
              = Done (cast_int int32 4) w') /\
  (exists w', SetTableBool "d" true handle_1 w = Done tt w' /\
              GetTableBool "d" handle_1 w' = Done true w') /\
  (exists w', SetTableNumber (H := decimal_runtime) "d" (S754_zero false) handle_1 w
              = Done tt w' /\
              GetTableNumber (H := decimal_runtime) TFloat32 "d" handle_1 w'
              = Done (cast_float TFloat32 (S754_zero false)) w') /\
  (exists w', SetTableString (H := decimal_runtime) "d" (Some "x") handle_1 w = Done tt w' /\
              GetTableString (H := decimal_runtime) "d" handle_1 w' = Done (Some "x") w') /\
  (exists w', SetTableLightUserData "d" 777 handle_1 w = Done tt w' /\
              GetTableLightUserData "d" handle_1 w' = Done 777 w').
Proof.
  apply (a_field_written_is_the_field_read (H := decimal_runtime) (abc_world true)
           1%positive (Some 10) 0 abc "d" 4 int32 true (S754_zero false) TFloat32 "x" 777).
  - reflexivity.
  - reflexivity.
  - cbn. lia.
Defined.

(** The theorem at the handle of the integer 7. *)
Lemma table_operations_on_an_integer :
  let w := one_handle_world true in
  let tn := lua_typename (ttype (value_of w handle_1)) in
  let get := "Trying to get a table value from a var that isn't a table.  Type is " +:+ tn in
  SetTableValue_as (H := decimal_runtime) "a" (NBool true) handle_1 w
  = Done tt (reported ("Trying to set a table value on a var that isn't a table.  Type is "
                       +:+ tn) w) /\
  GetTableVar "a" handle_1 w = Done (LuaVar_ctor (s_pDefaultLuaState w)) (reported get w) /\
  GetTableInteger (H := decimal_runtime) int32 "a" handle_1 w = Done 0 (reported get w) /\
  GetTableString (H := decimal_runtime) "a" handle_1 w = Done None (reported get w) /\
  GetTableBool "a" handle_1 w = Done false (reported get w) /\
  GetTableNumber (H := decimal_runtime) TFloat32 "a" handle_1 w
  = Done (S754_zero false) (reported get w) /\
  GetTableLightUserData "a" handle_1 w = Done 0 (reported get w) /\
  GetTableUserData "a" handle_1 w = Done 0 (reported get w) /\
  GetNumElements 5 handle_1 w
  = Done (Some 0)
         (reported ("Trying to get the number of elements of a non-table.  Type is " +:+ tn) w).
Proof.
  exact (table_operations_on_a_non_table (H := decimal_runtime) (one_handle_world true)
           handle_1 "a" (NBool true) int32 TFloat32 5 eq_refl eq_refl I).
Defined.

(** The integer 7 stored in the table {a = 1, b = 2, c = 3}. *)
Lemma seven_stored_under_d :
  let w := abc_and_seven_world true in
  let tbl' := luaH_set abc (LString "d") (LInteger 7) in
  SetTableVar "d" handle_7 handle_1 w = Done tt (with_table 0 tbl' w) /\
  exists w1,
    LuaVar_dtor handle_7 w = Done tt w1 /\
    SetTableVar_move "d" handle_7 handle_1 w
    = Done (mkVar None None LUA_REFNIL) (with_table 0 tbl' w1) /\
    (1 = 1 -> registry (lua w1) !! 2%positive = None /\ heap w1 !! 11 = None).
Proof.
  apply (SetTableVar_copies_or_takes_the_reference (abc_and_seven_world true)
           1%positive (Some 10) 0 abc "d" 2%positive 11 1 (LInteger 7)).
  - reflexivity.
  - reflexivity.
  - reflexivity.
  - reflexivity.
  - lia.
Defined.

Lemma a_new_table_under_d :
  let w := abc_world true in
  exists t' j q w',
    tables (lua w) !! t' = None /\ registry (lua w) !! j = None /\ heap w !! q = None /\
    SetNewTable "d" 0 0 handle_1 w = Done (mkVar (Some the_state) (Some q) (Z.pos j)) w' /\
    tables (lua w')
    = <[0 := luaH_set abc (LString "d") (LTable t')]> (<[t' := []]> (tables (lua w))) /\
    registry (lua w') = <[j := LTable t']> (registry (lua w)) /\
    heap w' = <[q := 1]> (heap w) /\
    stack (lua w') = stack (lua w) /\ cerr w' = cerr w /\
    SetNewTableNoReturn "d" 0 0 handle_1 w
    = Done tt (with_table 0 (luaH_set abc (LString "d") (LTable t')) (with_table t' [] w)).
Proof.
  exact (SetNewTable_stores_a_new_table (abc_world true) 1%positive (Some 10) 0 abc "d" 0 0
           eq_refl eq_refl).
Defined.

Lemma the_field_b_is_in_the_way :
  GetOrCreateNewTable "b" 0 0 handle_1 (abc_world true)
  = Done (LuaVar_ctor (Some the_state))
         (reported "Found something at key b but it wasn't a table.  Type is number"
                   (abc_world true)).
Proof.
  exact (GetOrCreateNewTable_finds_makes_or_reports (abc_world true) 1%positive (Some 10) 0
           abc "b" 0 0 eq_refl eq_refl).
Defined.

Lemma the_last_pair_for_b_wins :
  let args := [("b", NInt int32 5); ("d", NBool true); ("b", NInt int32 6)] in
  FillTable (H := decimal_runtime) args handle_1 (abc_world true)
  = Done tt (with_table 0 (filled abc args) (abc_world true)) /\
  forall pre key nv post,
    args = pre ++ (key, nv) :: post -> Forall (fun kv => fst kv <> key) post ->
    pushed_value nv <> LNil ->
    luaH_get (filled abc args) (LString key) = pushed_value nv.
Proof.
  apply (FillTable_sets_the_pairs_in_order (H := decimal_runtime) (abc_world true)
           1%positive (Some 10) 0 abc).
  - reflexivity.
  - reflexivity.
  - repeat constructor.
Defined.

Lemma the_field_b_through_GetVarAt :
  exists r w',
    GetVarAt (H := decimal_runtime) (NString (Some "b")) handle_1 (abc_world true)
    = Done r w' /\
    stack (lua w') = stack (lua (abc_world true)) /\ frame (abc_world true) w' /\
    cerr w' = cerr (abc_world true) /\
    created (abc_world true) w' r (luaH_get abc (pushed_value (NString (Some "b")))).
Proof.
  exact (GetVarAt_indexes_a_table_or_panics (H := decimal_runtime) (abc_world true) handle_1
           (NString (Some "b")) eq_refl I abc eq_refl).
Defined.

(* ================================================================= *)
(** ** Iteration: begin, move and GetNumElements *)

Lemma InternalBegin_empty (w : World) (k : positive) (rc : option Z) (t : Z) :
  registry (lua w) !! k = Some (LTable t) -> tables (lua w) !! t = Some [] ->
  InternalBegin (mkVar (Some (state_obj w)) rc (Z.pos k)) w = Done (end_iterator w) w.
Proof.
  unfold end_iterator. open_world w. intros Ek Et. unfold InternalBegin.
  assert (Et' : @lookup Z Table (gmap Z Table) _ t tabs = Some (@nil (TValue * TValue)))
    by exact Et.
  repeat (progress (run_live; rewrite ?Ek, ?Et', ?luaH_next_nil; cbn [head])). reflexivity.
Qed.

(** X20: begin () on a handle without a state or on a nil handle reports an
    invalid variable, on a value that is not a table reports that it is not
    a table, and on an empty table reports nothing; in each case the result
    is the end iterator, the operand stack is as before, and destroying
    that iterator changes nothing. *)
Theorem begin_of_nothing_to_iterate (w : World) (rc : option Z) (ref : Z) :
  let invalid := reported "Trying to get an iterator for an invalid variable." w in
  let not_table :=
    reported "Trying to get an iterator for a variable that isn't a table." w in
  InternalBegin (mkVar None rc ref) w = Done (end_iterator w) invalid /\
  InternalBegin (mkVar (Some (state_obj w)) rc LUA_REFNIL) w = Done (end_iterator w) invalid /\
  (forall k,
     match registry (lua w) !! k with
     | Some (LTable t) =>
         tables (lua w) !! t = Some [] ->
         InternalBegin (mkVar (Some (state_obj w)) rc (Z.pos k)) w = Done (end_iterator w) w
     | _ =>
         InternalBegin (mkVar (Some (state_obj w)) rc (Z.pos k)) w
         = Done (end_iterator w) not_table
     end) /\
  TableIterator_dtor (end_iterator w) w = Done tt w /\
  TableIterator_dtor (end_iterator w) invalid = Done tt invalid /\
  TableIterator_dtor (end_iterator w) not_table = Done tt not_table.
Proof.
  cbv zeta.
  split; [ unfold reported, end_iterator; open_world w; unfold InternalBegin; steps;
           reflexivity | ].
  split; [ unfold reported, end_iterator; open_world w; unfold InternalBegin; steps;
           reflexivity | ].
  split.
  - intros k. destruct (registry (lua w) !! k) as [ v | ] eqn:Ek.
    + destruct v; try (revert Ek; unfold reported, end_iterator; open_world w; intros Ek;
                       unfold InternalBegin; run_live; rewrite ?Ek; run_live; reflexivity).
      intros Et. exact (InternalBegin_empty w k rc t Ek Et).
    + revert Ek. unfold reported, end_iterator. open_world w. intros Ek.
      unfold InternalBegin. run_live; rewrite ?Ek; run_live; reflexivity.
  - unfold reported, end_iterator. open_world w.
    unfold TableIterator_dtor. repeat split; steps; reflexivity.
Qed.

(** X21: move construction hands the state, the two handles and the end
    flag to the new iterator and changes nothing else; what is left of the
    source is at the end, so destroying it does not touch the operand
    stack.  Move assignment onto an iterator in use releases the handles of
    that iterator, the key first, as their destructors would, and leaves
    the operand stack as it is. *)
Theorem a_moved_iterator_keeps_the_stack (w : World) (it : TableIterator) :
  TableIterator_move_ctor it w = Done (it, moved_from) w /\
  TableIterator_dtor moved_from w = Done tt w /\
  forall stk0 t tbl this,
    iterating stk0 t tbl w this ->
    exists w1 w',
      LuaVar_dtor (m_key (m_keyValue this)) w = Done tt w1 /\
      LuaVar_dtor (m_value (m_keyValue this)) w1 = Done tt w' /\
      TableIterator_Move this it w = Done (it, moved_from) w' /\
      stack (lua w') = stack (lua w) /\ frame w w' /\ cerr w' = cerr w.
Proof.
  destruct it as [ps [[kps krc kref] [vps vrc vref]] atend].
  split; [ | split ].
  - open_world w. reflexivity.
  - open_world w. reflexivity.
  - intros stk0 t tbl this Hit. destruct this as [tps [tk tv] tend].
    unfold TableIterator_Move, Move. cbn [m_keyValue m_key m_value it_pState m_isAtEnd].
    assert (Hok : handle_ok w tk /\ handle_ok w tv /\ independent tk tv).
    { unfold iterating in Hit. cbn in Hit. destruct tend.
      - destruct Hit as (_ & Hk & Hv). repeat split; [ left; exact Hk | left; exact Hv | ].
        left. exact Hk.
      - destruct Hit as (_ & _ & _ & Hk & Hv & Hi). auto. }
    destruct Hok as (Hk & Hv & Hi).
    destruct (ClearRef_spec w tk Hk) as (k' & w1 & E1 & _ & _ & R1).
    pose proof (handle_ok_after_release _ _ _ _ R1 Hv Hi) as Hv1.
    destruct (ClearRef_spec w1 tv Hv1) as (v' & w2 & E2 & _ & _ & R2).
    exists w1, w2.
    split; [ unfold LuaVar_dtor, bind, ret; rewrite E1; reflexivity | ].
    split; [ unfold LuaVar_dtor, bind, ret; rewrite E2; reflexivity | ].
    unfold bind, ret. rewrite E1. cbv beta iota. rewrite E2. cbv beta iota.
    split; [ reflexivity | ].
    destruct R1 as (Hs1 & F1 & Hc1 & _). destruct R2 as (Hs2 & F2 & Hc2 & _).
    split; [ congruence | ]. split; [ eapply frame_trans; eassumption | congruence ].
Qed.

(** *** GetNumElements *)

Lemma holding_same w : holding w (stack (lua w)) (registry (lua w)) (heap w) = w.
Proof. destruct w as [[stk reg tabs blk upv] so dflt hp vs ce chk inv]. reflexivity. Qed.

Section TwoSlots.
Context `{Countable K} `{Infinite K} {V : Type}.
Implicit Types m : gmap K V.

Lemma two_slots_begin m0 (x y : V) :
  let a := fresh (dom m0) in
  let b := fresh (dom (<[a := x]> m0)) in
  two_slots m0 (<[b := y]> (<[a := x]> m0)) a b x y.
Proof.
  intros a b.
  pose proof (fresh_lookup_None m0) as Ha. fold a in Ha.
  pose proof (fresh_lookup_None (<[a := x]> m0)) as Hb. fold b in Hb.
  assert (Hab : a <> b) by (intros E; rewrite <- E, lookup_insert_eq in Hb; discriminate).
  rewrite lookup_insert_ne in Hb by exact Hab.
  split; [ exact Hab | ].
  split; [ rewrite lookup_insert_ne by congruence; apply lookup_insert_eq | ].
  split; [ apply lookup_insert_eq | ].
  apply map_eq. intros i. lookups.
Qed.

Lemma two_slots_step m0 m a b (x y x' y' : V) :
  two_slots m0 m a b x y ->
  let a' := fresh (dom m) in
  let m1 := delete a (<[a' := x']> m) in
  let b' := fresh (dom m1) in
  two_slots m0 (delete b (<[b' := y']> m1)) a' b' x' y' /\
  (<[a' := x']> m) !! a = Some x /\ (<[b' := y']> m1) !! b = Some y.
Proof.
  intros (Hab & Ha & Hb & Hm) a' m1 b'.
  pose proof (fresh_lookup_None m) as Ha'. fold a' in Ha'.
  pose proof (fresh_lookup_None m1) as Hb'. fold b' in Hb'.
  assert (Haa : a' <> a) by congruence.
  assert (Hab' : a' <> b) by congruence.
  assert (H1a : m1 !! a' = Some x').
  { subst m1. rewrite lookup_delete_ne by congruence. apply lookup_insert_eq. }
  assert (H1b : m1 !! b = Some y).
  { subst m1. rewrite lookup_delete_ne by congruence.
    rewrite lookup_insert_ne by congruence. exact Hb. }
  assert (Hba : b' <> a') by congruence.
  assert (Hbb : b' <> b) by congruence.
  assert (Hb0 : b' <> a -> m !! b' = None).
  { intros Hne. subst m1. rewrite lookup_delete_ne in Hb' by congruence.
    rewrite lookup_insert_ne in Hb' by congruence. exact Hb'. }
  split; [ | split ].
  - split; [ congruence | ]. split; [ | split ].
    + rewrite lookup_delete_ne by congruence. rewrite lookup_insert_ne by congruence.
      exact H1a.
    + rewrite lookup_delete_ne by congruence. apply lookup_insert_eq.
    + rewrite <- Hm. apply map_eq. intros i. subst m1.
      destruct (decide (i = b')) as [-> | Hib'].
      { destruct (decide (b' = a)) as [E | Hne]; lookups.
        symmetry. apply Hb0. exact Hne. }
      lookups.
  - rewrite lookup_insert_ne by congruence. exact Ha.
  - rewrite lookup_insert_ne by congruence. exact H1b.
Qed.

End TwoSlots.

Lemma CreateFromStack_exact w x s :
  stack (lua w) = x :: s -> x <> LNil ->
  CreateFromStack (Some (state_obj w)) w
  = Done (mkVar (Some (state_obj w)) (Some (fresh (dom (heap w))))
                (Z.pos (fresh (dom (registry (lua w))))))
         (holding w s (<[fresh (dom (registry (lua w))) := x]> (registry (lua w)))
                  (<[fresh (dom (heap w)) := 1]> (heap w))).
Proof.
  open_world w. intros -> Hx. unfold holding.
  destruct x; try congruence; destruct chk; steps; reflexivity.
Qed.

Lemma assign_temporary_last w (jk : positive) (qk : Z) tmp :
  heap w !! qk = Some 1 ->
  assign_temporary (mkVar (Some (state_obj w)) (Some qk) (Z.pos jk)) tmp w
  = Done tmp (holding w (stack (lua w)) (delete jk (registry (lua w))) (delete qk (heap w))).
Proof.
  intros Hq. unfold assign_temporary, Move.
  unfold bind at 1. unfold bind at 1.
  rewrite (ClearRef_live w jk qk 1 Hq ltac:(lia)). cbv beta iota.
  change (1 =? 1) with true. cbv iota. unfold ret at 1. cbv beta iota.
  unfold bind. cbn [snd fst]. unfold LuaVar_dtor, bind.
  rewrite ClearRef_nil by reflexivity. unfold ret.
  destruct tmp. open_world w. reflexivity.
Qed.

Lemma luaH_next_at tbl : forall pre kcur vcur rest,
  keys_normal tbl -> NoDup (map fst tbl) -> tbl = pre ++ (kcur, vcur) :: rest ->
  kcur <> LNil ->
  luaH_next tbl kcur = Some (head rest).
Proof.
  intros pre. revert tbl. induction pre as [ | [k0 v0] pre IH ];
    intros tbl kcur vcur rest Hn Hnd -> Hk.
  - cbn [app] in *. inversion Hn as [ | ? ? Hk0 Hrest ]; subst. cbn [fst] in Hk0.
    assert (E : luaH_next ((kcur, vcur) :: rest) kcur
                = if decide (kcur = key_norm kcur) then Some (head rest)
                  else luaH_next rest kcur).
    { destruct kcur; try reflexivity. congruence. }
    rewrite E, Hk0. destruct (decide (kcur = kcur)); congruence.
  - cbn [app] in *. inversion Hn as [ | ? ? Hk0 Hrest ]; subst.
    cbn [map fst] in Hnd. apply NoDup_cons in Hnd as [Hnotin Hnd'].
    assert (Hkn : key_norm kcur = kcur).
    { clear -Hrest. unfold keys_normal in Hrest. rewrite Forall_app in Hrest.
      destruct Hrest as [_ Hr]. inversion Hr; subst. assumption. }
    assert (E : luaH_next ((k0, v0) :: pre ++ (kcur, vcur) :: rest) kcur
                = if decide (k0 = key_norm kcur) then Some (head (pre ++ (kcur, vcur) :: rest))
                  else luaH_next (pre ++ (kcur, vcur) :: rest) kcur).
    { destruct kcur; try reflexivity. congruence. }
    rewrite E, Hkn. destruct (decide (k0 = kcur)) as [-> | Hne].
    + exfalso. apply Hnotin. rewrite map_app. cbn. apply elem_of_app. right. left.
    + eapply IH; eauto.
Qed.

Ltac use_exact_create Hx :=
  match goal with
  | |- context [CreateFromStack (Some ?so) ?W] =>
      let E := fresh "E" in
      pose proof (CreateFromStack_exact W _ _ eq_refl Hx) as E;
      flat_world_in E; rewrite E; clear E
  end.

Ltac use_last_owner Hq :=
  match goal with
  | |- context [assign_temporary (mkVar (Some ?so) (Some ?q) (Z.pos ?j)) ?tmp ?W] =>
      let E := fresh "E" in
      pose proof (assign_temporary_last W j q tmp Hq) as E;
      flat_world_in E; rewrite E; clear E
  end.

Lemma TableIterator_next_more w t tbl R Hp jk jv qk qv kcur k2 v2 :
  tables (lua w) !! t = Some tbl -> luaH_next tbl kcur = Some (Some (k2, v2)) ->
  k2 <> LNil -> v2 <> LNil ->
  let j1 := fresh (dom R) in
  let R1 := delete jk (<[j1 := k2]> R) in
  let j2 := fresh (dom R1) in
  let q1 := fresh (dom Hp) in
  let H1 := delete qk (<[q1 := 1]> Hp) in
  let q2 := fresh (dom H1) in
  (<[q1 := 1]> Hp) !! qk = Some 1 -> (<[q2 := 1]> H1) !! qv = Some 1 ->
  TableIterator_next (visiting_iterator (state_obj w) jk jv qk qv)
                     (holding w (kcur :: LTable t :: stack (lua w)) R Hp)
  = Done (visiting_iterator (state_obj w) j1 j2 q1 q2)
         (holding w (k2 :: LTable t :: stack (lua w))
                  (delete jv (<[j2 := v2]> R1)) (delete qv (<[q2 := 1]> H1))).
Proof.
  intros Ht Enext Hk2 Hv2 j1 R1 j2 q1 H1 q2 Hq1 Hq2.
  subst j1 R1 j2 q1 H1 q2.
  unfold TableIterator_next, visiting_iterator, holding.
  cbn [it_pState m_keyValue m_key m_value m_isAtEnd].
  open_world w.
  repeat (progress (step_api; rewrite ?Ht, ?Enext)).
  use_exact_create Hk2.
  use_last_owner Hq1.
  repeat (progress step_api).
  use_exact_create Hv2.
  use_last_owner Hq2.
  reflexivity.
Qed.

Ltac use_live_clear Hq :=
  match goal with
  | |- context [ClearRef (mkVar (Some ?so) (Some ?q) (Z.pos ?j)) ?W] =>
      let E := fresh "E" in
      pose proof (ClearRef_live W j q 1 Hq ltac:(lia)) as E;
      change (1 =? 1) with true in E;
      flat_world_in E; rewrite E; clear E
  end.

Lemma TableIterator_next_last w t tbl R Hp jk jv qk qv kcur :
  tables (lua w) !! t = Some tbl -> luaH_next tbl kcur = Some None ->
  Hp !! qk = Some 1 -> delete qk Hp !! qv = Some 1 ->
  TableIterator_next (visiting_iterator (state_obj w) jk jv qk qv)
                     (holding w (kcur :: LTable t :: stack (lua w)) R Hp)
  = Done (finished_iterator (state_obj w))
         (holding w (stack (lua w)) (delete jv (delete jk R)) (delete qv (delete qk Hp))).
Proof.
  intros Ht Enext Hq1 Hq2.
  unfold TableIterator_next, visiting_iterator, finished_iterator, holding.
  cbn [it_pState m_keyValue m_key m_value m_isAtEnd].
  open_world w.
  repeat (progress (step_api; rewrite ?Ht, ?Enext)).
  unfold SetToEnd, KeyValuePair_Clear.
  cbn [it_pState m_keyValue m_key m_value m_isAtEnd].
  unfold bind at 1. unfold bind at 1. unfold bind at 1.
  use_live_clear Hq1. cbv beta iota.
  unfold bind at 1.
  use_live_clear Hq2. cbv beta iota.
  repeat (progress step_api). reflexivity.
Qed.

Lemma InternalBegin_first w k rc t k1 v1 rest :
  registry (lua w) !! k = Some (LTable t) ->
  tables (lua w) !! t = Some ((k1, v1) :: rest) ->
  k1 <> LNil -> v1 <> LNil ->
  let j1 := fresh (dom (registry (lua w))) in
  let R1 := <[j1 := k1]> (registry (lua w)) in
  let j2 := fresh (dom R1) in
  let q1 := fresh (dom (heap w)) in
  let H1 := <[q1 := 1]> (heap w) in
  let q2 := fresh (dom H1) in
  InternalBegin (mkVar (Some (state_obj w)) rc (Z.pos k)) w
  = Done (visiting_iterator (state_obj w) j1 j2 q1 q2)
         (holding w (k1 :: LTable t :: stack (lua w)) (<[j2 := v1]> R1) (<[q2 := 1]> H1)).
Proof.
  intros Hk Ht Hk1 Hv1 j1 R1 j2 q1 H1 q2. subst j1 R1 j2 q1 H1 q2.
  unfold InternalBegin, visiting_iterator, holding. open_world w.
  assert (Ht' : @lookup Z Table (gmap Z Table) _ t tabs = Some ((k1, v1) :: rest))
    by exact Ht.
  repeat (progress (step_api; rewrite ?Hk, ?Ht', ?luaH_next_nil; cbn [head])).
  use_exact_create Hk1.
  use_exact_create Hv1.
  reflexivity.
Qed.

Lemma wrap_unsigned_succ c n :
  wrap_unsigned 64 (wrap_unsigned 64 (c + 1) + n) = wrap_unsigned 64 (c + (1 + n)).
Proof.
  unfold wrap_unsigned. rewrite Zplus_mod_idemp_l. f_equal. lia.
Qed.

Lemma count_from (w : World) (t : Z) (tbl : Table) (end_ : TableIterator) :
  keys_normal tbl -> NoDup (map fst tbl) -> no_nil tbl ->
  tables (lua w) !! t = Some tbl ->
  forall rest pre kcur vcur fuel c R Hp jk jv qk qv,
    tbl = pre ++ (kcur, vcur) :: rest ->
    two_slots (registry (lua w)) R jk jv kcur vcur ->
    two_slots (heap w) Hp qk qv 1 1 ->
    (S (length rest) < fuel)%nat ->
    count_elements fuel (visiting_iterator (state_obj w) jk jv qk qv) end_ c
                   (holding w (kcur :: LTable t :: stack (lua w)) R Hp)
    = Done (Some (finished_iterator (state_obj w),
                  wrap_unsigned 64 (c + Z.of_nat (S (length rest))))) w.
Proof.
  intros Hn Hnd Hnil Ht.
  induction rest as [ | [k2 v2] rest IH ];
    intros pre kcur vcur fuel c R Hp jk jv qk qv Htbl HR HH Hfuel.
  - destruct fuel as [ | [ | fuel ] ]; cbn [length] in Hfuel; try lia.
    assert (Hk : kcur <> LNil).
    { unfold no_nil in Hnil. rewrite Htbl, Forall_app in Hnil. destruct Hnil as [_ Hr].
      inversion Hr as [ | ? ? [Hk _] _ ]; subst. exact Hk. }
    pose proof (luaH_next_at tbl pre kcur vcur [] Hn Hnd Htbl Hk) as Enext. cbn [head] in Enext.
    destruct HR as (Hj & _ & _ & HR). destruct HH as (Hq & Hqk & Hqv & HH).
    cbn [count_elements]. unfold TableIterator_ne, TableIterator_IsValid.
    cbn [visiting_iterator m_isAtEnd negb].
    rewrite (bind_Done _ _ _ _ _
               (TableIterator_next_last w t tbl R Hp jk jv qk qv kcur Ht Enext Hqk
                  ltac:(rewrite lookup_delete_ne by exact Hq; exact Hqv))).
    cbv beta. rewrite HR, HH, holding_same. reflexivity.
  - destruct fuel as [ | fuel ]; cbn [length] in Hfuel; try lia.
    assert (Hk : kcur <> LNil /\ k2 <> LNil /\ v2 <> LNil).
    { unfold no_nil in Hnil. rewrite Htbl, Forall_app in Hnil. destruct Hnil as [_ Hr].
      inversion Hr as [ | ? ? [Hk _] Hr' ]; subst.
      inversion Hr' as [ | ? ? [Hk2 Hv2] _ ]; subst. auto. }
    destruct Hk as (Hk & Hk2 & Hv2).
    pose proof (luaH_next_at tbl pre kcur vcur _ Hn Hnd Htbl Hk) as Enext. cbn [head] in Enext.
    destruct (two_slots_step _ _ _ _ _ _ k2 v2 HR) as (HR' & _ & _).
    destruct (two_slots_step _ _ _ _ _ _ 1 1 HH) as (HH' & Hq1 & Hq2).
    cbn [count_elements]. unfold TableIterator_ne, TableIterator_IsValid.
    cbn [visiting_iterator m_isAtEnd negb].
    rewrite (bind_Done _ _ _ _ _
               (TableIterator_next_more w t tbl R Hp jk jv qk qv kcur k2 v2 Ht Enext Hk2 Hv2
                  Hq1 Hq2)).
    cbv beta.
    assert (Hfuel' : (S (length rest) < fuel)%nat) by (apply Nat.succ_lt_mono; exact Hfuel).
    assert (Htbl' : tbl = (pre ++ [(kcur, vcur)]) ++ (k2, v2) :: rest)
      by (rewrite <- app_assoc; exact Htbl).
    rewrite (IH (pre ++ [(kcur, vcur)]) k2 v2 fuel _ _ _ _ _ _ _ Htbl' HR' HH' Hfuel').
    rewrite wrap_unsigned_succ.
    replace (1 + Z.of_nat (S (length rest))) with (Z.of_nat (S (length ((k2, v2) :: rest))))
      by (cbn [length]; lia).
    reflexivity.
Qed.

Lemma TableIterator_dtor_at_end w ps k v :
  m_reference k = LUA_REFNIL -> m_reference v = LUA_REFNIL ->
  TableIterator_dtor (mkIter ps (mkPair k v) true) w = Done tt w.
Proof.
  intros Hk Hv. unfold TableIterator_dtor. cbn [m_isAtEnd negb m_keyValue m_key m_value].
  unfold bind at 1. unfold ret at 1. cbv beta iota.
  rewrite (bind_Done _ _ _ _ _ (LuaVar_dtor_nil w v Hv)). cbv beta.
  apply LuaVar_dtor_nil. exact Hk.
Qed.

Ltac dtor_at_end :=
  match goal with
  | |- bind (TableIterator_dtor (mkIter ?ps (mkPair ?a ?b) true)) _ ?W = _ =>
      rewrite (bind_Done _ _ _ _ _ (TableIterator_dtor_at_end W ps a b eq_refl eq_refl));
      cbv beta
  end.

(** X22: GetNumElements of a handle on a table returns the number of its
    entries (modulo 2^64, the width of the counter) once the loop has fuel
    for them all, and leaves the operand stack, the registry and the
    RefCount objects as they were: the references the iterator made for
    each key and value are all released. *)
Theorem GetNumElements_counts_the_entries (w : World) (k : positive) (rc : option Z)
    (t : Z) (tbl : Table) (fuel : nat) :
  registry (lua w) !! k = Some (LTable t) -> tables (lua w) !! t = Some tbl ->
  keys_normal tbl -> NoDup (map fst tbl) -> no_nil tbl ->
  (length tbl < fuel)%nat ->
  GetNumElements fuel (mkVar (Some (state_obj w)) rc (Z.pos k)) w
  = Done (Some (wrap_unsigned 64 (Z.of_nat (length tbl)))) w.
Proof.
  intros Hk Ht Hn Hnd Hnil Hfuel.
  unfold GetNumElements.
  rewrite (bind_Done _ _ _ _ _ (IsTable_live w k rc _ Hk)). cbv beta.
  change (ttype (LTable t) =? LUA_TTABLE) with true. cbn [negb].
  destruct tbl as [ | [k1 v1] rest ].
  - assert (Ebegin : InternalBegin (mkVar (Some (state_obj w)) rc (Z.pos k)) w
                     = Done (end_iterator w) w).
      by exact (InternalBegin_empty w k rc t Hk Ht).
    rewrite (bind_Done _ _ _ _ _ Ebegin). cbv beta.
    unfold InternalEnd.
    assert (Eend : TableIterator_default w = Done (end_iterator w) w)
      by (destruct w; reflexivity).
    rewrite (bind_Done _ _ _ _ _ Eend). cbv beta.
    destruct fuel as [ | fuel ]; [ cbn in Hfuel; lia | ].
    cbn [count_elements]. unfold TableIterator_ne, TableIterator_IsValid, end_iterator.
    cbn [m_isAtEnd negb]. unfold bind at 1. unfold ret at 1. cbv beta iota.
    do 2 dtor_at_end. reflexivity.
  - assert (Hk1 : k1 <> LNil /\ v1 <> LNil).
    { inversion Hnil as [ | ? ? Hkv _ ]; subst. exact Hkv. }
    destruct Hk1 as [Hk1 Hv1].
    rewrite (bind_Done _ _ _ _ _ (InternalBegin_first w k rc t k1 v1 rest Hk Ht Hk1 Hv1)).
    cbv beta. unfold InternalEnd.
    match goal with |- bind _ _ ?W = _ =>
      assert (Eend : TableIterator_default W = Done (end_iterator w) W)
        by (destruct w; reflexivity) end.
    rewrite (bind_Done _ _ _ _ _ Eend). cbv beta.
    rewrite (bind_Done _ _ _ _ _
               (count_from w t ((k1, v1) :: rest) (end_iterator w) Hn Hnd Hnil Ht
                  rest [] k1 v1 fuel 0 _ _ _ _ _ _ eq_refl
                  (two_slots_begin (registry (lua w)) k1 v1)
                  (two_slots_begin (heap w) 1 1) Hfuel)).
    cbv beta iota.
    unfold finished_iterator, end_iterator.
    do 2 dtor_at_end. reflexivity.
Qed.

Lemma the_table_abc_has_three_elements :
  GetNumElements 4 handle_1 (abc_world true) = Done (Some 3) (abc_world true).
Proof.
  apply (GetNumElements_counts_the_entries (abc_world true) 1 (Some 10) 0 abc 4).
  - reflexivity.
  - reflexivity.
  - repeat constructor.
  - apply (bool_decide_unpack _). vm_compute. exact I.
  - repeat constructor; discriminate.
  - cbn. lia.
Defined.

(* ================================================================= *)
(** ** Bound free functions and object and function pairs *)

Section BoundCalls.
Context `{LuaRuntime} `{NativeCode}.

Lemma Call_spec (sig : Signature) (pFunc : Z) (w : World) :
  exists vs w1 w2,
    length vs = length (sig_args sig) /\
    (forall i t, nth_error (sig_args sig) i = Some t ->
       match slot w i with
       | Some v => exists nv, nth_error vs i = Some nv /\ marshalled t v w1 nv
       | None => nth_error vs i = Some (default_value t (s_pDefaultLuaState w))
       end) /\
    invoked w2 = invoked w ++ [(pFunc, vs)] /\
    stack (lua w2) = [] /\ state_obj w2 = state_obj w /\
    Call sig pFunc w
    = push_result (Some (state_obj w)) sig (native_apply pFunc vs) w2.
Proof.
  destruct (ProcessArg_spec 0 (sig_args sig) 0 w)
    as (vs & w0 & E & Hl & F & G & Hc & Hlen & Hfr & Hsep & Hvs).
  change (Z.of_nat 0 + 0) with 0 in E. change (Z.of_nat 0 + 1) with 1 in E.
  rewrite Z.add_0_r in E.
  set (w1 := set_lua (set_stack [] (lua w0)) w0).
  set (wi := set_invoked (invoked w1 ++ [(pFunc, vs)]) w1).
  destruct (destroy_arguments_spec vs wi) as (w2 & E2 & Hs2 & F2 & Hc2).
  { intros h Hin. exact (handle_ok_fresh w w0 h F (Hfr h Hin)). }
  { exact Hsep. }
  exists vs, w1, w2.
  assert (Fi : invoked w0 = invoked w) by (destruct F as (_ & _ & _ & _ & _ & _ & _ & Fi); exact Fi).
  split; [ exact Hlen | ]. split.
  { intros i t Hi. specialize (Hvs i t Hi). cbn [Nat.add] in Hvs.
    destruct (slot w i); [ | exact Hvs ].
    destruct Hvs as (nv & Hnv & Hm). exists nv. split; [ exact Hnv | ].
    eapply marshalled_grows; [ | | exact Hm ]; [ repeat split | split; auto ]. }
  split; [ destruct F2 as (_ & _ & _ & _ & _ & _ & _ & Fi2); rewrite Fi2; cbn;
           rewrite Fi; reflexivity | ].
  split; [ rewrite Hs2; reflexivity | ].
  split; [ rewrite (frame_state _ _ F2); exact (frame_state _ _ F) | ].
  unfold Call, bind at 1, GetCppStateFromCState.
  unfold bind at 1, BuildArguments, bind at 1. rewrite GetState_ok. cbv beta iota.
  unfold bind at 1, lua_gettop, bind at 1, getL, ret. cbv beta iota.
  unfold bind at 1. rewrite E. cbv beta iota.
  unfold bind at 1. rewrite lua_settop_0. cbv beta iota.
  unfold bind at 1, luastl_apply. cbv beta iota.
  unfold bind at 1. fold w1. fold wi. rewrite E2. cbv beta iota.
  reflexivity.
Qed.

Lemma Call_member_state (sig : Signature) (pObj pFunc : Z) (w : World) :
  exists vs w1 w2,
    length vs = length (sig_args sig) /\
    (forall i t, nth_error (sig_args sig) i = Some t ->
       match slot w i with
       | Some v => exists nv, nth_error vs i = Some nv /\ marshalled t v w1 nv
       | None => nth_error vs i = Some (default_value t (s_pDefaultLuaState w))
       end) /\
    invoked w2 = invoked w ++ [(pFunc, NPointer pObj :: vs)] /\
    stack (lua w2) = [] /\ state_obj w2 = state_obj w /\
    Call_member sig pObj pFunc w
    = push_result (Some (state_obj w)) sig (native_apply pFunc (NPointer pObj :: vs)) w2.
Proof.
  destruct (ProcessArg_spec 1 (sig_args sig) 0 w)
    as (vs & w0 & E & Hl & F & G & Hc & Hlen & Hfr & Hsep & Hvs).
  change (Z.of_nat 0 + 1) with 1 in E.
  set (w1 := set_lua (set_stack [] (lua w0)) w0).
  set (wi := set_invoked (invoked w1 ++ [(pFunc, NPointer pObj :: vs)]) w1).
  destruct (destroy_arguments_spec (NPointer pObj :: vs) wi) as (w2 & E2 & Hs2 & F2 & Hc2).
  { intros h [Hin | Hin]; [ discriminate | ].
    exact (handle_ok_fresh w w0 h F (Hfr h Hin)). }
  { exact Hsep. }
  exists vs, w1, w2.
  assert (Fi : invoked w0 = invoked w) by (destruct F as (_ & _ & _ & _ & _ & _ & _ & Fi); exact Fi).
  split; [ exact Hlen | ]. split.
  { intros i t Hi. specialize (Hvs i t Hi). cbn [Nat.add] in Hvs.
    destruct (slot w i); [ | exact Hvs ].
    destruct Hvs as (nv & Hnv & Hm). exists nv. split; [ exact Hnv | ].
    eapply marshalled_grows; [ | | exact Hm ]; [ repeat split | split; auto ]. }
  split; [ destruct F2 as (_ & _ & _ & _ & _ & _ & _ & Fi2); rewrite Fi2; cbn;
           rewrite Fi; reflexivity | ].
  split; [ rewrite Hs2; reflexivity | ].
  split; [ rewrite (frame_state _ _ F2); exact (frame_state _ _ F) | ].
  unfold Call_member, bind at 1, GetCppStateFromCState.
  unfold bind at 1, BuildArgumentsWithObj, bind at 1. rewrite GetState_ok. cbv beta iota.
  unfold bind at 1, lua_gettop, bind at 1, getL, ret. cbv beta iota.
  unfold bind at 1. rewrite E. cbv beta iota.
  unfold bind at 1. rewrite lua_settop_0. cbv beta iota.
  unfold bind at 1, luastl_apply. cbv beta iota.
  unfold bind at 1. fold w1. fold wi. rewrite E2. cbv beta iota.
  rewrite <- (frame_state _ _ F). reflexivity.
Qed.

Lemma push_result_plain (sig : Signature) (val : NativeValue) (w w2 : World) :
  state_obj w2 = state_obj w ->
  match sig_ret sig with
  | None => push_result (Some (state_obj w)) sig val w2 = Done 0 w2
  | Some _ =>
      plain val ->
      push_result (Some (state_obj w)) sig val w2 = Done 1 (pushed (pushed_value val) w2)
  end.
Proof.
  intros Hs. unfold push_result. destruct (sig_ret sig); [ | reflexivity ].
  intros Hp. rewrite <- Hs. rewrite (bind_Done _ _ _ _ _ (Push_as_plain val w2 Hp)).
  cbv beta. destruct val; try destruct Hp; reflexivity.
Qed.

(** X23: the trampoline of a bound free function, in a frame whose first
    upvalue is the function pointer, invokes the native function once, on
    one value for each declared parameter: parameter i gets what the
    marshalling layer makes of argument i, or the default of its type when
    that argument was not passed.  The stack is emptied before the call.  A
    function that returns nothing gives 0 results; otherwise the result,
    when it is not a handle, is pushed on the empty stack and 1 is
    returned. *)
Theorem a_bound_function_is_called_on_the_arguments (sig : Signature) (w : World)
    (pFunc : Z) :
  nth_error (upvalues (lua w)) 0 = Some (LLightUserData pFunc) ->
  exists vs w1 w2,
    length vs = length (sig_args sig) /\
    (forall i t, nth_error (sig_args sig) i = Some t ->
       match slot w i with
       | Some v => exists nv, nth_error vs i = Some nv /\ marshalled t v w1 nv
       | None => nth_error vs i = Some (default_value t (s_pDefaultLuaState w))
       end) /\
    invoked w2 = invoked w ++ [(pFunc, vs)] /\
    stack (lua w2) = [] /\
    match sig_ret sig with
    | None => CallBoundFunction sig w = Done 0 w2
    | Some _ =>
        plain (native_apply pFunc vs) ->
        CallBoundFunction sig w = Done 1 (pushed (pushed_value (native_apply pFunc vs)) w2)
    end.
Proof.
  intros Hup.
  assert (E0 : CallBoundFunction sig w = Call sig pFunc w).
  { unfold CallBoundFunction.
    rewrite (bind_Done _ _ w w tt (debug_traceback_ok w)). cbv beta.
    revert Hup. open_world w. intros Hup.
    destruct upv as [ | u0 ups ]; [ discriminate | ]. injection Hup as ->.
    unfold bind at 1. unfold lua_touserdata, value_at, index2addr, lua_upvalueindex,
      LUA_REGISTRYINDEX, bind, getL, ret. cbn. reflexivity. }
  destruct (Call_spec sig pFunc w) as (vs & w1 & w2 & Hlen & Hargs & Hinv & Hstk & Hso & E).
  exists vs, w1, w2. repeat (split; [ assumption | ]).
  rewrite E0, E. apply push_result_plain. exact Hso.
Qed.

(** X24: the trampoline of a bound object and member function pair, in a
    frame whose upvalues are the object pointer and the block that holds
    the member function pointer, invokes the member function once on the
    object pointer followed by one value for each declared parameter, taken
    from the arguments or defaulted; no argument is taken for the receiver.
    The stack is emptied before the call and holds the result alone
    afterwards, when there is one and it is not a handle. *)
Theorem an_object_and_function_pair_is_called (sig : Signature) (w : World)
    (pObj : Z) (b : positive) (pFunc : Z) :
  nth_error (upvalues (lua w)) 0 = Some (LLightUserData pObj) ->
  nth_error (upvalues (lua w)) 1 = Some (LUserData b) ->
  blocks (lua w) !! b = Some pFunc ->
  exists vs w1 w2,
    length vs = length (sig_args sig) /\
    (forall i t, nth_error (sig_args sig) i = Some t ->
       match slot w i with
       | Some v => exists nv, nth_error vs i = Some nv /\ marshalled t v w1 nv
       | None => nth_error vs i = Some (default_value t (s_pDefaultLuaState w))
       end) /\
    invoked w2 = invoked w ++ [(pFunc, NPointer pObj :: vs)] /\
    stack (lua w2) = [] /\
    match sig_ret sig with
    | None => CallBoundMemberFunctionObjPair sig w = Done 0 w2
    | Some _ =>
        plain (native_apply pFunc (NPointer pObj :: vs)) ->
        CallBoundMemberFunctionObjPair sig w
        = Done 1 (pushed (pushed_value (native_apply pFunc (NPointer pObj :: vs))) w2)
    end.
Proof.
  intros Hup1 Hup2 Hblk.
  assert (E0 : CallBoundMemberFunctionObjPair sig w = Call_member sig pObj pFunc w).
  { unfold CallBoundMemberFunctionObjPair.
    rewrite (bind_Done _ _ w w tt (debug_traceback_ok w)). cbv beta.
    revert Hup1 Hup2 Hblk. open_world w. intros Hup1 Hup2 Hblk.
    destruct upv as [ | u0 [ | u2 ups ] ]; try discriminate.
    injection Hup1 as ->. injection Hup2 as ->.
    cbn [lua blocks] in Hblk.
    repeat (progress (step; try unfold read_block; rewrite ?Hblk)).
    reflexivity. }
  destruct (Call_member_state sig pObj pFunc w)
    as (vs & w1 & w2 & Hlen & Hargs & Hinv & Hstk & Hso & E).
  exists vs, w1, w2. repeat (split; [ assumption | ]).
  rewrite E0, E. apply push_result_plain. exact Hso.
Qed.

End BoundCalls.

Lemma FastSquare_of_five :
  exists w2,
    @CallBoundFunction decimal_runtime example_natives (mkSig (Some (CInteger int32))
      [CInteger int32]) (free_call_world false)
    = Done 1 (pushed (LInteger 25) w2) /\
    invoked w2 = [(1, [NInt int32 5])] /\ stack (lua w2) = [].
Proof.
  destruct (@a_bound_function_is_called_on_the_arguments decimal_runtime example_natives
              (mkSig (Some (CInteger int32)) [CInteger int32]) (free_call_world false) 1
              eq_refl)
    as (vs & w1 & w2 & Hlen & Hargs & Hinv & Hstk & Hcall).
  destruct (Hargs 0%nat (CInteger int32) eq_refl) as (nv & Hnv & Hm).
  cbn in Hm. subst nv.
  destruct vs as [ | v0 [ | v1 vs ] ]; try discriminate. injection Hnv as ->.
  exists w2. split; [ exact (Hcall I) | ]. split; [ exact Hinv | exact Hstk ].
Defined.

Lemma a_member_of_the_bound_object_is_called :
  exists w2,
    @CallBoundMemberFunctionObjPair decimal_runtime example_natives
      (mkSig None [CInteger int32]) (pair_call_world false) = Done 0 w2 /\
    invoked w2 = [(2, [NPointer 777; NInt int32 5])] /\ stack (lua w2) = [].
Proof.
  destruct (@an_object_and_function_pair_is_called decimal_runtime example_natives
              (mkSig None [CInteger int32]) (pair_call_world false) 777 1%positive 2
              eq_refl eq_refl eq_refl)
    as (vs & w1 & w2 & Hlen & Hargs & Hinv & Hstk & Hcall).
  destruct (Hargs 0%nat (CInteger int32) eq_refl) as (nv & Hnv & Hm).
  cbn in Hm. subst nv.
  destruct vs as [ | v0 [ | v1 vs ] ]; try discriminate. injection Hnv as ->.
  exists w2. split; [ exact Hcall | ]. split; [ exact Hinv | exact Hstk ].
Defined.


(* ================================================================= *)
(** ** Calls of script functions *)

Lemma drop_succ_app {A} (xs : list A) x ys : drop (length xs + 1) (xs ++ x :: ys) = ys.
Proof. induction xs as [ | y xs IH ]; [ reflexivity | exact IH ]. Qed.

Lemma set_lua_twice L1 L0 w : set_lua L1 (set_lua L0 w) = set_lua L1 w.
Proof. reflexivity. Qed.

Lemma set_cerr_same w : set_cerr (cerr w) w = w.
Proof. destruct w; reflexivity. Qed.

Section VoidCalls.
Context `{LuaRuntime}.

Lemma PushArguments_plain args : forall W, Forall plain args ->
  PushArguments (Some (state_obj W)) args W
  = Done tt (set_lua (set_stack (rev (map pushed_value args) ++ stack (lua W)) (lua W)) W).
Proof.
  induction args as [ | a args IH ]; intros W Hp.
  - open_world W. reflexivity.
  - inversion Hp as [ | ? ? Ha Hrest ]; subst. cbn [PushArguments].
    rewrite (bind_Done _ _ _ _ _ (Push_as_plain a W Ha)). cbv beta.
    change (Some (state_obj W)) with (Some (state_obj (pushed (pushed_value a) W))).
    rewrite IH by assumption. open_world W. unfold pushed. cbn [map rev].
    cbn [lua stack set_lua set_stack registry tables blocks upvalues state_obj
         s_pDefaultLuaState heap vars cerr checked invoked].
    rewrite <- app_assoc. reflexivity.
Qed.

Lemma CheckFunctionVar_function (w : World) (k : positive) (rc : option Z) f c :
  registry (lua w) !! k = Some (LFunction f c) ->
  CheckFunctionVar (mkVar (Some (state_obj w)) rc (Z.pos k)) w = Done true w.
Proof.
  intros Hk. unfold CheckFunctionVar, bind.
  rewrite (IsFunction_live w k rc _ Hk). reflexivity.
Qed.

Lemma settop_below (w : World) (L : lua_State) (xs : list TValue) (h : TValue) :
  stack L = xs ++ h :: stack (lua w) ->
  lua_settop (Z.of_nat (length (stack (lua w)))) (set_lua L w)
  = Done tt (set_lua (set_stack (stack (lua w)) L) w).
Proof.
  intros Hs. unfold lua_settop, bind, getL, putL.
  destruct (0 <=? Z.of_nat (length (stack (lua w)))) eqn:E; [ | apply Z.leb_gt in E; lia ].
  cbv beta iota zeta. rewrite Nat2Z.id.
  destruct w as [L0 so dflt hp vs ce chk inv]. cbn [lua set_lua] in *.
  rewrite Hs. rewrite length_app. cbn [length].
  replace (length (stack L0) - (length xs + S (length (stack L0))))%nat with 0%nat by lia.
  replace (length xs + S (length (stack L0)) - length (stack L0))%nat
    with (length (xs ++ [h])) by (rewrite length_app; cbn [length]; lia).
  cbn [replicate app].
  replace (xs ++ h :: stack L0) with ((xs ++ [h]) ++ stack L0)
    by (rewrite <- app_assoc; reflexivity).
  rewrite drop_app_length. destruct L; reflexivity.
Qed.

Lemma report_top_string (W : World) (msg : string) (rest : list TValue) :
  stack (lua W) = LString msg :: rest ->
  report_top W = Done tt (set_cerr (cerr W ++ [c_str msg]) W).
Proof.
  open_world W. intros ->. unfold report_top, lua_tostring. steps. reflexivity.
Qed.

Lemma entering_the_call (w : World) (k : positive) (rc : option Z) f c args {B}
    (rest : Z -> unit -> M B) :
  registry (lua w) !! k = Some (LFunction f c) -> Forall plain args ->
  (run GetState (Some (state_obj w));
   do oldTop <- lua_gettop;
   run lua_pushcfunction OnLuaException;
   do _ <- PushValueToStack (mkVar (Some (state_obj w)) rc (Z.pos k)) true;
   do u <- PushArguments (Some (state_obj w)) args;
   rest oldTop u) w
  = rest (Z.of_nat (length (stack (lua w)))) tt (set_lua (call_frame w (LFunction f c) args) w).
Proof.
  intros Hk Hp.
  rewrite (bind_Done _ _ _ _ _ (GetState_ok w)). cbv beta.
  unfold lua_gettop at 1. unfold bind at 1. unfold bind at 1. unfold getL at 1.
  unfold ret at 1. cbv beta iota.
  unfold lua_pushcfunction. unfold bind at 1. unfold push at 1. unfold bind at 1.
  unfold getL at 1. cbv beta iota. unfold putL at 1. cbv beta iota.
  match goal with |- bind _ _ ?W = _ =>
    assert (HP : PushValueToStack (mkVar (Some (state_obj w)) rc (Z.pos k)) true W
                 = Done true (pushed (LFunction f c) W))
      by (apply (PushValueToStack_live W k rc (LFunction f c)); destruct w as [[]]; exact Hk)
  end.
  rewrite (bind_Done _ _ _ _ _ HP). cbv beta. clear HP.
  match goal with |- bind _ _ ?W = _ =>
    pose proof (PushArguments_plain args W Hp) as HA;
    change (state_obj W) with (state_obj w) in HA
  end.
  rewrite (bind_Done _ _ _ _ _ HA). cbv beta. clear HA.
  destruct w as [[]]. reflexivity.
Qed.

Lemma void_call_of_a_function (w : World) (k : positive) (rc : option Z) (f : Z) (c : bool)
    (args : list NativeValue) :
  registry (lua w) !! k = Some (LFunction f c) -> Forall plain args ->
  let n := Z.of_nat (length args) in
  let L0 := call_frame w (LFunction f c) args in
  pcall_leaves n 0 (- (n + 2)) L0 ->
  LuaFunction_void_call (mkVar (Some (state_obj w)) rc (Z.pos k)) args w
  = Done tt (after_call w (luaD_pcall n 0 (- (n + 2)) L0)).
Proof.
  intros Hk Hp n L0 Hleaves. unfold LuaFunction_void_call.
  rewrite (bind_Done _ _ _ _ _ (CheckFunctionVar_function w k rc f c Hk)).
  cbv beta. cbn [negb m_pState].
  rewrite (entering_the_call w k rc f c args _ Hk Hp).
  fold n. fold L0. unfold GetExceptionHandlerStackOffset.
  unfold lua_pcall at 1. unfold bind at 1. unfold bind at 1. unfold getL at 1.
  cbv beta iota zeta. unfold bind at 1. unfold putL at 1. cbv beta iota.
  unfold ret at 1. cbv beta iota. cbn [lua set_lua].
  unfold pcall_leaves in Hleaves. cbv zeta in Hleaves. unfold after_call.
  destruct (luaD_pcall n 0 (- (n + 2)) L0) as [status L1]. cbn [fst snd] in *.
  assert (Hbelow : drop (Z.to_nat n + 1) (stack L0)
                   = LFunction OnLuaException true :: stack (lua w)).
  { subst L0 n. unfold call_frame. cbn [stack set_stack].
    rewrite Nat2Z.id.
    replace (length args) with (length (rev (map pushed_value args)))
      by (rewrite length_rev, length_map; reflexivity).
    apply drop_succ_app. }
  destruct (status =? LUA_OK) eqn:Est.
  - destruct Hleaves as (results & Hlen & Hst). rewrite Hbelow in Hst.
    destruct results; [ | discriminate ]. cbn [app] in Hst.
    unfold bind at 1. unfold ret at 1. cbv beta iota. cbn [negb].
    rewrite set_lua_twice, (settop_below w L1 [] _ Hst), app_nil_r.
    apply f_equal. symmetry. apply (set_cerr_same (set_lua _ w)).
  - destruct Hleaves as (msg & Hst). rewrite Hbelow in Hst.
    cbn [negb].
    rewrite set_lua_twice.
    rewrite (bind_Done _ _ _ _ _ (report_top_string (set_lua L1 w) msg _ Hst)).
    cbv beta.
    assert (Etop : top_string L1 = c_str msg)
      by (unfold top_string; rewrite Hst; reflexivity).
    rewrite Etop.
    exact (settop_below (set_cerr (cerr w ++ [c_str msg]) w) L1 [LString msg] _ Hst).
Qed.

Lemma lua_pop_one (W : World) (x : TValue) (rest : list TValue) :
  stack (lua W) = x :: rest ->
  lua_pop 1 W = Done tt (set_lua (set_stack rest (lua W)) W).
Proof. open_world W. intros ->. steps. reflexivity. Qed.

Lemma void_call0_of_a_function (w : World) (k : positive) (rc : option Z) (f : Z) (c : bool) :
  registry (lua w) !! k = Some (LFunction f c) ->
  let L0 := call_frame w (LFunction f c) [] in
  pcall_leaves 0 0 (-2) L0 ->
  LuaFunction_void_call0 (mkVar (Some (state_obj w)) rc (Z.pos k)) w
  = Done tt (after_call w (luaD_pcall 0 0 (-2) L0)).
Proof.
  intros Hk L0 Hleaves. unfold LuaFunction_void_call0.
  rewrite (bind_Done _ _ _ _ _ (CheckFunctionVar_function w k rc f c Hk)).
  cbv beta. cbn [negb m_pState].
  rewrite (bind_Done _ _ _ _ _ (GetState_ok w)). cbv beta.
  unfold lua_pushcfunction. unfold bind at 1. unfold push at 1. unfold bind at 1.
  unfold getL at 1. cbv beta iota. unfold putL at 1. cbv beta iota.
  match goal with |- bind _ _ ?W = _ =>
    assert (HP : PushValueToStack (mkVar (Some (state_obj w)) rc (Z.pos k)) true W
                 = Done true (pushed (LFunction f c) W))
      by (apply (PushValueToStack_live W k rc (LFunction f c)); exact Hk)
  end.
  rewrite (bind_Done _ _ _ _ _ HP). cbv beta. clear HP.
  unfold lua_pcall at 1. unfold bind at 1. unfold bind at 1. unfold getL at 1.
  cbv beta iota zeta. unfold bind at 1. unfold putL at 1. cbv beta iota.
  unfold ret at 1. cbv beta iota.
  change (lua (pushed (LFunction f c)
                 (set_lua (set_stack (LFunction OnLuaException true :: stack (lua w)) (lua w)) w)))
    with L0.
  unfold pcall_leaves in Hleaves. cbv zeta in Hleaves. unfold after_call.
  destruct (luaD_pcall 0 0 (-2) L0) as [status L1]. cbn [fst snd] in *.
  change (drop (Z.to_nat 0 + 1) (stack L0))
    with (LFunction OnLuaException true :: stack (lua w)) in Hleaves.
  unfold pushed. rewrite !set_lua_twice.
  destruct (status =? LUA_OK) eqn:Est; cbn [negb].
  - destruct Hleaves as (results & Hlen & Hst).
    destruct results; [ | discriminate ]. cbn [app] in Hst.
    unfold bind at 1. unfold ret at 1. cbv beta iota.
    rewrite (lua_pop_one (set_lua L1 w) _ _ Hst), app_nil_r.
    apply f_equal. symmetry. apply (set_cerr_same (set_lua _ w)).
  - destruct Hleaves as (msg & Hst).
    unfold bind at 1. unfold bind at 1.
    rewrite (report_top_string (set_lua L1 w) msg _ Hst). cbv beta iota.
    assert (Etop : top_string L1 = c_str msg)
      by (unfold top_string; rewrite Hst; reflexivity).
    rewrite Etop.
    change (cerr (set_lua L1 w)) with (cerr w).
    rewrite (lua_pop_one (set_cerr (cerr w ++ [c_str msg]) (set_lua L1 w)) _ _ Hst).
    cbv beta iota.
    match goal with |- lua_pop 1 ?W = _ =>
      rewrite (lua_pop_one W (LFunction OnLuaException true) (stack (lua w)) eq_refl)
    end.
    reflexivity.
Qed.

Lemma void_call_of_no_function (w : World) (k : positive) (rc : option Z)
    (args : list NativeValue) :
  match registry (lua w) !! k with
  | Some (LFunction f c) => True
  | _ =>
      LuaFunction_void_call (mkVar (Some (state_obj w)) rc (Z.pos k)) args w
      = Done tt (reported not_callable w) /\
      LuaFunction_void_call0 (mkVar (Some (state_obj w)) rc (Z.pos k)) w
      = Done tt (reported not_callable w)
  end.
Proof.
  destruct (registry (lua w) !! k) as [ v | ] eqn:Hk.
  2:{ unfold LuaFunction_void_call, LuaFunction_void_call0, CheckFunctionVar.
      revert Hk. open_world w. intros Hk.
      split; repeat (progress (step; rewrite ?Hk)); reflexivity. }
  destruct v; try exact I;
    unfold LuaFunction_void_call, LuaFunction_void_call0, CheckFunctionVar;
    revert Hk; open_world w; intros Hk;
    split; repeat (progress (step; rewrite ?Hk)); reflexivity.
Qed.

Lemma void_call_of_a_nil_handle (w : World) (rc : option Z) (args : list NativeValue) :
  LuaFunction_void_call (mkVar (Some (state_obj w)) rc LUA_REFNIL) args w
  = Done tt (reported not_callable w) /\
  LuaFunction_void_call0 (mkVar (Some (state_obj w)) rc LUA_REFNIL) w
  = Done tt (reported not_callable w).
Proof.
  unfold LuaFunction_void_call, LuaFunction_void_call0, CheckFunctionVar, bind.
  rewrite IsFunction_nil. split; reflexivity.
Qed.

(** X25: a call of LuaFunction<void> with arguments that are not handles.
    On a handle that does not hold a function, a nil handle included, it
    reports an invalid function and changes nothing else.  On a function, lua_pcall is entered
    with no results asked for, with the arguments pushed in order above the
    function and the handler OnLuaException below it as message handler;
    when lua_pcall keeps its contract, the operand stack is afterwards what
    it was before the call, and the error message is reported exactly when
    the status is not LUA_OK. *)
Theorem a_void_call_leaves_the_stack_as_it_was (w : World) (k : positive) (rc : option Z)
    (args : list NativeValue) :
  Forall plain args ->
  let h := mkVar (Some (state_obj w)) rc (Z.pos k) in
  let n := Z.of_nat (length args) in
  match registry (lua w) !! k with
  | Some (LFunction f c) =>
      let L0 := call_frame w (LFunction f c) args in
      pcall_leaves n 0 (- (n + 2)) L0 ->
      LuaFunction_void_call h args w
      = Done tt (after_call w (luaD_pcall n 0 (- (n + 2)) L0))
  | _ => LuaFunction_void_call h args w = Done tt (reported not_callable w)
  end /\
  LuaFunction_void_call (mkVar (Some (state_obj w)) rc LUA_REFNIL) args w
  = Done tt (reported not_callable w).
Proof.
  intros Hp h n. subst h.
  split; [ | exact (proj1 (void_call_of_a_nil_handle w rc args)) ].
  pose proof (void_call_of_no_function w k rc args) as Hno.
  destruct (registry (lua w) !! k) as [ v | ] eqn:Hk; [ | exact (proj1 Hno) ].
  destruct v; try exact (proj1 Hno).
  intros L0. exact (void_call_of_a_function w k rc _ _ args Hk Hp).
Qed.

Lemma readers :
  reads_the_top for_bool truthy false /\
  reads_the_top for_cfunction (fun x => match x with LFunction f true => f | _ => 0 end) 0 /\
  reads_the_top for_userdata
    (fun x => match x with LUserData u => Z.pos u | LLightUserData p => p | _ => 0 end) 0 /\
  (forall t, reads_the_top (for_number t)
               (fun x => cast_float t (match tonumber x with
                                       | Some n => n
                                       | None => S754_zero false
                                       end)) (S754_zero false)).
Proof.
  repeat split; try (intros W; reflexivity).
  - intros W x rest. open_world W. intros ->. steps. destruct x as [ | [ | ] | | | | | | | ]; reflexivity.
  - intros W x rest. open_world W. intros ->. steps. reflexivity.
  - intros W x rest. open_world W. intros ->. steps. reflexivity.
  - intros W x rest. open_world W. intros ->. unfold for_number, Get, lua_tonumber, lua_tonumberx.
    steps. destruct (tonumber x); reflexivity.
Qed.

(** X26: a call of LuaFunction<R> on a handle that holds a function, with
    arguments that are not handles, for a return type whose Get reads the
    top of the stack (bool, a C function, a userdata pointer, a
    floating-point number).  One result is asked for; with LUA_OK the call
    returns what Get makes of it, otherwise it reports the error message
    and returns the default of R.  In both cases the operand stack is
    afterwards what it was before the call. *)
Theorem a_call_returns_the_first_result {A} (R : Marshal A) (read : TValue -> A) (d : A)
    (w : World) (k : positive) (rc : option Z) (f : Z) (c : bool)
    (args : list NativeValue) :
  reads_the_top R read d ->
  registry (lua w) !! k = Some (LFunction f c) ->
  Forall plain args ->
  let h := mkVar (Some (state_obj w)) rc (Z.pos k) in
  let n := Z.of_nat (length args) in
  let L0 := call_frame w (LFunction f c) args in
  let r := luaD_pcall n 1 (- (n + 2)) L0 in
  pcall_leaves n 1 (- (n + 2)) L0 ->
  LuaFunction_call R h args w
  = Done (if fst r =? LUA_OK then read (top_value (snd r)) else d) (after_call w r).
Proof.
  intros [Hget Hdflt] Hk Hp h n L0 r Hleaves. subst h r.
  unfold LuaFunction_call.
  rewrite (bind_Done _ _ _ _ _ (CheckFunctionVar_function w k rc f c Hk)).
  cbv beta. cbn [negb m_pState].
  rewrite (entering_the_call w k rc f c args _ Hk Hp).
  fold n. fold L0. unfold GetExceptionHandlerStackOffset.
  unfold lua_pcall at 1. unfold bind at 1. unfold bind at 1. unfold getL at 1.
  cbv beta iota zeta. unfold bind at 1. unfold putL at 1. cbv beta iota.
  unfold ret at 1. cbv beta iota. cbn [lua set_lua].
  unfold pcall_leaves in Hleaves. cbv zeta in Hleaves. unfold after_call.
  destruct (luaD_pcall n 1 (- (n + 2)) L0) as [status L1]. cbn [fst snd] in *.
  assert (Hbelow : drop (Z.to_nat n + 1) (stack L0)
                   = LFunction OnLuaException true :: stack (lua w)).
  { subst L0 n. unfold call_frame. cbn [stack set_stack].
    rewrite Nat2Z.id.
    replace (length args) with (length (rev (map pushed_value args)))
      by (rewrite length_rev, length_map; reflexivity).
    apply drop_succ_app. }
  rewrite set_lua_twice.
  destruct (status =? LUA_OK) eqn:Est; cbn [negb].
  - destruct Hleaves as (results & Hlen & Hst). rewrite Hbelow in Hst.
    destruct results as [ | x [ | y results ] ]; try discriminate. cbn [app] in Hst.
    pose proof (Hget (set_lua L1 w) x _ Hst) as HG.
    change (state_obj (set_lua L1 w)) with (state_obj w) in HG.
    rewrite (bind_Done _ _ _ _ _ HG). cbv beta.
    rewrite (bind_Done _ _ _ _ _ (settop_below w L1 [x] _ Hst)). cbv beta.
    unfold top_value. rewrite Hst, app_nil_r. cbn [head default]. unfold ret.
    reflexivity.
  - destruct Hleaves as (msg & Hst). rewrite Hbelow in Hst.
    rewrite (bind_Done _ _ _ _ _ (report_top_string (set_lua L1 w) msg _ Hst)).
    cbv beta.
    rewrite (bind_Done _ _ _ _ _ (Hdflt _)). cbv beta.
    assert (Etop : top_string L1 = c_str msg)
      by (unfold top_string; rewrite Hst; reflexivity).
    rewrite Etop.
    rewrite (bind_Done _ _ _ _ _
               (settop_below (set_cerr (cerr w ++ [c_str msg]) w) L1 [LString msg] _ Hst)).
    reflexivity.
Qed.

(** X27: on a handle that holds a function, the call without arguments
    of LuaFunction<R> is the call with an empty argument list, and so is
    that of LuaFunction<void> when lua_pcall keeps its contract (it pops
    what the other resets).  On any other handle, a nil handle included,
    both calls of LuaFunction<void> report the invalid function alike. *)
Theorem a_call_without_arguments_is_a_call_with_none {A} (R : Marshal A) (w : World)
    (k : positive) (rc : option Z) :
  let h := mkVar (Some (state_obj w)) rc (Z.pos k) in
  match registry (lua w) !! k with
  | Some (LFunction f c) =>
      LuaFunction_call0 R h w = LuaFunction_call R h [] w /\
      (pcall_leaves 0 0 (-2) (call_frame w (LFunction f c) []) ->
       LuaFunction_void_call0 h w = LuaFunction_void_call h [] w)
  | _ => LuaFunction_void_call0 h w = LuaFunction_void_call h [] w
  end /\
  LuaFunction_void_call0 (mkVar (Some (state_obj w)) rc LUA_REFNIL) w
  = LuaFunction_void_call (mkVar (Some (state_obj w)) rc LUA_REFNIL) [] w.
Proof.
  intros h. subst h.
  split.
  2:{ destruct (void_call_of_a_nil_handle w rc []) as [E1 E2]. rewrite E1, E2. reflexivity. }
  pose proof (void_call_of_no_function w k rc []) as Hno.
  destruct (registry (lua w) !! k) as [ v | ] eqn:Hk;
    [ | destruct Hno as [E1 E2]; rewrite E1, E2; reflexivity ].
  destruct v as [ | | | | | | | f isC | ];
    try (rewrite (proj1 Hno), (proj2 Hno); reflexivity).
  clear Hno. split.
  - unfold LuaFunction_call0, LuaFunction_call.
    rewrite !(bind_Done _ _ _ _ _ (CheckFunctionVar_function w k rc f isC Hk)).
    reflexivity.
  - intros Hleaves.
    rewrite (void_call_of_a_function w k rc f isC [] Hk (List.Forall_nil _) Hleaves).
    rewrite (void_call0_of_a_function w k rc f isC Hk Hleaves).
    reflexivity.
Qed.

End VoidCalls.

Lemma a_failed_call_is_reported :
  @LuaFunction_void_call decimal_runtime handle_1 [NInt int32 5; NBool true]
    (callback_world false)
  = Done tt (reported "attempt to call a value" (callback_world false)).
Proof.
  assert (Hp : Forall plain [NInt int32 5; NBool true]) by (repeat constructor).
  pose proof (@a_void_call_leaves_the_stack_as_it_was decimal_runtime (callback_world false)
                1%positive (Some 10) [NInt int32 5; NBool true] Hp) as T.
  cbv zeta in T. destruct T as [T _].
  change (registry (lua (callback_world false)) !! 1%positive)
    with (Some (LFunction 9 false)) in T.
  cbv beta iota in T.
  refine (eq_trans (T _) _); [ | reflexivity ].
  exists "attempt to call a value". reflexivity.
Defined.

Lemma a_call_that_returns_true :
  @LuaFunction_call agreeing_runtime bool for_bool handle_1 [NInt int32 5]
    (callback_world false)
  = Done true (callback_world false).
Proof.
  assert (Hp : Forall plain [NInt int32 5]) by (repeat constructor).
  assert (Hk : registry (lua (callback_world false)) !! 1%positive = Some (LFunction 9 false))
    by reflexivity.
  refine (eq_trans
            (@a_call_returns_the_first_result agreeing_runtime bool for_bool truthy false
               (callback_world false) 1%positive (Some 10) 9 false [NInt int32 5]
               (proj1 (@readers agreeing_runtime)) Hk Hp _) _); [ | reflexivity ].
  exists [LBoolean true]. split; reflexivity.
Defined.

